(** * DeltaPerformer: a shallow embedding of update_engine/delta_performer.cc

    The applier consumes a delta payload in chunks ([Write]), parses the
    manifest, executes install operations against two block devices and
    checkpoints its progress in a preference store.  Everything the file
    reaches outside itself (protobuf parser, preference store, extent
    writers, positioned I/O, the patch subprocess, the file system) is an
    environment [Env]: a deterministic handler over an abstract world.
    Every external call is also recorded in a trace, so that ordering
    properties can be stated. *)

From Stdlib Require Import ZArith List String Ascii Lia Bool DecimalString.
From Stdlib.Strings Require Import Byte.
Import ListNotations.
Open Scope Z_scope.

(** ** Machine integers *)

Definition two64 : Z := 2 ^ 64.
Definition two63 : Z := 2 ^ 63.

(** Unsigned 64-bit wrap-around (uint64_t arithmetic). *)
Definition wrap64 (z : Z) : Z := z mod two64.

(** Conversion to a signed 64-bit integer (int64_t, ssize_t). *)
Definition to_int64 (z : Z) : Z := (z + two63) mod two64 - two63.

(** Conversion to a 32-bit int (the size argument of ParseFromArray). *)
Definition to_int32 (z : Z) : Z := (z + 2 ^ 31) mod 2 ^ 32 - 2 ^ 31.

Definition uint64 (z : Z) : Prop := 0 <= z < two64.

Arguments wrap64 : simpl never.
Arguments to_int64 : simpl never.
Arguments to_int32 : simpl never.

Definition EINVAL : Z := 22.

(** ** Constants of the file *)

Definition kDeltaVersionLength : Z := 8.
Definition kDeltaProtobufLengthLength : Z := 8.
Definition kUpdatePayloadPublicKeyPath : string :=
  "/usr/share/update_engine/update-payload-key.pub.pem".
Definition kUpdateStateOperationInvalid : Z := -1.

(** Modelled from the spec: kDeltaMagic is declared by the payload generator
    (delta_diff_generator.h), which is not part of the sources at hand.  The
    spec fixes it as a 4-byte ASCII tag; this file only ever takes its
    length. *)
Definition kDeltaMagic : string := "CrAU".

(** Modelled from the spec: kSparseHole (graph_types.h) is the maximum value
    of the 64-bit unsigned domain. *)
Definition kSparseHole : Z := two64 - 1.

(** Modelled from the spec: the preference-store keys (prefs_constants). *)
Definition kPrefsManifestMetadataSize : string := "manifest-metadata-size".
Definition kPrefsUpdateStateNextOperation : string := "update-state-next-operation".
Definition kPrefsUpdateStateNextDataOffset : string := "update-state-next-data-offset".
Definition kPrefsUpdateStateSHA256Context : string := "update-state-sha256-context".
Definition kPrefsUpdateStateSignedSHA256Context : string :=
  "update-state-signed-sha256-context".

(** ** The manifest (generated protobuf classes, seen through their accessors) *)

Record Extent := mkExtent {
  start_block : Z;   (* uint64 *)
  num_blocks : Z     (* uint64 *)
}.

Inductive OperationType := REPLACE | REPLACE_BZ | MOVE | BSDIFF.

Definition OperationType_eqb (a b : OperationType) : bool :=
  match a, b with
  | REPLACE, REPLACE | REPLACE_BZ, REPLACE_BZ | MOVE, MOVE | BSDIFF, BSDIFF => true
  | _, _ => false
  end.

(** The integer fields are unsigned; their widths come from the generated
    protobuf header, which is not part of the sources at hand.  The one sum
    taken over two of them alone, data_offset() + data_length() in
    CanPerformInstallOperation, wraps at the width of the accessors' type,
    which the environment gives ([blob_end_bits]); sums with buffer_offset_
    or buffer_.size() are taken in 64 bits, the width of those. *)
Record InstallOperation := mkOp {
  op_type : OperationType;
  data_offset : Z;
  data_length : Z;
  src_extents : list Extent;
  src_length : Z;
  dst_extents : list Extent;
  dst_length : Z
}.

Record DeltaArchiveManifest := mkManifest {
  install_operations : list InstallOperation;
  kernel_install_operations : list InstallOperation;
  block_size : Z;                    (* uint32 *)
  signatures_offset : option Z;      (* has_signatures_offset / signatures_offset *)
  signatures_size : option Z
}.

Definition empty_manifest : DeltaArchiveManifest :=
  mkManifest [] [] 4096 None None.

Definition wf_extent (e : Extent) : Prop :=
  uint64 (start_block e) /\ uint64 (num_blocks e).

(** The byte counts of a manifest are unsigned. *)
Definition wf_operation (op : InstallOperation) : Prop := 0 <= data_length op.

Definition wf_manifest (m : DeltaArchiveManifest) : Prop :=
  Forall wf_operation (install_operations m)
  /\ Forall wf_operation (kernel_install_operations m).

(** ** Extent arithmetic: ExtentsToBsdiffPositionsString *)

Definition print_i64 (z : Z) : string := NilZero.string_of_int (Z.to_int z).
Definition print_u64 (z : Z) : string := NilZero.string_of_int (Z.to_int z).

(** StringPrintf("%" PRIi64 ":%" PRIu64 ",", start, this_length) *)
Definition position_entry (start this_length : Z) : string :=
  (print_i64 start ++ ":" ++ print_u64 this_length ++ ",")%string.

(** The start value printed for an extent. *)
Definition position_start (extent : Extent) (block_size : Z) : Z :=
  let start := to_int64 (start_block extent) in
  if start =? to_int64 kSparseHole
  then -1
  else to_int64 (wrap64 (wrap64 start * block_size)).

(** The length value printed for an extent, given the running total. *)
Definition position_length (extent : Extent) (block_size full_length length : Z) : Z :=
  Z.min (wrap64 (full_length - length)) (wrap64 (num_blocks extent * block_size)).

(** The for loop of ExtentsToBsdiffPositionsString: [ret] and [length] are
    its two accumulators. *)
Fixpoint positions_loop (extents : list Extent) (block_size full_length : Z)
    (ret : string) (length : Z) : string * Z :=
  match extents with
  | [] => (ret, length)
  | extent :: rest =>
      let this_length := position_length extent block_size full_length length in
      let start := position_start extent block_size in
      positions_loop rest block_size full_length
        (ret ++ position_entry start this_length)%string
        (wrap64 (length + this_length))
  end.

(** ret.resize(ret.size() - 1) *)
Fixpoint drop_last_char (s : string) : string :=
  match s with
  | EmptyString => EmptyString
  | String c EmptyString => EmptyString
  | String c rest => String c (drop_last_char rest)
  end.

Definition string_empty (s : string) : bool :=
  match s with EmptyString => true | _ => false end.

(** [None] is the false return; [Some s] is true with *positions_string = s. *)
Definition ExtentsToBsdiffPositionsString (extents : list Extent)
    (block_size full_length : Z) : option string :=
  let '(ret, length) := positions_loop extents block_size full_length ""%string 0 in
  if length =? full_length
  then Some (if string_empty ret then ret else drop_last_char ret)
  else None.

(** The entries the loop prints, as (start, length) pairs.  It follows the
    words of the specification ("a comma-separated list of start:length
    entries") and is related to the loop by [positions_loop_entries]. *)
Fixpoint bsdiff_entries (extents : list Extent) (block_size full_length length : Z)
    : list (Z * Z) :=
  match extents with
  | [] => []
  | extent :: rest =>
      let this_length := position_length extent block_size full_length length in
      (position_start extent block_size, this_length)
        :: bsdiff_entries rest block_size full_length (wrap64 (length + this_length))
  end.

(** Byte capacity of an extent list as the code measures it: each extent
    contributes num_blocks * block_size reduced to 64 bits. *)
Definition capacity64 (extents : list Extent) (block_size : Z) : Z :=
  fold_right (fun e acc => wrap64 (num_blocks e * block_size) + acc) 0 extents.

(** Byte capacity over the unbounded integers. *)
Definition total_capacity (extents : list Extent) (block_size : Z) : Z :=
  fold_right (fun e acc => num_blocks e * block_size + acc) 0 extents.

Definition sum_lengths (entries : list (Z * Z)) : Z :=
  fold_right (fun p acc => snd p + acc) 0 entries.

(** Last character of a string, if any. *)
Fixpoint last_char (s : string) : option ascii :=
  match s with
  | EmptyString => None
  | String c EmptyString => Some c
  | String _ rest => last_char rest
  end.

(** Entries joined by commas, without a trailing one. *)
Definition entry_text (p : Z * Z) : string :=
  (print_i64 (fst p) ++ ":" ++ print_u64 (snd p))%string.

Definition join_entries (entries : list (Z * Z)) : string :=
  String.concat "," (map entry_text entries).

Definition is_digit (c : ascii) : bool :=
  match c with
  | "0" | "1" | "2" | "3" | "4" | "5" | "6" | "7" | "8" | "9" => true
  | _ => false
  end%char.

(** What the loop appends to [ret]: one entry text and a comma per extent. *)
Fixpoint entries_text (entries : list (Z * Z)) : string :=
  match entries with
  | [] => ""%string
  | p :: rest => (position_entry (fst p) (snd p) ++ entries_text rest)%string
  end.

(** ** ExtentsToString, the extent printer of DumpUpdateProto *)

(** The StringPrintf of one turn of the loop. *)
Definition extent_entry (extent : Extent) : string :=
  if start_block extent =? kSparseHole
  then ("{kSparseHole, " ++ print_u64 (num_blocks extent) ++ "}, ")%string
  else ("{" ++ print_u64 (start_block extent) ++ ", "
          ++ print_u64 (num_blocks extent) ++ "}, ")%string.

Fixpoint extents_loop (extents : list Extent) (ret : string) : string :=
  match extents with
  | [] => ret
  | extent :: rest => extents_loop rest (ret ++ extent_entry extent)%string
  end.

(** [None] is a failed DCHECK_GT(ret.size(), 1); ret.resize(ret.size() - 2)
    takes the last two characters off. *)
Definition ExtentsToString (extents : list Extent) : option string :=
  let ret := extents_loop extents ""%string in
  if string_empty ret then Some ret
  else if negb (1 <? Z.of_nat (String.length ret)) then None
  else Some (drop_last_char (drop_last_char ret)).

(** An extent as it reads in the result. *)
Definition extent_text (extent : Extent) : string :=
  if start_block extent =? kSparseHole
  then ("{kSparseHole, " ++ print_u64 (num_blocks extent) ++ "}")%string
  else ("{" ++ print_u64 (start_block extent) ++ ", "
          ++ print_u64 (num_blocks extent) ++ "}")%string.

(** ** The environment

    Every call that leaves delta_performer.cc is a [Call]; the environment
    answers it with a [Response] and a new world. *)

Inductive WriterKind :=
| ZeroPadDirect        (* ZeroPadExtentWriter over DirectExtentWriter *)
| BzipZeroPadDirect.   (* BzipExtentWriter over the former *)

Inductive Call :=
| PrefsSetInt64 (key : string) (value : Z)
| PrefsSetString (key : string) (value : string)
| WriterInit (kind : WriterKind) (fd : Z) (extents : list Extent) (block_size : Z)
| WriterWrite (data : list byte) (count : Z)
| WriterEnd
| PReadAll (fd : Z) (count offset : Z)
| PWriteAll (fd : Z) (data : list byte) (count offset : Z)
| MakeTempFile (template : string)
| OpenTemp (path : string)               (* open(path, O_WRONLY | O_CREAT | O_TRUNC, 0644) *)
| WriteAll (fd : Z) (data : list byte) (count : Z)
| SynchronousExec (cmd : list string)
| Unlink (path : string)
| SysOpen (path : string)                (* open(path, O_RDWR, 000) *)
| SysClose (fd : Z)
| FileExists (path : string)
| VerifySignature (signature : list byte) (key_path : string).

Record Response := mkResponse {
  r_ok : bool;            (* the bool result, where there is one *)
  r_int : Z;              (* the integer result: an fd, a byte count, an exit code *)
  r_errno : Z;            (* errno after a failed system call *)
  r_bytes : list byte;    (* bytes produced by the call *)
  r_str : string          (* a string produced by the call *)
}.

Inductive Event :=
| EvCall (c : Call) (r : Response)
| EvExitBlocked (blocked : bool).     (* Terminator::set_exit_blocked *)

Record Env := mkEnv {
  World : Type;
  handle : World -> Call -> Response * World;
  (* manifest_.ParseFromArray(data, size): the result and the message left behind *)
  ParseFromArray : list byte -> Z -> bool * DeltaArchiveManifest;
  (* OmahaHashCalculator, as functions of the bytes absorbed so far *)
  sha256_context : list byte -> string;
  sha256_hash : list byte -> string;
  (* a fresh OmahaHashCalculator restored from a saved context *)
  context_SetContext : string -> bool;
  context_Finalize : string -> bool;
  context_raw_hash : string -> list byte;
  kBspatchPath : string;
  (* the width in bits of the unsigned type of
     operation.data_offset() + operation.data_length(): that of the accessors
     of the generated message class *)
  blob_end_bits : Z
}.

(** Results of a computation: it returns, the process dies (a failed CHECK,
    a division by zero, an access out of range), or the model runs out of
    fuel. *)
Inductive Res (S A : Type) :=
| Done (a : A) (y : S)
| Aborted (y : S)
| OutOfFuel.
Arguments Done {S A} a y.
Arguments Aborted {S A} y.
Arguments OutOfFuel {S A}.

(** Modelled from the spec: OmahaHashCalculator is not part of the sources
    at hand; the spec gives it as an incremental SHA-256 with update,
    context save and finalize.  Here it is the bytes absorbed so far and the
    digest string published by Finalize (empty before). *)
Record HashCalculator := mkHash {
  hc_bytes : list byte;
  hc_hash : string
}.

Record DeltaPerformer := mkDP {
  fd_ : Z;
  kernel_fd_ : Z;
  path_ : string;
  kernel_path_ : string;
  manifest_ : DeltaArchiveManifest;
  manifest_valid_ : bool;
  manifest_metadata_size_ : Z;
  next_operation_num_ : Z;
  buffer_ : list byte;
  buffer_offset_ : Z;
  last_updated_buffer_offset_ : Z;
  block_size_ : Z;
  hash_calculator_ : HashCalculator;
  signed_hash_context_ : string;
  signatures_message_data_ : list byte
}.

Definition set_fd (dp : DeltaPerformer) (v : Z) : DeltaPerformer :=
  mkDP v (kernel_fd_ dp) (path_ dp) (kernel_path_ dp) (manifest_ dp) (manifest_valid_ dp)
    (manifest_metadata_size_ dp) (next_operation_num_ dp) (buffer_ dp) (buffer_offset_ dp)
    (last_updated_buffer_offset_ dp) (block_size_ dp) (hash_calculator_ dp)
    (signed_hash_context_ dp) (signatures_message_data_ dp).
Definition set_kernel_fd (dp : DeltaPerformer) (v : Z) : DeltaPerformer :=
  mkDP (fd_ dp) v (path_ dp) (kernel_path_ dp) (manifest_ dp) (manifest_valid_ dp)
    (manifest_metadata_size_ dp) (next_operation_num_ dp) (buffer_ dp) (buffer_offset_ dp)
    (last_updated_buffer_offset_ dp) (block_size_ dp) (hash_calculator_ dp)
    (signed_hash_context_ dp) (signatures_message_data_ dp).
Definition set_path (dp : DeltaPerformer) (v : string) : DeltaPerformer :=
  mkDP (fd_ dp) (kernel_fd_ dp) v (kernel_path_ dp) (manifest_ dp) (manifest_valid_ dp)
    (manifest_metadata_size_ dp) (next_operation_num_ dp) (buffer_ dp) (buffer_offset_ dp)
    (last_updated_buffer_offset_ dp) (block_size_ dp) (hash_calculator_ dp)
    (signed_hash_context_ dp) (signatures_message_data_ dp).
Definition set_kernel_path (dp : DeltaPerformer) (v : string) : DeltaPerformer :=
  mkDP (fd_ dp) (kernel_fd_ dp) (path_ dp) v (manifest_ dp) (manifest_valid_ dp)
    (manifest_metadata_size_ dp) (next_operation_num_ dp) (buffer_ dp) (buffer_offset_ dp)
    (last_updated_buffer_offset_ dp) (block_size_ dp) (hash_calculator_ dp)
    (signed_hash_context_ dp) (signatures_message_data_ dp).
Definition set_manifest (dp : DeltaPerformer) (v : DeltaArchiveManifest) : DeltaPerformer :=
  mkDP (fd_ dp) (kernel_fd_ dp) (path_ dp) (kernel_path_ dp) v (manifest_valid_ dp)
    (manifest_metadata_size_ dp) (next_operation_num_ dp) (buffer_ dp) (buffer_offset_ dp)
    (last_updated_buffer_offset_ dp) (block_size_ dp) (hash_calculator_ dp)
    (signed_hash_context_ dp) (signatures_message_data_ dp).
Definition set_manifest_valid (dp : DeltaPerformer) (v : bool) : DeltaPerformer :=
  mkDP (fd_ dp) (kernel_fd_ dp) (path_ dp) (kernel_path_ dp) (manifest_ dp) v
    (manifest_metadata_size_ dp) (next_operation_num_ dp) (buffer_ dp) (buffer_offset_ dp)
    (last_updated_buffer_offset_ dp) (block_size_ dp) (hash_calculator_ dp)
    (signed_hash_context_ dp) (signatures_message_data_ dp).
Definition set_manifest_metadata_size (dp : DeltaPerformer) (v : Z) : DeltaPerformer :=
  mkDP (fd_ dp) (kernel_fd_ dp) (path_ dp) (kernel_path_ dp) (manifest_ dp) (manifest_valid_ dp)
    v (next_operation_num_ dp) (buffer_ dp) (buffer_offset_ dp)
    (last_updated_buffer_offset_ dp) (block_size_ dp) (hash_calculator_ dp)
    (signed_hash_context_ dp) (signatures_message_data_ dp).
Definition set_next_operation_num (dp : DeltaPerformer) (v : Z) : DeltaPerformer :=
  mkDP (fd_ dp) (kernel_fd_ dp) (path_ dp) (kernel_path_ dp) (manifest_ dp) (manifest_valid_ dp)
    (manifest_metadata_size_ dp) v (buffer_ dp) (buffer_offset_ dp)
    (last_updated_buffer_offset_ dp) (block_size_ dp) (hash_calculator_ dp)
    (signed_hash_context_ dp) (signatures_message_data_ dp).
Definition set_buffer (dp : DeltaPerformer) (v : list byte) : DeltaPerformer :=
  mkDP (fd_ dp) (kernel_fd_ dp) (path_ dp) (kernel_path_ dp) (manifest_ dp) (manifest_valid_ dp)
    (manifest_metadata_size_ dp) (next_operation_num_ dp) v (buffer_offset_ dp)
    (last_updated_buffer_offset_ dp) (block_size_ dp) (hash_calculator_ dp)
    (signed_hash_context_ dp) (signatures_message_data_ dp).
Definition set_buffer_offset (dp : DeltaPerformer) (v : Z) : DeltaPerformer :=
  mkDP (fd_ dp) (kernel_fd_ dp) (path_ dp) (kernel_path_ dp) (manifest_ dp) (manifest_valid_ dp)
    (manifest_metadata_size_ dp) (next_operation_num_ dp) (buffer_ dp) v
    (last_updated_buffer_offset_ dp) (block_size_ dp) (hash_calculator_ dp)
    (signed_hash_context_ dp) (signatures_message_data_ dp).
Definition set_last_updated_buffer_offset (dp : DeltaPerformer) (v : Z) : DeltaPerformer :=
  mkDP (fd_ dp) (kernel_fd_ dp) (path_ dp) (kernel_path_ dp) (manifest_ dp) (manifest_valid_ dp)
    (manifest_metadata_size_ dp) (next_operation_num_ dp) (buffer_ dp) (buffer_offset_ dp)
    v (block_size_ dp) (hash_calculator_ dp)
    (signed_hash_context_ dp) (signatures_message_data_ dp).
Definition set_block_size (dp : DeltaPerformer) (v : Z) : DeltaPerformer :=
  mkDP (fd_ dp) (kernel_fd_ dp) (path_ dp) (kernel_path_ dp) (manifest_ dp) (manifest_valid_ dp)
    (manifest_metadata_size_ dp) (next_operation_num_ dp) (buffer_ dp) (buffer_offset_ dp)
    (last_updated_buffer_offset_ dp) v (hash_calculator_ dp)
    (signed_hash_context_ dp) (signatures_message_data_ dp).
Definition set_hash_calculator (dp : DeltaPerformer) (v : HashCalculator) : DeltaPerformer :=
  mkDP (fd_ dp) (kernel_fd_ dp) (path_ dp) (kernel_path_ dp) (manifest_ dp) (manifest_valid_ dp)
    (manifest_metadata_size_ dp) (next_operation_num_ dp) (buffer_ dp) (buffer_offset_ dp)
    (last_updated_buffer_offset_ dp) (block_size_ dp) v
    (signed_hash_context_ dp) (signatures_message_data_ dp).
Definition set_signed_hash_context (dp : DeltaPerformer) (v : string) : DeltaPerformer :=
  mkDP (fd_ dp) (kernel_fd_ dp) (path_ dp) (kernel_path_ dp) (manifest_ dp) (manifest_valid_ dp)
    (manifest_metadata_size_ dp) (next_operation_num_ dp) (buffer_ dp) (buffer_offset_ dp)
    (last_updated_buffer_offset_ dp) (block_size_ dp) (hash_calculator_ dp)
    v (signatures_message_data_ dp).
Definition set_signatures_message_data (dp : DeltaPerformer) (v : list byte) : DeltaPerformer :=
  mkDP (fd_ dp) (kernel_fd_ dp) (path_ dp) (kernel_path_ dp) (manifest_ dp) (manifest_valid_ dp)
    (manifest_metadata_size_ dp) (next_operation_num_ dp) (buffer_ dp) (buffer_offset_ dp)
    (last_updated_buffer_offset_ dp) (block_size_ dp) (hash_calculator_ dp)
    (signed_hash_context_ dp) v.

(** Modelled from the spec: the constructor lives in delta_performer.h, which
    is not part of the sources at hand.  A fresh applier has no descriptor
    (-1), an empty buffer, nothing consumed, no manifest, and a
    last-checkpointed offset that no real offset equals. *)
Definition new_DeltaPerformer : DeltaPerformer :=
  mkDP (-1) (-1) ""%string ""%string empty_manifest false 0 0 [] 0 (two64 - 1) 0
    (mkHash [] ""%string) ""%string [].

Definition size_of {A} (l : list A) : Z := Z.of_nat (List.length l).

Definition bytes_eqb (a b : list byte) : bool :=
  if list_eq_dec Byte.byte_eq_dec a b then true else false.

(** Modelled from the spec: OmahaHashCalculator::Update absorbs the bytes. *)
Definition Hash_Update (hc : HashCalculator) (data : list byte) : HashCalculator :=
  mkHash (hc_bytes hc ++ data) (hc_hash hc).

(** ** The applier *)

Section Performer.

Variable E : Env.

(** What the process touches besides the applier object: the outside world,
    the Terminator's exit-blocked flag, and the log of external calls. *)
Record Sys := mkSys {
  world : World E;
  exit_blocked : bool;
  trace : list Event
}.

Definition M (A : Type) : Type := Sys -> Res Sys A.

Definition ret {A} (a : A) : M A := fun y => Done a y.

Definition bind {A B} (m : M A) (k : A -> M B) : M B :=
  fun y =>
    match m y with
    | Done a y' => k a y'
    | Aborted y' => Aborted y'
    | OutOfFuel => OutOfFuel
    end.

Notation "x <- m ;; k" := (bind m (fun x => k))
  (at level 61, m at next level, right associativity).
Notation "' pat <- m ;; k" := (bind m (fun x => match x with pat => k end))
  (at level 61, pat pattern, m at next level, right associativity).

(** A failed CHECK / DCHECK, or undefined behaviour: the process is gone. *)
Definition abort {A} : M A := fun y => Aborted y.

(** An external call: the environment answers, the trace grows. *)
Definition call (c : Call) : M Response :=
  fun y =>
    let '(r, w) := handle E (world y) c in
    Done r (mkSys w (exit_blocked y) (trace y ++ [EvCall c r])).

(** Modelled from the spec: Terminator::set_exit_blocked sets the
    process-wide flag that defers a requested exit. *)
Definition set_exit_blocked (b : bool) : M unit :=
  fun y => Done tt (mkSys (world y) b (trace y ++ [EvExitBlocked b])).

(** Modelled from the spec: OmahaHashCalculator::Finalize publishes the
    digest of the bytes absorbed. *)
Definition Hash_Finalize (hc : HashCalculator) : HashCalculator :=
  mkHash (hc_bytes hc) (sha256_hash E (hc_bytes hc)).

(** Modelled from the spec: OmahaHashCalculator::GetContext saves the
    state, a function of the bytes absorbed. *)
Definition Hash_GetContext (hc : HashCalculator) : string :=
  sha256_context E (hc_bytes hc).

Definition IsIdempotentOperation (op : InstallOperation) : bool :=
  match src_extents op with
  | [] => true
  | _ => false
  end.

(** Returns (success, *fd, *err). *)
Definition OpenFile (path : string) (fd : Z) : M (bool * Z * Z) :=
  if negb (fd =? -1) then ret (false, fd, EINVAL)
  else
    r <- call (SysOpen path) ;;
    let fd := r_int r in
    if fd <? 0 then ret (false, fd, r_errno r)
    else ret (true, fd, 0).

Definition Open (path : string) (dp : DeltaPerformer) : M (Z * DeltaPerformer) :=
  '(ok, fd, err) <- OpenFile path (fd_ dp) ;;
  let dp := set_fd dp fd in
  let dp := if ok then set_path dp path else dp in
  ret (- err, dp).

Definition OpenKernel (kernel_path : string) (dp : DeltaPerformer)
    : M (bool * DeltaPerformer) :=
  '(success, fd, err) <- OpenFile kernel_path (kernel_fd_ dp) ;;
  let dp := set_kernel_fd dp fd in
  let dp := if success then set_kernel_path dp kernel_path else dp in
  ret (success, dp).

Definition Close (dp : DeltaPerformer) : M (Z * DeltaPerformer) :=
  match buffer_ dp with
  | _ :: _ => ret (-1, dp)
  | [] =>
      let err := 0 in
      r <- call (SysClose (kernel_fd_ dp)) ;;
      let err := if r_int r =? -1 then r_errno r else err in
      r <- call (SysClose (fd_ dp)) ;;
      let err := if r_int r =? -1 then r_errno r else err in
      let dp := set_hash_calculator dp (Hash_Finalize (hash_calculator_ dp)) in
      let dp := set_fd dp (-2) in
      let dp := set_path dp ""%string in
      ret (- err, dp)
  end.

Definition DiscardBufferHeadBytes (count : Z) (dp : DeltaPerformer) : DeltaPerformer :=
  let n := Z.to_nat count in
  let dp := set_hash_calculator dp
              (Hash_Update (hash_calculator_ dp) (firstn n (buffer_ dp))) in
  set_buffer dp (skipn n (buffer_ dp)).

Definition ResetUpdateProgress : M bool :=
  r <- call (PrefsSetInt64 kPrefsUpdateStateNextOperation kUpdateStateOperationInvalid) ;;
  ret (r_ok r).

Definition CheckpointUpdateProgress (dp : DeltaPerformer) : M (bool * DeltaPerformer) :=
  _ <- set_exit_blocked true ;;
  if negb (last_updated_buffer_offset_ dp =? buffer_offset_ dp) then
    _ <- ResetUpdateProgress ;;
    r <- call (PrefsSetString kPrefsUpdateStateSHA256Context
                 (Hash_GetContext (hash_calculator_ dp))) ;;
    if negb (r_ok r) then ret (false, dp) else
    r <- call (PrefsSetInt64 kPrefsUpdateStateNextDataOffset
                 (to_int64 (buffer_offset_ dp))) ;;
    if negb (r_ok r) then ret (false, dp) else
    let dp := set_last_updated_buffer_offset dp (buffer_offset_ dp) in
    r <- call (PrefsSetInt64 kPrefsUpdateStateNextOperation (next_operation_num_ dp)) ;;
    if negb (r_ok r) then ret (false, dp) else
    ret (true, dp)
  else
    r <- call (PrefsSetInt64 kPrefsUpdateStateNextOperation (next_operation_num_ dp)) ;;
    if negb (r_ok r) then ret (false, dp) else
    ret (true, dp).

Definition CanPerformInstallOperation (dp : DeltaPerformer) (operation : InstallOperation)
    : bool :=
  if OperationType_eqb (op_type operation) MOVE then true
  else if data_offset operation <? buffer_offset_ dp then false
  else (data_offset operation + data_length operation) mod 2 ^ blob_end_bits E
         <=? wrap64 (buffer_offset_ dp + size_of (buffer_ dp)).

Definition ExtractSignatureMessage (operation : InstallOperation) (dp : DeltaPerformer)
    : M (bool * DeltaPerformer) :=
  match op_type operation, signatures_offset (manifest_ dp) with
  | REPLACE, Some sig_offset =>
      if negb (sig_offset =? data_offset operation) then ret (false, dp) else
      match signatures_size (manifest_ dp) with
      | None => ret (false, dp)
      | Some sig_size =>
          if negb (sig_size =? data_length operation) then ret (false, dp) else
          match signatures_message_data_ dp with
          | _ :: _ => ret (false, dp)
          | [] =>
              if negb (buffer_offset_ dp =? sig_offset) then ret (false, dp) else
              if negb (sig_size <=? size_of (buffer_ dp)) then ret (false, dp) else
              let dp := set_signatures_message_data dp
                          (firstn (Z.to_nat sig_size) (buffer_ dp)
                             ++ signatures_message_data_ dp) in
              let dp := set_signed_hash_context dp
                          (Hash_GetContext (hash_calculator_ dp)) in
              _ <- call (PrefsSetString kPrefsUpdateStateSignedSHA256Context
                           (signed_hash_context_ dp)) ;;
              ret (true, dp)
          end
      end
  | _, _ => ret (false, dp)
  end.

Definition PerformReplaceOperation (operation : InstallOperation)
    (is_kernel_partition : bool) (dp : DeltaPerformer) : M (bool * DeltaPerformer) :=
  match op_type operation with
  | MOVE | BSDIFF => abort                         (* CHECK(type is REPLACE or REPLACE_BZ) *)
  | _ =>
  if negb (buffer_offset_ dp =? data_offset operation) then abort else      (* CHECK_EQ *)
  if negb (data_length operation <=? size_of (buffer_ dp)) then abort else  (* CHECK_GE *)
  '(_, dp) <- ExtractSignatureMessage operation dp ;;
  let writer :=
    match op_type operation with
    | REPLACE => ZeroPadDirect
    | _ => BzipZeroPadDirect
    end in
  let extents := dst_extents operation in
  let fd := if is_kernel_partition then kernel_fd_ dp else fd_ dp in
  r <- call (WriterInit writer fd extents (block_size_ dp)) ;;
  if negb (r_ok r) then ret (false, dp) else
  r <- call (WriterWrite (firstn (Z.to_nat (data_length operation)) (buffer_ dp))
               (data_length operation)) ;;
  if negb (r_ok r) then ret (false, dp) else
  r <- call WriterEnd ;;
  if negb (r_ok r) then ret (false, dp) else
  let dp := set_buffer_offset dp (wrap64 (buffer_offset_ dp + data_length operation)) in
  let dp := DiscardBufferHeadBytes (data_length operation) dp in
  ret (true, dp)
  end.

Definition sum_blocks (extents : list Extent) : Z :=
  fold_left (fun acc e => wrap64 (acc + num_blocks e)) extents 0.

(** buf[off .. off + |data|) := data *)
Definition splice (buf : list byte) (off : Z) (data : list byte) : list byte :=
  let n := Z.to_nat off in
  firstn n buf ++ data ++ skipn (n + List.length data) buf.

(** The read loop of PerformMoveOperation; [None] is a return of false. *)
Fixpoint move_read (fd block_size : Z) (extents : list Extent)
    (buf : list byte) (bytes_read : Z) : M (option (list byte * Z)) :=
  match extents with
  | [] => ret (Some (buf, bytes_read))
  | extent :: rest =>
      let count := wrap64 (num_blocks extent * block_size) in
      r <- call (PReadAll fd count (wrap64 (start_block extent * block_size))) ;;
      if negb (r_ok r) then ret None else
      let bytes_read_this_iteration := r_int r in
      if negb (bytes_read_this_iteration =? to_int64 count) then ret None else
      move_read fd block_size rest (splice buf bytes_read (r_bytes r))
        (to_int64 (bytes_read + bytes_read_this_iteration))
  end.

(** The write loop of PerformMoveOperation. *)
Fixpoint move_write (fd block_size : Z) (extents : list Extent)
    (buf : list byte) (bytes_written : Z) : M (option Z) :=
  match extents with
  | [] => ret (Some bytes_written)
  | extent :: rest =>
      let count := wrap64 (num_blocks extent * block_size) in
      r <- call (PWriteAll fd
                   (firstn (Z.to_nat count) (skipn (Z.to_nat bytes_written) buf))
                   count (wrap64 (start_block extent * block_size))) ;;
      if negb (r_ok r) then ret None else
      move_write fd block_size rest buf (to_int64 (bytes_written + count))
  end.

Definition PerformMoveOperation (operation : InstallOperation)
    (is_kernel_partition : bool) (dp : DeltaPerformer) : M (bool * DeltaPerformer) :=
  let blocks_to_read := sum_blocks (src_extents operation) in
  let blocks_to_write := sum_blocks (dst_extents operation) in
  if negb (blocks_to_write =? blocks_to_read) then abort else              (* DCHECK_EQ *)
  let buf := repeat x00 (Z.to_nat (wrap64 (blocks_to_write * block_size_ dp))) in
  let fd := if is_kernel_partition then kernel_fd_ dp else fd_ dp in
  rd <- move_read fd (block_size_ dp) (src_extents operation) buf 0 ;;
  match rd with
  | None => ret (false, dp)
  | Some (buf, bytes_read) =>
      wr <- move_write fd (block_size_ dp) (dst_extents operation) buf 0 ;;
      match wr with
      | None => ret (false, dp)
      | Some bytes_written =>
          if negb (bytes_written =? bytes_read) then abort else            (* DCHECK_EQ *)
          if negb (bytes_written =? to_int64 (size_of buf)) then abort else (* DCHECK_EQ *)
          ret (true, dp)
      end
  end.

(** The tail-zeroing write of PerformBsdiffOperation: it computes end_byte
    and begin_byte and issues one positioned write of zeros. *)
Definition bsdiff_end_byte (last_extent : Extent) (block_size : Z) : Z :=
  wrap64 (wrap64 (start_block last_extent + num_blocks last_extent) * block_size).

Definition bsdiff_begin_byte (end_byte block_size dst_length : Z) : Z :=
  wrap64 (end_byte - wrap64 (block_size - dst_length mod block_size)).

Definition zero_tail (operation : InstallOperation) (fd : Z) (block_size : Z) : M bool :=
  if block_size =? 0 then abort else            (* dst_length % 0 *)
  if negb (dst_length operation mod block_size =? 0) then
    match rev (dst_extents operation) with
    | [] => abort                               (* dst_extents(-1) *)
    | last_extent :: _ =>
        let end_byte := bsdiff_end_byte last_extent block_size in
        let begin_byte := bsdiff_begin_byte end_byte block_size (dst_length operation) in
        let zeros := repeat x00 (Z.to_nat (wrap64 (end_byte - begin_byte))) in
        r <- call (PWriteAll fd zeros (wrap64 (end_byte - begin_byte)) begin_byte) ;;
        ret (r_ok r)
    end
  else ret true.

Definition PerformBsdiffOperation (operation : InstallOperation)
    (is_kernel_partition : bool) (dp : DeltaPerformer) : M (bool * DeltaPerformer) :=
  if negb (buffer_offset_ dp =? data_offset operation) then abort else      (* CHECK_EQ *)
  if negb (data_length operation <=? size_of (buffer_ dp)) then abort else  (* CHECK_GE *)
  match ExtentsToBsdiffPositionsString (src_extents operation) (block_size_ dp)
          (src_length operation) with
  | None => ret (false, dp)
  | Some input_positions =>
  match ExtentsToBsdiffPositionsString (dst_extents operation) (block_size_ dp)
          (dst_length operation) with
  | None => ret (false, dp)
  | Some output_positions =>
  r <- call (MakeTempFile "/tmp/au_patch.XXXXXX") ;;
  if negb (r_ok r) then ret (false, dp) else
  let temp_filename := r_str r in
  (* from here on ScopedPathUnlinker removes the file on every way out *)
  r <- call (OpenTemp temp_filename) ;;
  let tmp_fd := r_int r in
  r <- call (WriteAll tmp_fd (firstn (Z.to_nat (data_length operation)) (buffer_ dp))
               (data_length operation)) ;;
  _ <- (if 0 <=? tmp_fd then _ <- call (SysClose tmp_fd) ;; ret tt else ret tt) ;;
  if negb (r_ok r) then _ <- call (Unlink temp_filename) ;; ret (false, dp) else
  let fd := if is_kernel_partition then kernel_fd_ dp else fd_ dp in
  let path := if is_kernel_partition then kernel_path_ dp else path_ dp in
  let cmd := [kBspatchPath E; path; path; temp_filename;
              input_positions; output_positions] in
  r <- call (SynchronousExec cmd) ;;
  if negb (r_ok r) then _ <- call (Unlink temp_filename) ;; ret (false, dp) else
  if negb (r_int r =? 0) then _ <- call (Unlink temp_filename) ;; ret (false, dp) else
  ok <- zero_tail operation fd (block_size_ dp) ;;
  if negb ok then _ <- call (Unlink temp_filename) ;; ret (false, dp) else
  let dp := set_buffer_offset dp (wrap64 (buffer_offset_ dp + data_length operation)) in
  let dp := DiscardBufferHeadBytes (data_length operation) dp in
  _ <- call (Unlink temp_filename) ;;
  ret (true, dp)
  end
  end.

Definition total_operations (dp : DeltaPerformer) : Z :=
  size_of (install_operations (manifest_ dp))
  + size_of (kernel_install_operations (manifest_ dp)).

Definition default_operation : InstallOperation := mkOp REPLACE 0 0 [] 0 [] 0.

(** The operation next_operation_num_ designates. *)
Definition next_operation (dp : DeltaPerformer) : InstallOperation :=
  let n := next_operation_num_ dp in
  if n <? size_of (install_operations (manifest_ dp))
  then nth (Z.to_nat n) (install_operations (manifest_ dp)) default_operation
  else nth (Z.to_nat (n - size_of (install_operations (manifest_ dp))))
         (kernel_install_operations (manifest_ dp)) default_operation.

(** The if / else-if chain on op.type() in the loop of Write. *)
Definition perform_operation (op : InstallOperation) (is_kernel_partition : bool)
    (dp : DeltaPerformer) : M (bool * DeltaPerformer) :=
  match op_type op with
  | REPLACE | REPLACE_BZ => PerformReplaceOperation op is_kernel_partition dp
  | MOVE => PerformMoveOperation op is_kernel_partition dp
  | BSDIFF => PerformBsdiffOperation op is_kernel_partition dp
  end.

(** What precedes the dispatch in the loop body: the reset before a
    non-idempotent operation. *)
Definition pre_operation (op : InstallOperation) : M unit :=
  if negb (IsIdempotentOperation op) then
    _ <- set_exit_blocked true ;;
    _ <- ResetUpdateProgress ;;
    ret tt
  else ret tt.

(** What follows the dispatch in the loop body: a failed operation makes
    Write return -EINVAL; otherwise next_operation_num_ advances and the
    progress is checkpointed, whose result is dropped.  The
    ScopedTerminatorExitUnblocker declared in the body releases the
    Terminator when the body is left (modelled from the spec: the Terminator
    is released only after checkpoint completion; an exit requested
    meanwhile, which would end the process there, is outside this model). *)
Definition after_operation (r : bool * DeltaPerformer)
    : M (option Z * DeltaPerformer) :=
  let '(ok, dp) := r in
  if negb ok then
    _ <- set_exit_blocked false ;;
    ret (Some (- EINVAL), dp)
  else
    let dp := set_next_operation_num dp (next_operation_num_ dp + 1) in
    '(_, dp) <- CheckpointUpdateProgress dp ;;
    _ <- set_exit_blocked false ;;
    ret (None, dp).

(** One turn of the while loop of Write, past the CanPerformInstallOperation
    test.  [Some rv] is a return from Write; [None] goes round again. *)
Definition Write_iteration (op : InstallOperation) (dp : DeltaPerformer)
    : M (option Z * DeltaPerformer) :=
  let is_kernel_partition :=
    size_of (install_operations (manifest_ dp)) <=? next_operation_num_ dp in
  _ <- pre_operation op ;;
  r <- perform_operation op is_kernel_partition dp ;;
  after_operation r.

(** The while loop of Write.  Every turn advances next_operation_num_, so
    total_operations - next_operation_num_ turns are enough. *)
Fixpoint Write_loop (fuel : nat) (count : Z) (dp : DeltaPerformer)
    : M (Z * DeltaPerformer) :=
  if next_operation_num_ dp <? total_operations dp then
    let op := next_operation dp in
    if negb (CanPerformInstallOperation dp op) then ret (to_int64 count, dp)
    else
      match fuel with
      | O => fun _ => OutOfFuel
      | S fuel' =>
          '(rv, dp) <- Write_iteration op dp ;;
          match rv with
          | Some e => ret (e, dp)
          | None => Write_loop fuel' count dp
          end
      end
  else ret (to_int64 count, dp).

Definition loop_fuel (dp : DeltaPerformer) : nat :=
  Z.to_nat (total_operations dp - next_operation_num_ dp).

(** strlen(kDeltaMagic) + kDeltaVersionLength + kDeltaProtobufLengthLength *)
Definition header_size : Z :=
  Z.of_nat (String.length kDeltaMagic) + kDeltaVersionLength + kDeltaProtobufLengthLength.

(** be64toh over the 8 bytes copied out of the buffer *)
Definition be64 (bytes : list byte) : Z :=
  fold_left (fun acc b => acc * 256 + Z.of_N (Byte.to_N b)) bytes 0.

Definition read_protobuf_length (buffer : list byte) : Z :=
  be64 (firstn (Z.to_nat kDeltaProtobufLengthLength)
          (skipn (Z.to_nat (Z.of_nat (String.length kDeltaMagic) + kDeltaVersionLength))
             buffer)).

(** The manifest part of Write (the body of if (!manifest_valid_)). *)
Inductive ManifestStep :=
| NeedMoreData                          (* return count *)
| ParseError (dp : DeltaPerformer)      (* return -EINVAL *)
| Parsed (dp : DeltaPerformer).

Definition Write_manifest (dp : DeltaPerformer) : M ManifestStep :=
  if size_of (buffer_ dp) <? header_size then ret NeedMoreData else
  let protobuf_length := read_protobuf_length (buffer_ dp) in
  if size_of (buffer_ dp) <? wrap64 (header_size + protobuf_length)
  then ret NeedMoreData else
  let offset := header_size in
  let size := to_int32 protobuf_length in
  let '(ok, m) := ParseFromArray E
                    (firstn (Z.to_nat size) (skipn (Z.to_nat offset) (buffer_ dp)))
                    size in
  let dp := set_manifest dp m in
  if negb ok then ret (ParseError dp) else
  let dp := set_manifest_metadata_size dp (wrap64 (header_size + protobuf_length)) in
  let dp := DiscardBufferHeadBytes (manifest_metadata_size_ dp) dp in
  _ <- call (PrefsSetInt64 kPrefsManifestMetadataSize
               (to_int64 (manifest_metadata_size_ dp))) ;;
  let dp := set_manifest_valid dp true in
  let dp := set_block_size dp (block_size (manifest_ dp)) in
  ret (Parsed dp).

Definition Write (bytes : list byte) (dp : DeltaPerformer) : M (Z * DeltaPerformer) :=
  let count := size_of bytes in
  let dp := set_buffer dp (buffer_ dp ++ bytes) in
  if negb (manifest_valid_ dp) then
    st <- Write_manifest dp ;;
    match st with
    | NeedMoreData => ret (to_int64 count, dp)
    | ParseError dp => ret (- EINVAL, dp)
    | Parsed dp => Write_loop (loop_fuel dp) count dp
    end
  else Write_loop (loop_fuel dp) count dp.

Definition VerifyPayload (public_key_path update_check_response_hash : string)
    (update_check_response_size : Z) (dp : DeltaPerformer) : M bool :=
  let key_path :=
    if string_empty public_key_path then kUpdatePayloadPublicKeyPath
    else public_key_path in
  let download_hash_data := hc_hash (hash_calculator_ dp) in
  if string_empty download_hash_data then ret false else
  if negb (String.eqb download_hash_data update_check_response_hash) then ret false else
  if negb (update_check_response_size
             =? wrap64 (manifest_metadata_size_ dp + buffer_offset_ dp))
  then ret false else
  r <- call (FileExists key_path) ;;
  if negb (r_ok r) then ret true else
  match signatures_message_data_ dp with
  | [] => ret false
  | _ :: _ =>
      r <- call (VerifySignature (signatures_message_data_ dp) key_path) ;;
      if negb (r_ok r) then ret false else
      let signed_hash_data := r_bytes r in
      if negb (context_SetContext E (signed_hash_context_ dp)) then ret false else
      if negb (context_Finalize E (signed_hash_context_ dp)) then ret false else
      let hash_data := context_raw_hash E (signed_hash_context_ dp) in
      match hash_data with
      | [] => ret false
      | _ :: _ => ret (bytes_eqb hash_data signed_hash_data)
      end
  end.

(** The host feeds the payload chunk by chunk and gives up at the first
    negative return.  The result says whether every Write succeeded. *)
Fixpoint feed (chunks : list (list byte)) (dp : DeltaPerformer)
    : M (bool * DeltaPerformer) :=
  match chunks with
  | [] => ret (true, dp)
  | chunk :: rest =>
      '(rv, dp) <- Write chunk dp ;;
      if rv <? 0 then ret (false, dp) else feed rest dp
  end.

(** A host that keeps feeding whatever Write returns. *)
Fixpoint feed_all (chunks : list (list byte)) (dp : DeltaPerformer)
    : M (bool * DeltaPerformer) :=
  match chunks with
  | [] => ret (true, dp)
  | chunk :: rest =>
      '(rv, dp) <- Write chunk dp ;;
      '(ok, dp) <- feed_all rest dp ;;
      ret (andb (0 <=? rv) ok, dp)
  end.

End Performer.

Arguments read_protobuf_length : simpl never.
Arguments header_size : simpl never.
Arguments ret {E A} a.
Arguments bind {E A B} m k.
Arguments abort {E A}.
Arguments world {E} s.
Arguments exit_blocked {E} s.
Arguments trace {E} s.
Arguments mkSys {E} world exit_blocked trace.

(** ** Resuming: CanResumeUpdate

    PrefsInterface as CanResumeUpdate uses it: the two getters, [None]
    being a return of false.  The function is static and only reads. *)
Record PrefsReader := mkPrefs {
  GetInt64 : string -> option Z;
  GetString : string -> option string
}.

(** Modelled from the spec: the key of the stored update-check response
    hash (prefs_constants). *)
Definition kPrefsUpdateCheckResponseHash : string := "update-check-response-hash".

Definition CanResumeUpdate (prefs : PrefsReader) (update_check_response_hash : string)
    : bool :=
  match GetInt64 prefs kPrefsUpdateStateNextOperation with
  | None => false
  | Some next_operation =>
  if negb (negb (next_operation =? kUpdateStateOperationInvalid)
           && (0 <? next_operation)) then false else
  match GetString prefs kPrefsUpdateCheckResponseHash with
  | None => false
  | Some interrupted_hash =>
  if negb (negb (string_empty interrupted_hash)
           && String.eqb interrupted_hash update_check_response_hash) then false else
  match GetInt64 prefs kPrefsUpdateStateNextDataOffset with
  | None => false
  | Some next_data_offset =>
  if negb (0 <=? next_data_offset) then false else
  match GetString prefs kPrefsUpdateStateSHA256Context with
  | None => false
  | Some sha256_context =>
  if string_empty sha256_context then false else
  match GetInt64 prefs kPrefsManifestMetadataSize with
  | None => false
  | Some manifest_metadata_size => 0 <? manifest_metadata_size
  end
  end
  end
  end
  end.

(** ** A small concrete environment

    A stand-in for the outside world, used to run the applier on concrete
    payloads: one block device (a byte array that cannot grow), a preference
    store that can be switched to refuse every write, extent writers and a
    patch tool that always succeed, and a manifest parser that recognises a
    few one-byte manifests. *)

Module Sample.

Record TestWorld := mkTW {
  tw_disk : list byte;
  tw_prefs : list (string * Z);
  tw_prefs_writable : bool
}.

Definition ok_response : Response := mkResponse true 0 0 [] ""%string.
Definition failed_response : Response := mkResponse false (-1) 5 [] ""%string.

Definition test_handle (w : TestWorld) (c : Call) : Response * TestWorld :=
  match c with
  | PrefsSetInt64 key v =>
      if tw_prefs_writable w
      then (ok_response, mkTW (tw_disk w) ((key, v) :: tw_prefs w) true)
      else (failed_response, w)
  | PrefsSetString key v =>
      if tw_prefs_writable w then (ok_response, w) else (failed_response, w)
  | PReadAll fd count offset =>
      if offset + count <=? size_of (tw_disk w)
      then (mkResponse true count 0
              (firstn (Z.to_nat count) (skipn (Z.to_nat offset) (tw_disk w))) ""%string, w)
      else (failed_response, w)
  | PWriteAll fd data count offset =>
      if offset + count <=? size_of (tw_disk w)
      then (ok_response,
            mkTW (firstn (Z.to_nat offset) (tw_disk w) ++ data
                    ++ skipn (Z.to_nat (offset + count)) (tw_disk w))
              (tw_prefs w) (tw_prefs_writable w))
      else (failed_response, w)
  | SysOpen path => (mkResponse true 3 0 [] ""%string, w)
  | OpenTemp path => (mkResponse true 4 0 [] ""%string, w)
  | MakeTempFile template => (mkResponse true 0 0 [] "/tmp/au_patch.000001"%string, w)
  | FileExists path => (failed_response, w)
  | _ => (ok_response, w)
  end.

(** MOVE whose last destination extent lies beyond the device. *)
Definition move_manifest : DeltaArchiveManifest :=
  mkManifest
    [mkOp MOVE 0 0 [mkExtent 0 1; mkExtent 1 1; mkExtent 2 1] 0
       [mkExtent 1 1; mkExtent 0 1; mkExtent 9 1] 0]
    [] 1 None None.

(** Two REPLACE operations; the second one's data starts inside the first
    one's. *)
Definition regress_manifest : DeltaArchiveManifest :=
  mkManifest
    [mkOp REPLACE 0 4 [] 0 [mkExtent 0 1] 0;
     mkOp REPLACE 2 4 [] 0 [mkExtent 1 1] 0]
    [] 4096 None None.

(** One REPLACE of four bytes. *)
Definition replace_manifest : DeltaArchiveManifest :=
  mkManifest [mkOp REPLACE 0 4 [] 0 [mkExtent 0 1] 0] [] 4096 None None.

(** One BSDIFF with an unaligned destination length. *)
Definition bsdiff_manifest : DeltaArchiveManifest :=
  mkManifest
    [mkOp BSDIFF 0 2 [mkExtent 0 1] 4096 [mkExtent 20 3] (4096 * 3 - 100)]
    [] 4096 None None.

Definition test_parse (data : list byte) (size : Z) : bool * DeltaArchiveManifest :=
  match data with
  | [x01] => (true, move_manifest)
  | [x02] => (true, regress_manifest)
  | [x03] => (true, replace_manifest)
  | [x04] => (true, bsdiff_manifest)
  | _ => (false, empty_manifest)
  end.

Definition test_env : Env :=
  mkEnv TestWorld test_handle test_parse
    (fun bytes => string_of_list_byte bytes)
    (fun bytes => String "h" (string_of_list_byte bytes))
    (fun ctx => true) (fun ctx => true) (fun ctx => list_byte_of_string ctx)
    "/usr/bin/bspatch"%string 32.

Definition test_sys (disk : list byte) (prefs_writable : bool) : Sys test_env :=
  mkSys (E := test_env) (mkTW disk [] prefs_writable) false [].

(** MAGIC, VERSION and a PROTOBUF_LENGTH of one, then the one-byte manifest. *)
Definition header (magic : list byte) (manifest : byte) : list byte :=
  magic ++ [x00; x00; x00; x00; x00; x00; x00; x01]
        ++ [x00; x00; x00; x00; x00; x00; x00; x01] ++ [manifest].

Definition good_magic : list byte := list_byte_of_string kDeltaMagic.
Definition bad_magic : list byte := [x58; x58; x58; x58].      (* XXXX *)

(** A small BSDIFF on 8-byte blocks: five bytes go to block 2. *)
Definition small_bsdiff : InstallOperation :=
  mkOp BSDIFF 0 0 [mkExtent 0 1] 8 [mkExtent 2 1] 5.

(** The same with a sparse hole of two blocks as its last destination
    extent. *)
Definition sparse_bsdiff : InstallOperation :=
  mkOp BSDIFF 0 0 [mkExtent 0 1] 8 [mkExtent kSparseHole 2] 5.

Definition small_applier : DeltaPerformer :=
  set_block_size (set_manifest_valid new_DeltaPerformer true) 8.

Definition small_disk : list byte := repeat xff 24.

Definition version_and_length : list byte :=
  [x00; x00; x00; x00; x00; x00; x00; x01] ++ [x00; x00; x00; x00; x00; x00; x00; x01].

(** A payload with one REPLACE of four bytes and one byte to spare. *)
Definition replace_payload (magic : list byte) : list byte :=
  header magic x03 ++ [x0a; x0b; x0c; x0d; x0e].

(** A payload whose second operation reaches back into consumed data. *)
Definition regress_payload : list byte :=
  header good_magic x02 ++ [x0a; x0b; x0c; x0d; x0e; x0f; x10; x11].

(** A payload whose MOVE fails at its last destination extent, and one
    more byte. *)
Definition move_payload : list byte := header good_magic x01 ++ [x0a].

Definition move_chunks : list (list byte) := [header good_magic x01; [x0a]].

Definition abc_disk : list byte := [x61; x62; x63].

(** One REPLACE of four bytes that end at 2^32 + 2, and an applier that has
    consumed the stream up to the start of them. *)
Definition wrapping_manifest : DeltaArchiveManifest :=
  mkManifest [mkOp REPLACE (2 ^ 32 - 2) 4 [] 0 [mkExtent 0 1] 0] [] 4096 None None.

Definition wrapping_applier : DeltaPerformer :=
  set_buffer_offset
    (set_manifest (set_manifest_valid new_DeltaPerformer true) wrapping_manifest)
    (2 ^ 32 - 2).

End Sample.

(** ** Vocabulary for the properties *)

Section Vocabulary.

Variable E : Env.

(** Weakest precondition for partial correctness: if the computation
    returns, the result and the final system satisfy [Q]. *)
Definition wp {A} (m : M E A) (Q : A -> Sys E -> Prop) (y : Sys E) : Prop :=
  match m y with
  | Done a y' => Q a y'
  | Aborted _ => True
  | OutOfFuel => True
  end.

(** The same, with the events the computation adds to the trace. *)
Definition wpt {A} (m : M E A) (Q : A -> list Event -> Sys E -> Prop) (y : Sys E)
    : Prop :=
  match m y with
  | Done a y' => exists events, trace y' = trace y ++ events /\ Q a events y'
  | Aborted _ => True
  | OutOfFuel => True
  end.

(** The public surface of the applier, as a host may call it. *)
Inductive ApiCall :=
| CallOpen (path : string)
| CallOpenKernel (kernel_path : string)
| CallWrite (bytes : list byte)
| CallClose
| CallVerifyPayload (public_key_path response_hash : string) (response_size : Z).

Definition api_call (c : ApiCall) (dp : DeltaPerformer) : M E DeltaPerformer :=
  match c with
  | CallOpen path => bind (Open E path dp) (fun r => ret (snd r))
  | CallOpenKernel path => bind (OpenKernel E path dp) (fun r => ret (snd r))
  | CallWrite bytes => bind (Write E bytes dp) (fun r => ret (snd r))
  | CallClose => bind (Close E dp) (fun r => ret (snd r))
  | CallVerifyPayload key hash size =>
      bind (VerifyPayload E key hash size dp) (fun _ => ret dp)
  end.

Fixpoint api_calls (cs : list ApiCall) (dp : DeltaPerformer) : M E DeltaPerformer :=
  match cs with
  | [] => ret dp
  | c :: rest => bind (api_call c dp) (fun dp => api_calls rest dp)
  end.

(** The system after one more external call was answered. *)
Definition answered (y : Sys E) (c : Call) : Sys E :=
  mkSys (snd (handle E (world y) c)) (exit_blocked y)
    (trace y ++ [EvCall c (fst (handle E (world y) c))]).

Definition answer (y : Sys E) (c : Call) : Response := fst (handle E (world y) c).

(** The path VerifyPayload looks the public key up at. *)
Definition effective_key_path (public_key_path : string) : string :=
  if string_empty public_key_path then kUpdatePayloadPublicKeyPath
  else public_key_path.

Definition is_PWriteAll (c : Call) : bool :=
  match c with
  | PWriteAll _ _ _ _ => true
  | _ => false
  end.

(** The descriptors and paths of two applier states agree. *)
Definition same_files (dp dp' : DeltaPerformer) : Prop :=
  fd_ dp' = fd_ dp /\ kernel_fd_ dp' = kernel_fd_ dp
  /\ path_ dp' = path_ dp /\ kernel_path_ dp' = kernel_path_ dp.

Definition no_PWriteAll (events : list Event) : Prop :=
  forall c r, In (EvCall c r) events -> is_PWriteAll c = false.

(** The positioned write that zeroes the rest of the final block. *)
Definition tail_zero_call (dst_length fd block_size : Z) (last_extent : Extent) : Call :=
  let end_byte := bsdiff_end_byte last_extent block_size in
  let begin_byte := bsdiff_begin_byte end_byte block_size dst_length in
  PWriteAll fd (repeat x00 (Z.to_nat (wrap64 (end_byte - begin_byte))))
    (wrap64 (end_byte - begin_byte)) begin_byte.

(** What PerformBsdiffOperation may add to the trace: either the patch tool
    did not run to success and nothing is written to the device, or it did,
    and the only positioned write is the tail zeroing, right after it and
    only for an unaligned dst_length. *)
Definition patch_succeeded (e : Event) : Prop :=
  match e with
  | EvCall (SynchronousExec _) r => r_ok r = true /\ r_int r = 0
  | _ => False
  end.

Definition bsdiff_trace (dst_extents : list Extent) (dst_length fd block_size : Z)
    (events : list Event) : Prop :=
  (no_PWriteAll events /\ forall e, In e events -> ~ patch_succeeded e)
  \/ (exists before cmd rx tail after,
        events = before ++ EvCall (SynchronousExec cmd) rx :: tail ++ after
        /\ r_ok rx = true /\ r_int rx = 0
        /\ no_PWriteAll before /\ no_PWriteAll after
        /\ block_size <> 0
        /\ ((dst_length mod block_size = 0 /\ tail = [])
            \/ (dst_length mod block_size <> 0
                /\ exists front last_extent r,
                     dst_extents = front ++ [last_extent]
                     /\ tail = [EvCall (tail_zero_call dst_length fd block_size
                                          last_extent) r]))).

(** What the manifest step of Write decided: nothing yet, or whether the
    protobuf parsed, the manifest it left and the metadata size. *)
Definition manifest_outcome (st : ManifestStep) : option (bool * DeltaArchiveManifest * Z) :=
  match st with
  | NeedMoreData => None
  | ParseError dp => Some (false, manifest_ dp, manifest_metadata_size_ dp)
  | Parsed dp => Some (manifest_valid_ dp, manifest_ dp, manifest_metadata_size_ dp)
  end.

(** The parser only produces manifests with unsigned byte counts. *)
Definition parser_wf : Prop :=
  forall data size, wf_manifest (snd (ParseFromArray E data size)).

(** [dp'] is [dp] after [n] more bytes left the head of the buffer for the
    hash and [k] more operations were completed. *)
Definition consumed (n : nat) (k : Z) (dp dp' : DeltaPerformer) : Prop :=
  (n <= List.length (buffer_ dp))%nat
  /\ buffer_ dp' = skipn n (buffer_ dp)
  /\ hc_bytes (hash_calculator_ dp')
     = hc_bytes (hash_calculator_ dp) ++ firstn n (buffer_ dp)
  /\ buffer_offset_ dp' = buffer_offset_ dp + Z.of_nat n
  /\ next_operation_num_ dp' = next_operation_num_ dp + k
  /\ manifest_ dp' = manifest_ dp
  /\ manifest_valid_ dp' = manifest_valid_ dp
  /\ manifest_metadata_size_ dp' = manifest_metadata_size_ dp.

(** The buffer offset is sound and offsets up to the end of the buffer fit
    64 bits. *)
Definition in_range (dp : DeltaPerformer) : Prop :=
  0 <= buffer_offset_ dp
  /\ buffer_offset_ dp + size_of (buffer_ dp) < two64
  /\ wf_manifest (manifest_ dp).

(** A result seen from an applier that holds [extra] more bytes. *)
Definition with_extra {A} (extra : list byte) (r : Res (Sys E) (A * DeltaPerformer))
    : Res (Sys E) (A * DeltaPerformer) :=
  match r with
  | Done (a, dp) y => Done (a, set_buffer dp (buffer_ dp ++ extra)) y
  | Aborted y => Aborted y
  | OutOfFuel => OutOfFuel
  end.

(** An applier with [extra] appended to its buffer. *)
Definition append_buffer (dp : DeltaPerformer) (extra : list byte) : DeltaPerformer :=
  set_buffer dp (buffer_ dp ++ extra).

(** What Write does with the buffer once the new bytes are in it; the
    return value is 0 where Write returns the byte count. *)
Definition absorb (dp : DeltaPerformer) : M E (Z * DeltaPerformer) :=
  if negb (manifest_valid_ dp) then
    bind (Write_manifest E dp)
      (fun st =>
         match st with
         | NeedMoreData => ret (0, dp)
         | ParseError dp => ret (- EINVAL, dp)
         | Parsed dp => Write_loop E (loop_fuel dp) 0 dp
         end)
  else Write_loop E (loop_fuel dp) 0 dp.

(** The return value of Write, from that of [absorb]. *)
Definition returning (count : Z) (r : Res (Sys E) (Z * DeltaPerformer))
    : Res (Sys E) (Z * DeltaPerformer) :=
  match r with
  | Done (rv, dp) y => Done (if rv =? 0 then to_int64 count else rv, dp) y
  | Aborted y => Aborted y
  | OutOfFuel => OutOfFuel
  end.

(** How a run over more data relates to a run [r] over less: where the
    shorter run stopped for lack of data the longer one goes on from there;
    where it failed or died, so does the longer one, at the same point. *)
Definition continues (extra : list byte)
    (more : DeltaPerformer -> M E (Z * DeltaPerformer))
    (r longer : Res (Sys E) (Z * DeltaPerformer)) : Prop :=
  match r with
  | Done (rv, dp) y =>
      if rv =? 0 then longer = more (append_buffer dp extra) y
      else longer = Done (rv, append_buffer dp extra) y
  | Aborted y => longer = Aborted y
  | OutOfFuel => longer = OutOfFuel
  end.

(** The computation returns or dies; it does not run out of fuel. *)
Definition fueled {A} (m : M E A) (y : Sys E) : Prop := m y <> OutOfFuel.

(** The end of the operation's data blob, data_offset + data_length, does
    not wrap in the type it is computed in. *)
Definition blob_end_fits (op : InstallOperation) : Prop :=
  0 <= data_offset op + data_length op < 2 ^ blob_end_bits E.

Definition blob_ends_fit (m : DeltaArchiveManifest) : Prop :=
  Forall blob_end_fits (install_operations m)
  /\ Forall blob_end_fits (kernel_install_operations m).

(** The parser only produces manifests whose blob ends do not wrap. *)
Definition parser_fits : Prop :=
  forall data size, blob_ends_fit (snd (ParseFromArray E data size)).

(** The applier has room for [extra] more bytes: offsets stay below 2^63. *)
Definition fits (dp : DeltaPerformer) (extra : list byte) : Prop :=
  0 <= buffer_offset_ dp
  /\ buffer_offset_ dp + size_of (buffer_ dp) + size_of extra < two63
  /\ wf_manifest (manifest_ dp).

(** A single Write of the whole payload against a chunked feed that stops
    at the first error: both return or both die, in the same system; they
    succeed together, and then the applier is the same; after an error the
    applier of the single Write is that of the feed with the bytes not yet
    fed appended to its buffer. *)
Definition chunking_agrees (one_shot : Res (Sys E) (Z * DeltaPerformer))
    (chunked : Res (Sys E) (bool * DeltaPerformer)) : Prop :=
  match one_shot, chunked with
  | Done (rv, dp1) y1, Done (ok, dp2) y2 =>
      y1 = y2 /\ ok = (0 <=? rv)
      /\ (if ok then dp1 = dp2
          else rv = - EINVAL /\ exists unfed, dp1 = append_buffer dp2 unfed)
  | Aborted y1, Aborted y2 => y1 = y2
  | _, _ => False
  end.

(** The hash-coverage invariant: every byte received so far is either
    hashed or still in the buffer, in stream order, and the hashed part is
    manifest_metadata_size_ + buffer_offset_ bytes long. *)
Definition hash_covers (stream : list byte) (dp : DeltaPerformer) : Prop :=
  hc_bytes (hash_calculator_ dp) ++ buffer_ dp = stream
  /\ size_of (hc_bytes (hash_calculator_ dp))
     = manifest_metadata_size_ dp + buffer_offset_ dp
  /\ 0 <= manifest_metadata_size_ dp
  /\ 0 <= buffer_offset_ dp
  /\ (manifest_valid_ dp = false -> manifest_metadata_size_ dp = 0)
  /\ wf_manifest (manifest_ dp).

End Vocabulary.

Arguments wp {E A} m Q y.
Arguments wpt {E A} m Q y.
Arguments answered {E} y c.
Arguments answer {E} y c.
Arguments with_extra {E A} extra r.
Arguments fueled {E A} m y.
Arguments chunking_agrees {E} one_shot chunked.
Arguments returning {E} count r.
Arguments continues {E} extra more r longer.

(** ** Vocabulary for the operations, the store and the descriptors *)

Section Observations.

Variable E : Env.

(** Like [wp], with a condition of its own for a run in which the process
    dies. *)
Definition wpa {A} (m : M E A) (Q : A -> Sys E -> Prop) (Qa : Sys E -> Prop)
    (y : Sys E) : Prop :=
  match m y with
  | Done a y' => Q a y'
  | Aborted y' => Qa y'
  | OutOfFuel => True
  end.

(** The system once the ScopedTerminatorExitUnblocker of the loop body of
    Write has released the Terminator. *)
Definition released (y : Sys E) : Sys E :=
  mkSys (world y) false (trace y ++ [EvExitBlocked false]).

(** Calls that write the next-operation key of the preference store. *)
Definition writes_next_operation (c : Call) : bool :=
  match c with
  | PrefsSetInt64 key _ => String.eqb key kPrefsUpdateStateNextOperation
  | _ => false
  end.

(** What the applier relies on in the preference store behind the
    environment, for its 64-bit values: a write that succeeded is read back,
    and a call other than a write of a key leaves what the key reads. *)
Definition int64_store (prefs_of : World E -> PrefsReader) : Prop :=
  (forall w key v,
      r_ok (fst (handle E w (PrefsSetInt64 key v))) = true ->
      GetInt64 (prefs_of (snd (handle E w (PrefsSetInt64 key v)))) key = Some v)
  /\ (forall w c key,
         (forall v, c <> PrefsSetInt64 key v) ->
         GetInt64 (prefs_of (snd (handle E w c))) key = GetInt64 (prefs_of w) key).

(** The store reads the invalid operation number. *)
Definition progress_invalid (prefs_of : World E -> PrefsReader) (y : Sys E) : Prop :=
  GetInt64 (prefs_of (world y)) kPrefsUpdateStateNextOperation
  = Some kUpdateStateOperationInvalid.

(** The call of an event, if it is one. *)
Definition event_call (e : Event) : option Call :=
  match e with
  | EvCall c _ => Some c
  | EvExitBlocked _ => None
  end.

Definition reset_call : Call :=
  PrefsSetInt64 kPrefsUpdateStateNextOperation kUpdateStateOperationInvalid.

(** The preference writes of a checkpoint that runs to its end, in order:
    if the buffer offset moved since the last checkpoint, the operation
    number is invalidated and the hash context and the offset are saved;
    the operation number comes last. *)
Definition checkpoint_calls (dp : DeltaPerformer) : list Call :=
  (if last_updated_buffer_offset_ dp =? buffer_offset_ dp then []
   else [reset_call;
         PrefsSetString kPrefsUpdateStateSHA256Context
           (Hash_GetContext E (hash_calculator_ dp));
         PrefsSetInt64 kPrefsUpdateStateNextDataOffset (to_int64 (buffer_offset_ dp))])
  ++ [PrefsSetInt64 kPrefsUpdateStateNextOperation (next_operation_num_ dp)].

(** A write that succeeded, or the invalidating write, whose result the
    checkpoint does not look at. *)
Definition reset_or_ok (e : Event) : Prop :=
  match e with
  | EvCall c r => c = reset_call \/ r_ok r = true
  | EvExitBlocked _ => False
  end.

(** A computation that leaves the store reading the invalid number,
    however it ends. *)
Definition keeps_invalid (prefs_of : World E -> PrefsReader) {A} (m : M E A) : Prop :=
  forall y, progress_invalid prefs_of y ->
    wpa m (fun _ y' => progress_invalid prefs_of y') (progress_invalid prefs_of) y.

End Observations.

Arguments wpa {E A} m Q Qa y.
Arguments released {E} y.
Arguments int64_store E prefs_of : clear implicits.
Arguments progress_invalid {E} prefs_of y.
Arguments keeps_invalid {E} prefs_of {A} m.

(** What a parsed manifest fixed in the applier: descriptors and paths,
    the manifest, its validity and metadata size, and the block size. *)
Definition same_setup (dp dp' : DeltaPerformer) : Prop :=
  same_files dp dp'
  /\ manifest_ dp' = manifest_ dp
  /\ manifest_valid_ dp' = manifest_valid_ dp
  /\ manifest_metadata_size_ dp' = manifest_metadata_size_ dp
  /\ block_size_ dp' = block_size_ dp.

(** The loop of Write, turn by turn: from [dp] in [y], turns of operations
    that could be performed and returned true lead to the applier and the
    system of the last two arguments. *)
Inductive loop_reaches (E : Env)
    : DeltaPerformer -> Sys E -> DeltaPerformer -> Sys E -> Prop :=
| reaches_here dp y : loop_reaches E dp y dp y
| reaches_turn dp y d1 y1 d z :
    next_operation_num_ dp < total_operations dp ->
    CanPerformInstallOperation E dp (next_operation dp) = true ->
    Write_iteration E (next_operation dp) dp y = Done (None, d1) y1 ->
    loop_reaches E d1 y1 d z ->
    loop_reaches E dp y d z.

(** Where the loop of Write starts: with the new bytes in the buffer, and
    after the manifest step if the manifest was not valid yet. *)
Definition loop_entry (E : Env) (bytes : list byte) (dp : DeltaPerformer) (y : Sys E)
    (d0 : DeltaPerformer) (y0 : Sys E) : Prop :=
  if manifest_valid_ dp then d0 = append_buffer dp bytes /\ y0 = y
  else Write_manifest E (append_buffer dp bytes) y = Done (Parsed d0) y0.

(** Nothing is left that Write could do with the bytes it holds: the
    manifest is not parsed and the buffer is too short for it (shorter than
    the header, or than the header and the protobuf it announces); or the
    manifest is parsed and every operation is done or the next one cannot be
    performed yet. *)
Definition nothing_to_do (E : Env) (dp : DeltaPerformer) : Prop :=
  (manifest_valid_ dp = false
   /\ (size_of (buffer_ dp) < header_size
       \/ size_of (buffer_ dp)
          < wrap64 (header_size + read_protobuf_length (buffer_ dp))))
  \/ (manifest_valid_ dp = true
      /\ (total_operations dp <= next_operation_num_ dp
          \/ CanPerformInstallOperation E dp (next_operation dp) = false)).

(** The operation carries the signature message and the applier is ready to
    take it: the tests of ExtractSignatureMessage. *)
Definition carries_signature (operation : InstallOperation) (dp : DeltaPerformer) : Prop :=
  op_type operation = REPLACE
  /\ signatures_offset (manifest_ dp) = Some (data_offset operation)
  /\ signatures_size (manifest_ dp) = Some (data_length operation)
  /\ signatures_message_data_ dp = []
  /\ buffer_offset_ dp = data_offset operation
  /\ data_length operation <= size_of (buffer_ dp).

(** The extent-writer calls of a replace operation that runs to its end:
    the writer of the operation's type is set up over the destination
    extents on the descriptor of the partition, is given the blob at the head
    of the buffer, and is ended. *)
Definition replace_calls (operation : InstallOperation) (is_kernel_partition : bool)
    (dp : DeltaPerformer) : list Call :=
  [WriterInit (match op_type operation with
               | REPLACE => ZeroPadDirect
               | _ => BzipZeroPadDirect
               end)
     (if is_kernel_partition then kernel_fd_ dp else fd_ dp)
     (dst_extents operation) (block_size_ dp);
   WriterWrite (firstn (Z.to_nat (data_length operation)) (buffer_ dp))
     (data_length operation);
   WriterEnd].

(** An external call that reported success. *)
Definition response_ok (e : Event) : Prop :=
  match e with
  | EvCall _ r => r_ok r = true
  | EvExitBlocked _ => False
  end.

(** The positioned reads of a move over its source extents. *)
Definition read_calls (fd block_size : Z) (extents : list Extent) : list Call :=
  map (fun e => PReadAll fd (wrap64 (num_blocks e * block_size))
                  (wrap64 (start_block e * block_size)))
    extents.

(** Where a positioned write goes: descriptor, byte count and offset. *)
Definition write_target (e : Event) : option (Z * Z * Z) :=
  match e with
  | EvCall (PWriteAll fd _ count offset) _ => Some (fd, count, offset)
  | _ => None
  end.

(** Where the positioned writes of a move go, over its destination
    extents. *)
Definition write_targets (fd block_size : Z) (extents : list Extent)
    : list (Z * Z * Z) :=
  map (fun e => (fd, wrap64 (num_blocks e * block_size),
                 wrap64 (start_block e * block_size)))
    extents.

(** A positioned read that succeeded and delivered as many bytes as were
    asked for. *)
Definition read_complete (e : Event) : Prop :=
  match e with
  | EvCall (PReadAll _ count _) r => r_ok r = true /\ r_int r = to_int64 count
  | _ => False
  end.

(** PReadAll stored as many bytes as it reports. *)
Definition read_sized (e : Event) : Prop :=
  match e with
  | EvCall (PReadAll _ _ _) r => size_of (r_bytes r) = r_int r
  | _ => True
  end.

Definition bytes_read (e : Event) : list byte :=
  match e with
  | EvCall (PReadAll _ _ _) r => r_bytes r
  | _ => []
  end.

Definition bytes_written (e : Event) : list byte :=
  match e with
  | EvCall (PWriteAll _ data _ _) _ => data
  | _ => []
  end.

(** The descriptor a device call works on.  The temporary file of a patch
    is no device. *)
Definition device_fd (c : Call) : option Z :=
  match c with
  | WriterInit _ fd _ _ => Some fd
  | PReadAll fd _ _ => Some fd
  | PWriteAll fd _ _ _ => Some fd
  | _ => None
  end.

(** The old and the new file of a patch command. *)
Definition patched_paths (c : Call) : list string :=
  match c with
  | SynchronousExec (_ :: old_file :: new_file :: _) => [old_file; new_file]
  | _ => []
  end.

(** An event that touches no device but the one behind [fd] and [path]. *)
Definition on_partition (fd : Z) (path : string) (e : Event) : Prop :=
  match e with
  | EvCall c _ =>
      (forall fd', device_fd c = Some fd' -> fd' = fd)
      /\ (forall p, In p (patched_paths c) -> p = path)
  | EvExitBlocked _ => True
  end.

(** The preference store of the small environment, read back. *)
Fixpoint lookup_int64 (key : string) (prefs : list (string * Z)) : option Z :=
  match prefs with
  | [] => None
  | (k, v) :: rest => if String.eqb k key then Some v else lookup_int64 key rest
  end.

Definition sample_prefs (w : Sample.TestWorld) : PrefsReader :=
  mkPrefs (fun key => lookup_int64 key (Sample.tw_prefs w)) (fun _ => None).

(** The small environment with a public key in place: every file exists,
    and a signature verifies to the bytes it is made of. *)
(** The store an interrupted update left behind, which now refuses every
    write: operation 5 is the next one, and the strings an earlier
    checkpoint saved are there. *)
Definition interrupted_store : list (string * Z) :=
  [(kPrefsUpdateStateNextOperation, 5);
   (kPrefsUpdateStateNextDataOffset, 0);
   (kPrefsManifestMetadataSize, 21)].

Definition interrupted_prefs (w : Sample.TestWorld) : PrefsReader :=
  mkPrefs (fun key => lookup_int64 key (Sample.tw_prefs w))
    (fun key =>
       if String.eqb key kPrefsUpdateCheckResponseHash then Some "hash"%string
       else if String.eqb key kPrefsUpdateStateSHA256Context then Some "context"%string
       else None).

Definition refusing_sys : Sys Sample.test_env :=
  mkSys (E := Sample.test_env)
    (Sample.mkTW Sample.small_disk interrupted_store false) false [].

Definition keyed_handle (w : Sample.TestWorld) (c : Call)
    : Response * Sample.TestWorld :=
  match c with
  | FileExists _ => (Sample.ok_response, w)
  | VerifySignature signature _ => (mkResponse true 0 0 signature ""%string, w)
  | _ => Sample.test_handle w c
  end.

Definition keyed_env : Env :=
  mkEnv Sample.TestWorld keyed_handle Sample.test_parse
    (fun bytes => string_of_list_byte bytes)
    (fun bytes => String "h" (string_of_list_byte bytes))
    (fun ctx => true) (fun ctx => true) (fun ctx => list_byte_of_string ctx)
    "/usr/bin/bspatch"%string 32.

Definition keyed_sys : Sys keyed_env :=
  mkSys (E := keyed_env) (Sample.mkTW [] [] true) false [].

(** An applier that has hashed a payload and holds its signature. *)
Definition signed_applier : DeltaPerformer :=
  set_signed_hash_context
    (set_signatures_message_data
       (set_hash_calculator new_DeltaPerformer (mkHash [] "habc"))
       [x63; x74; x78])
    "ctx".

(** * Properties *)

(** ** Machine arithmetic *)

Lemma two64_eq : two64 = 18446744073709551616.
Proof. reflexivity. Qed.

Lemma two63_eq : two63 = 9223372036854775808.
Proof. reflexivity. Qed.

Lemma wrap64_range z : 0 <= wrap64 z < two64.
Proof. unfold wrap64. apply Z.mod_pos_bound. rewrite two64_eq. lia. Qed.

Lemma wrap64_small z : 0 <= z < two64 -> wrap64 z = z.
Proof. intros H. unfold wrap64. now apply Z.mod_small. Qed.

Lemma wrap64_idem z : wrap64 (wrap64 z) = wrap64 z.
Proof. apply wrap64_small, wrap64_range. Qed.

Lemma to_int64_small z : - two63 <= z < two63 -> to_int64 z = z.
Proof.
  intros H. unfold to_int64. rewrite Z.mod_small; [lia|].
  rewrite two64_eq, two63_eq in *. lia.
Qed.

Lemma to_int64_wrap64 z : to_int64 (wrap64 z) = to_int64 z.
Proof.
  unfold to_int64, wrap64.
  rewrite Zplus_mod_idemp_l. reflexivity.
Qed.

Lemma wrap64_to_int64 z : wrap64 (to_int64 z) = wrap64 z.
Proof.
  unfold to_int64, wrap64.
  rewrite Zminus_mod_idemp_l.
  replace (z + two63 - two63) with z by lia. reflexivity.
Qed.

Lemma wrap64_mul_l a b : wrap64 (wrap64 a * b) = wrap64 (a * b).
Proof. unfold wrap64. apply Zmult_mod_idemp_l. Qed.

Lemma to_int64_sparse z :
  uint64 z -> (to_int64 z =? to_int64 kSparseHole) = (z =? kSparseHole).
Proof.
  intros [H0 H1]. unfold kSparseHole.
  replace (to_int64 (two64 - 1)) with (-1) by reflexivity.
  destruct (Z.eqb_spec z (two64 - 1)) as [->|Hne].
  - reflexivity.
  - apply Z.eqb_neq. intros Heq.
    assert (Hw : wrap64 (to_int64 z) = wrap64 (-1)) by (f_equal; exact Heq).
    rewrite wrap64_to_int64, wrap64_small in Hw by (split; assumption).
    change (wrap64 (-1)) with (two64 - 1) in Hw. contradiction.
Qed.

(** ** Strings *)

Lemma last_char_app s c t :
  last_char (s ++ String c t) = last_char (String c t).
Proof.
  induction s as [|a s IH]; [reflexivity|].
  simpl (String a s ++ _)%string.
  change (last_char (String a (s ++ String c t)))
    with (match (s ++ String c t)%string with
          | EmptyString => Some a
          | String _ _ => last_char (s ++ String c t)
          end).
  destruct (s ++ String c t)%string eqn:Hs.
  - destruct s; discriminate.
  - exact IH.
Qed.

Lemma string_app_assoc (a b c : string) : ((a ++ b) ++ c = a ++ (b ++ c))%string.
Proof. induction a as [|x a IH]; simpl; [reflexivity | now rewrite IH]. Qed.

Lemma string_app_nil_r (a : string) : (a ++ "")%string = a.
Proof. induction a as [|x a IH]; simpl; [reflexivity | now rewrite IH]. Qed.

Lemma drop_last_char_app s c :
  drop_last_char (s ++ String c "") = s.
Proof.
  induction s as [|a s IH]; [reflexivity|].
  simpl (String a s ++ _)%string.
  change (drop_last_char (String a (s ++ String c "")))
    with (match (s ++ String c "")%string with
          | EmptyString => EmptyString
          | String _ _ => String a (drop_last_char (s ++ String c ""))
          end).
  destruct (s ++ String c "")%string eqn:Hs.
  - destruct s; discriminate.
  - rewrite IH. reflexivity.
Qed.

Lemma uint_string_last d :
  d = Decimal.Nil \/
  exists c, last_char (NilEmpty.string_of_uint d) = Some c /\ is_digit c = true.
Proof.
  induction d as [|d IH|d IH|d IH|d IH|d IH|d IH|d IH|d IH|d IH|d IH];
    [left; reflexivity | right ..];
    (destruct IH as [-> | (c & Hc & Hd)];
     [ eexists; split; [reflexivity | reflexivity]
     | exists c; split; [|exact Hd];
       cbn [NilEmpty.string_of_uint];
       destruct (NilEmpty.string_of_uint d) eqn:Hs; [discriminate | exact Hc] ]).
Qed.

Lemma print_last_digit z :
  exists c, last_char (print_u64 z) = Some c /\ is_digit c = true.
Proof.
  unfold print_u64, NilZero.string_of_int.
  assert (Hu : forall d, exists c,
             last_char (NilZero.string_of_uint d) = Some c /\ is_digit c = true).
  { intros d. destruct (uint_string_last d) as [-> | H].
    - exists "0"%char. split; reflexivity.
    - destruct d; [exists "0"%char; split; reflexivity | exact H ..]. }
  destruct (Z.to_int z) as [d | d].
  - apply Hu.
  - destruct (Hu d) as (c & Hc & Hd). exists c. split; [|exact Hd].
    destruct (NilZero.string_of_uint d) eqn:Hs; [discriminate|]. exact Hc.
Qed.

Lemma print_nonempty z : exists c s, print_u64 z = String c s.
Proof.
  destruct (print_last_digit z) as (c & Hc & _).
  destruct (print_u64 z) as [|a s]; [discriminate|]. now exists a, s.
Qed.

(** ** ExtentsToBsdiffPositionsString *)

Lemma positions_loop_entries extents bs fl ret len :
  fst (positions_loop extents bs fl ret len)
  = (ret ++ entries_text (bsdiff_entries extents bs fl len))%string.
Proof.
  revert ret len. induction extents as [|e rest IH]; intros ret len; simpl.
  - now rewrite string_app_nil_r.
  - rewrite IH, string_app_assoc. reflexivity.
Qed.

Lemma capacity64_nonneg extents bs : 0 <= capacity64 extents bs.
Proof.
  induction extents as [|e rest IH]; simpl; [lia|].
  pose proof (wrap64_range (num_blocks e * bs)). lia.
Qed.

Lemma positions_loop_length extents bs fl ret len :
  0 <= len <= fl -> fl < two64 ->
  snd (positions_loop extents bs fl ret len) = Z.min fl (len + capacity64 extents bs).
Proof.
  revert ret len. induction extents as [|e rest IH]; intros ret len Hlen Hfl; simpl.
  - lia.
  - pose proof (wrap64_range (num_blocks e * bs)) as Hc.
    pose proof (capacity64_nonneg rest bs) as Hr.
    unfold position_length.
    set (c := wrap64 (num_blocks e * bs)) in *.
    rewrite (wrap64_small (fl - len)) by lia.
    rewrite (wrap64_small (len + Z.min (fl - len) c)) by lia.
    rewrite IH by lia. lia.
Qed.

Lemma bsdiff_entries_sum extents bs fl len :
  0 <= len <= fl -> fl < two64 ->
  sum_lengths (bsdiff_entries extents bs fl len)
  = Z.min fl (len + capacity64 extents bs) - len.
Proof.
  revert len. induction extents as [|e rest IH]; intros len Hlen Hfl; simpl.
  - lia.
  - pose proof (wrap64_range (num_blocks e * bs)) as Hc.
    pose proof (capacity64_nonneg rest bs) as Hr.
    unfold position_length.
    set (c := wrap64 (num_blocks e * bs)) in *.
    rewrite (wrap64_small (fl - len)) by lia.
    rewrite (wrap64_small (len + Z.min (fl - len) c)) by lia.
    rewrite IH by lia. lia.
Qed.

Lemma bsdiff_entries_nth extents bs fl len i e :
  nth_error extents i = Some e ->
  exists this_length,
    nth_error (bsdiff_entries extents bs fl len) i
    = Some (position_start e bs, this_length).
Proof.
  revert len i. induction extents as [|x rest IH]; intros len i H.
  - destruct i; discriminate.
  - destruct i as [|i]; simpl in *.
    + injection H as ->. eexists. reflexivity.
    + eapply IH. exact H.
Qed.

Lemma bsdiff_entries_length extents bs fl len :
  List.length (bsdiff_entries extents bs fl len) = List.length extents.
Proof.
  revert len. induction extents as [|x rest IH]; intros len; simpl; [reflexivity|].
  now rewrite IH.
Qed.

Lemma entries_text_join entries :
  entries <> [] ->
  entries_text entries = (join_entries entries ++ ",")%string.
Proof.
  induction entries as [|p rest IH]; [congruence|]. intros _.
  destruct rest as [|q rest].
  - simpl. unfold position_entry, join_entries, entry_text. simpl.
    rewrite !string_app_assoc, string_app_nil_r. reflexivity.
  - change (entries_text (p :: q :: rest))
      with (position_entry (fst p) (snd p) ++ entries_text (q :: rest))%string.
    rewrite IH by congruence.
    unfold join_entries. cbn [map String.concat].
    unfold position_entry, entry_text.
    rewrite !string_app_assoc. reflexivity.
Qed.

Lemma join_entries_cons p q rest :
  join_entries (p :: q :: rest)
  = (entry_text p ++ String "," (join_entries (q :: rest)))%string.
Proof. reflexivity. Qed.

Lemma entry_text_last p :
  exists c, last_char (entry_text p) = Some c /\ is_digit c = true.
Proof.
  destruct (print_last_digit (snd p)) as (c & Hc & Hd).
  destruct (print_nonempty (snd p)) as (a & s & Hs).
  exists c. split; [|exact Hd].
  unfold entry_text.
  change (":" ++ print_u64 (snd p))%string with (String ":" (print_u64 (snd p))).
  rewrite last_char_app, Hs.
  change (last_char (String ":" (String a s))) with (last_char (String a s)).
  rewrite <- Hs. exact Hc.
Qed.

Lemma join_entries_last_digit entries p :
  exists c, last_char (join_entries (p :: entries)) = Some c /\ is_digit c = true.
Proof.
  revert p. induction entries as [|q rest IH]; intros p.
  - unfold join_entries. simpl. apply entry_text_last.
  - destruct (IH q) as (c & Hc & Hd). exists c. split; [|exact Hd].
    rewrite join_entries_cons, last_char_app.
    destruct (join_entries (q :: rest)) as [|a s]; [discriminate|].
    exact Hc.
Qed.

Lemma join_entries_last entries :
  last_char (join_entries entries) <> Some ","%char.
Proof.
  destruct entries as [|p rest]; [discriminate|].
  destruct (join_entries_last_digit rest p) as (c & Hc & Hd).
  rewrite Hc. intros [= ->]. discriminate.
Qed.

Lemma position_start_sparse e bs :
  start_block e = kSparseHole -> position_start e bs = -1.
Proof. intros H. unfold position_start. rewrite H. reflexivity. Qed.

Lemma position_start_block e bs :
  uint64 (start_block e) -> start_block e <> kSparseHole ->
  position_start e bs = to_int64 (start_block e * bs).
Proof.
  intros Hr Hne. unfold position_start.
  rewrite to_int64_sparse by exact Hr.
  destruct (Z.eqb_spec (start_block e) kSparseHole); [contradiction|].
  rewrite wrap64_to_int64, wrap64_mul_l, to_int64_wrap64. reflexivity.
Qed.

Lemma capacity64_exact extents bs :
  0 <= bs ->
  Forall (fun e => 0 <= num_blocks e /\ num_blocks e * bs < two64) extents ->
  capacity64 extents bs = total_capacity extents bs.
Proof.
  intros Hbs. induction 1 as [|e rest [H0 H1] _ IH]; simpl; [reflexivity|].
  rewrite IH, wrap64_small by nia. reflexivity.
Qed.

Lemma ExtentsToBsdiffPositionsString_eq extents bs fl :
  uint64 fl ->
  ExtentsToBsdiffPositionsString extents bs fl
  = if fl <=? capacity64 extents bs
    then Some (join_entries (bsdiff_entries extents bs fl 0))
    else None.
Proof.
  intros [H0 H1]. unfold ExtentsToBsdiffPositionsString.
  pose proof (positions_loop_entries extents bs fl "" 0) as Hs.
  pose proof (positions_loop_length extents bs fl "" 0 ltac:(lia) H1) as Hl.
  destruct (positions_loop extents bs fl "" 0) as [ret len]. simpl in Hs, Hl.
  subst ret len.
  pose proof (capacity64_nonneg extents bs) as Hc.
  destruct (Z.leb_spec fl (capacity64 extents bs)) as [Hle|Hgt].
  - rewrite Z.min_l by exact Hle.
    rewrite Z.eqb_refl. f_equal.
    destruct (bsdiff_entries extents bs fl 0) as [|p rest] eqn:He.
    + reflexivity.
    + rewrite entries_text_join by congruence.
      destruct (join_entries (p :: rest) ++ ",")%string eqn:Hj.
      * destruct (join_entries (p :: rest)); discriminate.
      * cbn [string_empty]. rewrite <- Hj. apply drop_last_char_app.
  - rewrite Z.min_r by lia.
    destruct (Z.eqb_spec (capacity64 extents bs) fl); [lia | reflexivity].
Qed.

(** C6 (amended): for every extent list, block_size and full_length in the
    64-bit unsigned range, ExtentsToBsdiffPositionsString succeeds if and
    only if full_length is at most the extents' byte capacity, where each
    extent counts for num_blocks * block_size reduced modulo 2^64 as the
    code computes it (the exact capacity whenever no product overflows).  On
    success the string is the comma-separated list of the start:length
    entries, their lengths sum to exactly full_length, a sparse hole has
    start -1, any other extent has start_block * block_size as a signed
    64-bit value (the exact product below 2^63), and the string does not
    end with a comma. *)
Theorem ExtentsToBsdiffPositionsString_correct :
  forall extents bs fl,
    Forall wf_extent extents -> uint64 bs -> uint64 fl ->
    let entries := bsdiff_entries extents bs fl 0 in
    ((exists s, ExtentsToBsdiffPositionsString extents bs fl = Some s)
       <-> fl <= capacity64 extents bs)
    /\ (forall s, ExtentsToBsdiffPositionsString extents bs fl = Some s ->
          s = join_entries entries
          /\ sum_lengths entries = fl
          /\ last_char s <> Some ","%char
          /\ List.length entries = List.length extents
          /\ forall i e, nth_error extents i = Some e ->
               exists start len,
                 nth_error entries i = Some (start, len)
                 /\ (start_block e = kSparseHole -> start = -1)
                 /\ (start_block e <> kSparseHole ->
                     start = to_int64 (start_block e * bs)
                     /\ (start_block e * bs < two63 -> start = start_block e * bs)))
    /\ (Forall (fun e => num_blocks e * bs < two64) extents ->
        capacity64 extents bs = total_capacity extents bs).
Proof.
  intros extents bs fl Hwf Hbs Hfl entries.
  pose proof (ExtentsToBsdiffPositionsString_eq extents bs fl Hfl) as Heq.
  split; [|split].
  - rewrite Heq. destruct (Z.leb_spec fl (capacity64 extents bs)) as [Hle|Hgt].
    + split; [intros _; exact Hle | intros _; eexists; reflexivity].
    + split; [intros [s Hs]; discriminate | lia].
  - intros s Hs. rewrite Heq in Hs.
    destruct (Z.leb_spec fl (capacity64 extents bs)) as [Hle|Hgt]; [|discriminate].
    injection Hs as <-.
    split; [reflexivity|]. split; [|split; [|split]].
    + unfold entries. rewrite bsdiff_entries_sum by (unfold uint64 in Hfl; lia). lia.
    + apply join_entries_last.
    + apply bsdiff_entries_length.
    + intros i e Hi.
      destruct (bsdiff_entries_nth extents bs fl 0 i e Hi) as [len Hlen].
      exists (position_start e bs), len. split; [exact Hlen|].
      assert (He : wf_extent e).
      { rewrite Forall_forall in Hwf. apply Hwf. eapply nth_error_In. exact Hi. }
      destruct He as [Hsb Hnb]. split.
      * apply position_start_sparse.
      * intros Hne. rewrite position_start_block by assumption.
        split; [reflexivity|]. intros Hlt. apply to_int64_small.
        unfold uint64 in *. rewrite two63_eq in *. nia.
  - intros Hno. apply capacity64_exact; [unfold uint64 in Hbs; lia|].
    rewrite Forall_forall in *. intros e He. split; [|apply Hno, He].
    destruct (Hwf e He) as [_ [H _]]. exact H.
Qed.

Lemma ExtentsToBsdiffPositionsString_correct_witness :
  ExtentsToBsdiffPositionsString
    [mkExtent 3 2; mkExtent kSparseHole 1; mkExtent 7 5] 4096 16394
  = Some "12288:8192,-1:4096,28672:4106"%string
  /\ sum_lengths
       (bsdiff_entries [mkExtent 3 2; mkExtent kSparseHole 1; mkExtent 7 5] 4096 16394 0)
     = 16394.
Proof.
  split; [reflexivity|].
  refine (proj1 (proj2 (proj1 (proj2
    (ExtentsToBsdiffPositionsString_correct
       [mkExtent 3 2; mkExtent kSparseHole 1; mkExtent 7 5] 4096 16394 _ _ _))
    "12288:8192,-1:4096,28672:4106"%string _))).
  - repeat constructor; simpl; try discriminate.
  - split; [discriminate | reflexivity].
  - split; [discriminate | reflexivity].
  - reflexivity.
Defined.

(** C6 as stated fails when num_blocks * block_size overflows 64 bits: the
    extent below holds 2^64 bytes, yet a request for one byte is refused. *)
Lemma ExtentsToBsdiffPositionsString_capacity_overflow :
  Forall wf_extent [mkExtent 0 (2 ^ 63)] /\ uint64 2 /\ uint64 1
  /\ 1 <= total_capacity [mkExtent 0 (2 ^ 63)] 2
  /\ ExtentsToBsdiffPositionsString [mkExtent 0 (2 ^ 63)] 2 1 = None.
Proof.
  split; [|split; [|split; [|split]]].
  - repeat constructor; simpl; discriminate.
  - split; [discriminate | reflexivity].
  - split; [discriminate | reflexivity].
  - discriminate.
  - reflexivity.
Qed.

(** ** Reasoning about computations *)

Section MonadFacts.

Variable E : Env.

Lemma call_eq (c : Call) (y : Sys E) :
  call E c y = Done (answer y c) (answered y c).
Proof.
  unfold call, answer, answered. destruct (handle E (world y) c). reflexivity.
Qed.

Lemma bind_Done {A B} (m : M E A) (k : A -> M E B) y a y' :
  m y = Done a y' -> bind m k y = k a y'.
Proof. intros H. unfold bind. now rewrite H. Qed.

Lemma bind_inv {A B} (m : M E A) (k : A -> M E B) y b y2 :
  bind m k y = Done b y2 ->
  exists a y1, m y = Done a y1 /\ k a y1 = Done b y2.
Proof.
  unfold bind. destruct (m y) as [a y1| |]; try discriminate.
  intros H. now exists a, y1.
Qed.

Lemma wp_ret {A} (a : A) (Q : A -> Sys E -> Prop) y :
  Q a y -> wp (ret a) Q y.
Proof. intros H. exact H. Qed.

Lemma wp_bind {A B} (m : M E A) (k : A -> M E B) (Q : B -> Sys E -> Prop) y :
  wp m (fun a y' => wp (k a) Q y') y -> wp (bind m k) Q y.
Proof.
  unfold wp, bind. destruct (m y) as [a y1| |]; auto.
Qed.

Lemma wp_call (c : Call) (Q : Response -> Sys E -> Prop) y :
  Q (answer y c) (answered y c) -> wp (call E c) Q y.
Proof. intros H. unfold wp. now rewrite call_eq. Qed.

Lemma wp_set_exit_blocked b (Q : unit -> Sys E -> Prop) y :
  Q tt (mkSys (world y) b (trace y ++ [EvExitBlocked b])) ->
  wp (set_exit_blocked E b) Q y.
Proof. intros H. exact H. Qed.

Lemma wp_abort {A} (Q : A -> Sys E -> Prop) y : wp abort Q y.
Proof. exact I. Qed.

Lemma wp_conseq {A} (m : M E A) (Q Q' : A -> Sys E -> Prop) y :
  wp m Q y -> (forall a y', Q a y' -> Q' a y') -> wp m Q' y.
Proof.
  unfold wp. destruct (m y); auto.
Qed.

Lemma wp_any {A} (m : M E A) (Q : A -> Sys E -> Prop) y :
  (forall a y', Q a y') -> wp m Q y.
Proof. intros H. unfold wp. destruct (m y); auto. Qed.

Lemma wp_Done {A} (m : M E A) (Q : A -> Sys E -> Prop) y a y' :
  wp m Q y -> m y = Done a y' -> Q a y'.
Proof. unfold wp. intros H Hm. now rewrite Hm in H. Qed.

Lemma wpt_ret {A} (a : A) (Q : A -> list Event -> Sys E -> Prop) y :
  Q a [] y -> wpt (ret a) Q y.
Proof. intros H. exists []. split; [now rewrite app_nil_r | exact H]. Qed.

Lemma wpt_abort {A} (Q : A -> list Event -> Sys E -> Prop) y : wpt abort Q y.
Proof. exact I. Qed.

Lemma wpt_call (c : Call) (Q : Response -> list Event -> Sys E -> Prop) y :
  Q (answer y c) [EvCall c (answer y c)] (answered y c) -> wpt (call E c) Q y.
Proof.
  intros H. unfold wpt. rewrite call_eq.
  exists [EvCall c (answer y c)]. split; [reflexivity | exact H].
Qed.

Lemma wpt_call_any (c : Call) (Q : Response -> list Event -> Sys E -> Prop) y :
  (forall r y', Q r [EvCall c r] y') -> wpt (call E c) Q y.
Proof. intros H. apply wpt_call, H. Qed.

Lemma wpt_set_exit_blocked b (Q : unit -> list Event -> Sys E -> Prop) y :
  Q tt [EvExitBlocked b] (mkSys (world y) b (trace y ++ [EvExitBlocked b])) ->
  wpt (set_exit_blocked E b) Q y.
Proof. intros H. exists [EvExitBlocked b]. split; [reflexivity | exact H]. Qed.

Lemma wpt_bind {A B} (m : M E A) (k : A -> M E B)
    (Q : B -> list Event -> Sys E -> Prop) y :
  wpt m (fun a ev1 y1 => wpt (k a) (fun b ev2 y2 => Q b (ev1 ++ ev2) y2) y1) y ->
  wpt (bind m k) Q y.
Proof.
  unfold wpt, bind. destruct (m y) as [a y1| |]; auto.
  intros (ev1 & Ht1 & H). destruct (k a y1) as [b y2| |]; auto.
  destruct H as (ev2 & Ht2 & H). exists (ev1 ++ ev2). split; [|exact H].
  rewrite Ht2, Ht1, app_assoc. reflexivity.
Qed.

Lemma wpt_conseq {A} (m : M E A) (Q Q' : A -> list Event -> Sys E -> Prop) y :
  wpt m Q y -> (forall a ev y', Q a ev y' -> Q' a ev y') -> wpt m Q' y.
Proof.
  unfold wpt. destruct (m y); auto.
  intros (ev & Ht & H) Himp. exists ev. split; [exact Ht | apply Himp, H].
Qed.

Lemma wpt_Done {A} (m : M E A) (Q : A -> list Event -> Sys E -> Prop) y a y' :
  wpt m Q y -> m y = Done a y' ->
  exists events, trace y' = trace y ++ events /\ Q a events y'.
Proof. unfold wpt. intros H Hm. now rewrite Hm in H. Qed.

End MonadFacts.

Arguments wp_Done {E A m Q y a y'}.
Arguments wpt_Done {E A m Q y a y'}.

(** Walks through a computation, one statement at a time. *)
Ltac wp_step :=
  lazymatch goal with
  | |- wp (ret _) _ _ => apply wp_ret
  | |- wp abort _ _ => apply wp_abort
  | |- wp (bind _ _) _ _ => apply wp_bind
  | |- wp (call _ _) _ _ => apply wp_call
  | |- wp (set_exit_blocked _ _) _ _ => apply wp_set_exit_blocked
  | |- wp (if ?b then _ else _) _ _ => destruct b eqn:?
  | |- wp (match ?x with _ => _ end) _ _ => destruct x eqn:?
  | |- wp (fun _ => OutOfFuel) _ _ => exact I
  | |- forall _, _ => intro
  end.

Ltac wp_walk := repeat wp_step.

Ltac wpt_step :=
  lazymatch goal with
  | |- wpt (ret _) _ _ => apply wpt_ret
  | |- wpt abort _ _ => apply wpt_abort
  | |- wpt (bind _ _) _ _ => apply wpt_bind
  | |- wpt (call _ _) _ _ => apply wpt_call
  | |- wpt (set_exit_blocked _ _) _ _ => apply wpt_set_exit_blocked
  | |- wpt (if ?b then _ else _) _ _ => destruct b eqn:?
  | |- wpt (match ?x with _ => _ end) _ _ => destruct x eqn:?
  | |- wpt (fun _ => OutOfFuel) _ _ => exact I
  | |- forall _, _ => intro
  end.

Ltac wpt_walk := repeat wpt_step.

(** Membership in an explicit list of events, case by case. *)
Ltac in_cases H :=
  repeat (first [ apply in_app_or in H | idtac ];
          lazymatch type of H with
          | In _ (_ :: _) => destruct H as [H|H]
          | In _ [] => destruct H
          | _ \/ _ => destruct H as [H|H]
          | False => destruct H
          end).

(** Reduces the projections of updated applier records. *)
Ltac fields :=
  cbn [fd_ kernel_fd_ path_ kernel_path_ manifest_ manifest_valid_
       manifest_metadata_size_ next_operation_num_ buffer_ buffer_offset_
       last_updated_buffer_offset_ block_size_ hash_calculator_
       signed_hash_context_ signatures_message_data_
       set_fd set_kernel_fd set_path set_kernel_path set_manifest
       set_manifest_valid set_manifest_metadata_size set_next_operation_num
       set_buffer set_buffer_offset set_last_updated_buffer_offset
       set_block_size set_hash_calculator set_signed_hash_context
       set_signatures_message_data append_buffer].

Ltac fields_in H :=
  cbn [fd_ kernel_fd_ path_ kernel_path_ manifest_ manifest_valid_
       manifest_metadata_size_ next_operation_num_ buffer_ buffer_offset_
       last_updated_buffer_offset_ block_size_ hash_calculator_
       signed_hash_context_ signatures_message_data_
       set_fd set_kernel_fd set_path set_kernel_path set_manifest
       set_manifest_valid set_manifest_metadata_size set_next_operation_num
       set_buffer set_buffer_offset set_last_updated_buffer_offset
       set_block_size set_hash_calculator set_signed_hash_context
       set_signatures_message_data append_buffer] in H.

(** ** Write leaves the descriptors and paths alone *)

Section FilesUntouched.

Variable E : Env.

Lemma same_files_refl dp : same_files dp dp.
Proof. repeat split. Qed.

Lemma same_files_trans a b c : same_files a b -> same_files b c -> same_files a c.
Proof.
  unfold same_files. intros (H1 & H2 & H3 & H4) (K1 & K2 & K3 & K4).
  repeat split; congruence.
Qed.

Ltac files_done := solve [repeat split; reflexivity | apply same_files_refl].

Lemma ExtractSignatureMessage_files op dp y :
  wp (ExtractSignatureMessage E op dp) (fun r _ => same_files dp (snd r)) y.
Proof. unfold ExtractSignatureMessage. wp_walk; files_done. Qed.

Lemma PerformReplaceOperation_files op k dp y :
  wp (PerformReplaceOperation E op k dp) (fun r _ => same_files dp (snd r)) y.
Proof.
  unfold PerformReplaceOperation.
  destruct (op_type op); try apply wp_abort.
  all: wp_step; [apply wp_abort|].
  all: wp_step; [apply wp_abort|].
  all: apply wp_bind.
  all: eapply wp_conseq; [apply ExtractSignatureMessage_files|].
  all: intros [b dp1] y1 Hf; simpl in Hf.
  all: wp_walk; try exact Hf.
  all: eapply same_files_trans; [exact Hf | files_done].
Qed.

Lemma PerformMoveOperation_files op k dp y :
  wp (PerformMoveOperation E op k dp) (fun r _ => same_files dp (snd r)) y.
Proof.
  unfold PerformMoveOperation.
  wp_step; [apply wp_abort|].
  apply wp_bind, wp_any. intros rd y1.
  destruct rd as [[buf bytes_read]|]; [|apply wp_ret; files_done].
  apply wp_bind, wp_any. intros wr y2.
  wp_walk; files_done.
Qed.

Lemma PerformBsdiffOperation_files op k dp y :
  wp (PerformBsdiffOperation E op k dp) (fun r _ => same_files dp (snd r)) y.
Proof.
  unfold PerformBsdiffOperation.
  repeat first [ wp_step
               | match goal with
                 | |- wp (zero_tail _ _ _ _) _ _ => apply wp_any; intros
                 end ].
  all: files_done.
Qed.

Lemma perform_operation_files op k dp y :
  wp (perform_operation E op k dp) (fun r _ => same_files dp (snd r)) y.
Proof.
  unfold perform_operation. destruct (op_type op).
  - apply PerformReplaceOperation_files.
  - apply PerformReplaceOperation_files.
  - apply PerformMoveOperation_files.
  - apply PerformBsdiffOperation_files.
Qed.

Lemma CheckpointUpdateProgress_files dp y :
  wp (CheckpointUpdateProgress E dp) (fun r _ => same_files dp (snd r)) y.
Proof. unfold CheckpointUpdateProgress, ResetUpdateProgress. wp_walk; files_done. Qed.

Lemma Write_iteration_files op dp y :
  wp (Write_iteration E op dp) (fun r _ => same_files dp (snd r)) y.
Proof.
  unfold Write_iteration, after_operation.
  apply wp_bind, wp_any. intros [] y1.
  apply wp_bind. eapply wp_conseq; [apply perform_operation_files|].
  intros [ok dp1] y2 Hf. simpl in Hf.
  destruct ok; simpl.
  - apply wp_bind. eapply wp_conseq; [apply CheckpointUpdateProgress_files|].
    intros [ok2 dp2] y3 Hf2. simpl in Hf2.
    wp_walk. simpl. eapply same_files_trans; [exact Hf|].
    eapply same_files_trans; [|exact Hf2]. files_done.
  - wp_walk. exact Hf.
Qed.

Lemma Write_loop_files fuel count dp y :
  wp (Write_loop E fuel count dp) (fun r _ => same_files dp (snd r)) y.
Proof.
  revert dp y. induction fuel as [|fuel IH]; intros dp y; simpl.
  - destruct (_ <? _); [|apply wp_ret; files_done].
    destruct (negb _); [apply wp_ret; files_done | exact I].
  - destruct (_ <? _); [|apply wp_ret; files_done].
    destruct (negb _); [apply wp_ret; files_done|].
    apply wp_bind. eapply wp_conseq; [apply Write_iteration_files|].
    intros [rv dp1] y1 Hf. simpl in Hf.
    destruct rv.
    + apply wp_ret. exact Hf.
    + eapply wp_conseq; [apply IH|].
      intros r y2 Hf2. eapply same_files_trans; eassumption.
Qed.

Lemma Write_manifest_files dp y :
  wp (Write_manifest E dp)
     (fun st _ => match st with
                  | NeedMoreData => True
                  | ParseError dp' | Parsed dp' => same_files dp dp'
                  end) y.
Proof. unfold Write_manifest. wp_walk; try exact I; files_done. Qed.

Lemma Write_files bytes dp y :
  wp (Write E bytes dp) (fun r _ => same_files dp (snd r)) y.
Proof.
  unfold Write.
  destruct (negb _).
  - apply wp_bind. eapply wp_conseq; [apply Write_manifest_files|].
    intros st y1 Hst. destruct st as [|dp1|dp1].
    + apply wp_ret. files_done.
    + apply wp_ret. simpl. eapply same_files_trans; [|exact Hst]. files_done.
    + eapply wp_conseq; [apply Write_loop_files|].
      intros r y2 Hf. eapply same_files_trans; [|exact Hf].
      eapply same_files_trans; [|exact Hst]. files_done.
  - eapply wp_conseq; [apply Write_loop_files|].
    intros r y2 Hf. eapply same_files_trans; [|exact Hf]. files_done.
Qed.

End FilesUntouched.

(** ** Open and Close *)

Section OpenClose.

Variable E : Env.

Lemma set_fd_same dp : set_fd dp (fd_ dp) = dp.
Proof. destruct dp; reflexivity. Qed.

Lemma Open_refused path dp y :
  fd_ dp <> -1 -> Open E path dp y = Done (- EINVAL, dp) y.
Proof.
  intros H. unfold Open, OpenFile.
  destruct (Z.eqb_spec (fd_ dp) (-1)) as [Heq|_]; [contradiction|].
  cbn. rewrite set_fd_same. reflexivity.
Qed.

Lemma OpenKernel_fd path dp y :
  wp (OpenKernel E path dp) (fun r _ => fd_ (snd r) = fd_ dp) y.
Proof.
  unfold OpenKernel, OpenFile. wp_walk; cbn; wp_walk; destruct dp; reflexivity.
Qed.

Lemma Close_fd dp y :
  fd_ dp = -2 -> wp (Close E dp) (fun r _ => fd_ (snd r) = -2) y.
Proof. intros H. unfold Close. wp_walk; [reflexivity | exact H]. Qed.

Lemma api_call_closed c dp y :
  fd_ dp = -2 -> wp (api_call E c dp) (fun dp' _ => fd_ dp' = -2) y.
Proof.
  intros H. destruct c as [path|path|bytes| |key hash size]; unfold api_call.
  - unfold wp. rewrite (bind_Done E _ _ y _ y (Open_refused path dp y ltac:(lia))).
    exact H.
  - apply wp_bind. eapply wp_conseq; [apply OpenKernel_fd|].
    intros r y' Hr. apply wp_ret. congruence.
  - apply wp_bind. eapply wp_conseq; [apply Write_files|].
    intros r y' (Hr & _). apply wp_ret. congruence.
  - apply wp_bind. eapply wp_conseq; [apply Close_fd, H|].
    intros r y' Hr. apply wp_ret. exact Hr.
  - apply wp_bind, wp_any. intros b y'. apply wp_ret. exact H.
Qed.

Lemma api_calls_closed cs dp y :
  fd_ dp = -2 -> wp (api_calls E cs dp) (fun dp' _ => fd_ dp' = -2) y.
Proof.
  revert dp y. induction cs as [|c rest IH]; intros dp y H; simpl.
  - exact H.
  - apply wp_bind. eapply wp_conseq; [apply api_call_closed, H|].
    intros dp1 y1 H1. apply IH, H1.
Qed.

(** C10: Close with a non-empty buffer returns -1 and changes nothing, no
    external call is made and the applier object is the same; with an empty
    buffer it closes the kernel descriptor and the rootfs descriptor (in this
    order), finalizes the hash, sets fd_ to -2 and clears path_, and after
    that every Open, whatever calls come in between, returns -EINVAL,
    a negative value, and opens nothing. *)
Theorem Close_all_or_nothing :
  forall dp y,
    (buffer_ dp <> [] -> Close E dp y = Done (-1, dp) y)
    /\ (buffer_ dp = [] ->
        let y1 := answered y (SysClose (kernel_fd_ dp)) in
        let y2 := answered y1 (SysClose (fd_ dp)) in
        let closed :=
          set_path
            (set_fd (set_hash_calculator dp (Hash_Finalize E (hash_calculator_ dp)))
               (-2)) ""%string in
        (exists rv, Close E dp y = Done (rv, closed) y2)
        /\ trace y2 = trace y ++ [EvCall (SysClose (kernel_fd_ dp)) (answer y (SysClose (kernel_fd_ dp)));
                                  EvCall (SysClose (fd_ dp)) (answer y1 (SysClose (fd_ dp)))]
        /\ fd_ closed = -2
        /\ hc_hash (hash_calculator_ closed) = sha256_hash E (hc_bytes (hash_calculator_ dp))
        /\ forall calls path dp' y',
             api_calls E calls closed y2 = Done dp' y' ->
             Open E path dp' y' = Done (- EINVAL, dp') y' /\ - EINVAL < 0).
Proof.
  intros dp y. split.
  - intros Hne. unfold Close. destruct (buffer_ dp); [congruence | reflexivity].
  - intros Hempty y1 y2 closed. split; [|split; [|split; [|split]]].
    + unfold Close. rewrite Hempty.
      unfold bind. rewrite call_eq. fold y1. rewrite call_eq. fold y2.
      eexists. reflexivity.
    + unfold y2, y1, answered. simpl. rewrite <- app_assoc. reflexivity.
    + reflexivity.
    + reflexivity.
    + intros calls path dp' y' Hrun.
      pose proof (api_calls_closed calls closed y2 eq_refl) as Hwp.
      pose proof (wp_Done Hwp Hrun) as Hfd. simpl in Hfd.
      split; [apply Open_refused; lia | reflexivity].
Qed.

End OpenClose.

(** ** VerifyPayload *)

Section Verify.

Variable E : Env.

Lemma string_empty_spec s : string_empty s = true <-> s = ""%string.
Proof. destruct s; simpl; split; congruence. Qed.

(** C7 (amended): whatever the key, VerifyPayload returns false without
    looking for the key file when the download hash is empty (not
    finalized), differs from expected_hash, or expected_size differs from
    manifest_metadata_size + buffer_offset (64-bit sum).  If the public key
    file does not exist, VerifyPayload returns true if and only if the
    download hash is non-empty, equals expected_hash, and expected_size
    equals manifest_metadata_size + buffer_offset. *)
Theorem VerifyPayload_missing_key :
  forall public_key_path expected_hash expected_size dp y,
    let download_hash := hc_hash (hash_calculator_ dp) in
    let checks :=
      download_hash <> ""%string /\ download_hash = expected_hash
      /\ expected_size = wrap64 (manifest_metadata_size_ dp + buffer_offset_ dp) in
    let key_query := FileExists (effective_key_path public_key_path) in
    (~ checks ->
       VerifyPayload E public_key_path expected_hash expected_size dp y = Done false y)
    /\ (r_ok (answer y key_query) = false ->
        exists b y',
          VerifyPayload E public_key_path expected_hash expected_size dp y = Done b y'
          /\ (b = true <-> checks)
          /\ (b = true -> y' = answered y key_query)).
Proof.
  intros key hash size dp y download_hash checks key_query.
  unfold VerifyPayload. fold (effective_key_path key). fold download_hash. fold key_query.
  destruct (string_empty download_hash) eqn:Hempty.
  { apply string_empty_spec in Hempty. split.
    - reflexivity.
    - intros _. exists false, y. split; [reflexivity|]. split; [|discriminate].
      split; [discriminate|]. intros (Hne & _). contradiction. }
  assert (Hne : download_hash <> ""%string).
  { intros H. apply string_empty_spec in H. congruence. }
  destruct (String.eqb_spec download_hash hash) as [Hhash|Hhash]; cbn [negb].
  2:{ split.
      - reflexivity.
      - intros _. exists false, y. split; [reflexivity|]. split; [|discriminate].
        split; [discriminate|]. intros (_ & H & _). contradiction. }
  destruct (Z.eqb_spec size (wrap64 (manifest_metadata_size_ dp + buffer_offset_ dp)))
    as [Hsize|Hsize]; cbn [negb].
  2:{ split.
      - reflexivity.
      - intros _. exists false, y. split; [reflexivity|]. split; [|discriminate].
        split; [discriminate|]. intros (_ & _ & H). contradiction. }
  split.
  - intros Hn. exfalso. apply Hn. repeat split; assumption.
  - intros Hmissing. exists true, (answered y key_query).
    split; [|split; [split; [intros _; repeat split; assumption | reflexivity]
                    | reflexivity]].
    unfold bind. rewrite call_eq, Hmissing. reflexivity.
Qed.

End Verify.

Lemma VerifyPayload_missing_key_witness :
  exists b y',
    VerifyPayload Sample.test_env "" "habc"
      0 (set_hash_calculator new_DeltaPerformer (mkHash [] "habc"))
      (Sample.test_sys [] true) = Done b y'
    /\ (b = true <->
        "habc"%string <> ""%string /\ "habc"%string = "habc"%string
        /\ 0 = wrap64 (0 + 0))
    /\ (b = true ->
        y' = answered (Sample.test_sys [] true)
               (FileExists (effective_key_path ""))).
Proof.
  exact (proj2 (VerifyPayload_missing_key Sample.test_env "" "habc" 0
                  (set_hash_calculator new_DeltaPerformer (mkHash [] "habc"))
                  (Sample.test_sys [] true)) eq_refl).
Defined.

(** C7 as stated fails for a hash that was never finalized: the download
    hash is the empty string, it equals the expected hash, the size agrees
    and the key file is missing, yet VerifyPayload returns false. *)
Lemma VerifyPayload_empty_hash_refused :
  hc_hash (hash_calculator_ new_DeltaPerformer) = ""%string
  /\ 0 = manifest_metadata_size_ new_DeltaPerformer + buffer_offset_ new_DeltaPerformer
  /\ r_ok (answer (Sample.test_sys [] true)
             (FileExists (effective_key_path ""))) = false
  /\ VerifyPayload Sample.test_env "" "" 0 new_DeltaPerformer (Sample.test_sys [] true)
     = Done false (Sample.test_sys [] true).
Proof. repeat split. Qed.

(** ** PerformBsdiffOperation: zeroing the rest of the final block *)

Section BsdiffTail.

Variable E : Env.

Lemma zero_tail_inv op fd bs y ok y' :
  zero_tail E op fd bs y = Done ok y' ->
  bs <> 0
  /\ ((dst_length op mod bs = 0 /\ ok = true /\ y' = y)
      \/ (dst_length op mod bs <> 0
          /\ exists front last_extent,
               dst_extents op = front ++ [last_extent]
               /\ y' = answered y (tail_zero_call (dst_length op) fd bs last_extent)
               /\ ok = r_ok (answer y (tail_zero_call (dst_length op) fd bs last_extent)))).
Proof.
  unfold zero_tail.
  destruct (Z.eqb_spec bs 0) as [|Hbs]; [discriminate|].
  destruct (Z.eqb_spec (dst_length op mod bs) 0) as [Hz|Hnz]; cbn [negb].
  - intros [= <- <-]. split; [exact Hbs|]. left. auto.
  - destruct (rev (dst_extents op)) as [|last_extent front] eqn:Hrev; [discriminate|].
    unfold bind. rewrite call_eq. intros [= <- <-].
    split; [exact Hbs|]. right. split; [exact Hnz|].
    exists (rev front), last_extent. split; [|split; reflexivity].
    rewrite <- (rev_involutive (dst_extents op)), Hrev. reflexivity.
Qed.

Lemma tail_zero_length bs dst_length :
  0 < bs < two64 ->
  wrap64 (bs - dst_length mod bs) = bs - dst_length mod bs
  /\ 0 < bs - dst_length mod bs <= bs.
Proof.
  intros Hbs. pose proof (Z.mod_pos_bound dst_length bs ltac:(lia)) as Hm.
  split; [apply wrap64_small|]; lia.
Qed.

Lemma tail_zero_count last_extent bs dst_length :
  0 < bs < two64 ->
  let end_byte := bsdiff_end_byte last_extent bs in
  let begin_byte := bsdiff_begin_byte end_byte bs dst_length in
  wrap64 (end_byte - begin_byte) = bs - dst_length mod bs.
Proof.
  intros Hbs end_byte begin_byte.
  destruct (tail_zero_length bs dst_length Hbs) as [Hw Hr].
  unfold begin_byte, bsdiff_begin_byte. rewrite Hw.
  set (n := bs - dst_length mod bs) in *.
  unfold wrap64. rewrite Zminus_mod_idemp_r.
  replace (end_byte - (end_byte - n)) with n by lia.
  apply Z.mod_small. lia.
Qed.

Lemma tail_zero_exact last_extent bs dst_length :
  0 < bs < two64 ->
  0 <= start_block last_extent -> 0 < num_blocks last_extent ->
  (start_block last_extent + num_blocks last_extent) * bs < two64 ->
  let end_byte := bsdiff_end_byte last_extent bs in
  let begin_byte := bsdiff_begin_byte end_byte bs dst_length in
  end_byte = (start_block last_extent + num_blocks last_extent) * bs
  /\ begin_byte = end_byte - (bs - dst_length mod bs)
  /\ 0 <= begin_byte < end_byte.
Proof.
  intros Hbs Hs Hn Hlt end_byte begin_byte.
  destruct (tail_zero_length bs dst_length Hbs) as [Hw Hr].
  assert (He : end_byte = (start_block last_extent + num_blocks last_extent) * bs).
  { unfold end_byte, bsdiff_end_byte. rewrite wrap64_mul_l. apply wrap64_small. nia. }
  assert (Hge : bs <= end_byte) by nia.
  split; [exact He|].
  unfold begin_byte, bsdiff_begin_byte. rewrite Hw.
  rewrite wrap64_small by lia. lia.
Qed.

End BsdiffTail.

Section BsdiffTrace.

Variable E : Env.

Lemma zero_tail_trace op fd bs y :
  wpt (zero_tail E op fd bs)
    (fun ok events y' =>
       bs <> 0
       /\ ((dst_length op mod bs = 0 /\ events = [])
           \/ (dst_length op mod bs <> 0
               /\ exists front last_extent r,
                    dst_extents op = front ++ [last_extent]
                    /\ events = [EvCall (tail_zero_call (dst_length op) fd bs
                                           last_extent) r]))) y.
Proof.
  unfold wpt. destruct (zero_tail E op fd bs y) as [ok y'| |] eqn:Hz; auto.
  apply zero_tail_inv in Hz.
  destruct Hz as (Hbs & [(Hm & -> & ->) | (Hm & front & last_extent & Hd & -> & ->)]).
  - exists []. split; [now rewrite app_nil_r|]. split; [exact Hbs|]. left. auto.
  - eexists. split; [reflexivity|]. split; [exact Hbs|]. right.
    split; [exact Hm|]. exists front, last_extent. eexists. split; [exact Hd | reflexivity].
Qed.

Ltac no_pwrite :=
  let c := fresh "c" in let r := fresh "r" in let Hin := fresh "Hin" in
  intros c r Hin; simpl in Hin; in_cases Hin;
  try discriminate; injection Hin as <- <-; reflexivity.

Ltac quiet_trace :=
  left; split;
  [ no_pwrite
  | let e := fresh "e" in let Hin := fresh "Hin" in
    intros e Hin; simpl in Hin; in_cases Hin; subst e; simpl;
    try tauto; intros [? ?];
    repeat match goal with
           | H : negb _ = true |- _ => apply negb_true_iff in H
           | H : (_ =? _) = false |- _ => apply Z.eqb_neq in H
           end; congruence ].

Lemma PerformBsdiffOperation_trace op k dp y :
  wpt (PerformBsdiffOperation E op k dp)
    (fun _ events _ =>
       bsdiff_trace (dst_extents op) (dst_length op)
         (if k then kernel_fd_ dp else fd_ dp) (block_size_ dp) events) y.
Proof.
  unfold PerformBsdiffOperation.
  repeat first
    [ lazymatch goal with
      | |- wpt (zero_tail _ _ _ _) _ _ =>
          eapply wpt_conseq; [apply zero_tail_trace|]; cbv beta;
          intros ? ? ? (? & ?)
      | |- wpt (call _ _) _ _ => apply wpt_call_any; intros
      end
    | wpt_step ].
  all: try solve [quiet_trace].
  all: right;
    repeat match goal with
           | H : negb _ = false |- _ => apply negb_false_iff in H
           | H : (_ =? _) = true |- _ => apply Z.eqb_eq in H
           end.
  all: simpl;
    lazymatch goal with
    | |- exists before cmd rx tail after,
           ?e1 :: ?e2 :: ?e3 :: ?e4 :: EvCall (SynchronousExec ?c) ?r :: ?t ++ ?aft = _ /\ _ =>
        exists [e1; e2; e3; e4], c, r, t, aft
    | |- exists before cmd rx tail after,
           ?e1 :: ?e2 :: ?e3 :: EvCall (SynchronousExec ?c) ?r :: ?t ++ ?aft = _ /\ _ =>
        exists [e1; e2; e3], c, r, t, aft
    end.
  all: split; [reflexivity|].
  all: repeat (split; [first [assumption | no_pwrite]|]).
  all: assumption.
Qed.


End BsdiffTrace.



(** ** The loop body of Write: the reset before a non-idempotent operation *)

Section PreStep.

Variable E : Env.

(** C5 (amended): for an operation with a non-empty source-extent list (a
    non-idempotent one, such as a MOVE or a BSDIFF with sources) the loop
    body first engages the Terminator and then issues the write of
    kUpdateStateOperationInvalid (-1) under the next-operation key; only
    then, in the system so obtained, does the operation execute, whatever
    that write returned: its result is dropped.  If the write succeeded, a
    store that reads back what was written reads -1 when the operation
    begins.  For an operation without source extents the operation executes
    in the system the loop body was entered with: nothing is reset or
    engaged before it. *)
Theorem non_idempotent_reset_first :
  forall op dp y,
    let reset :=
      PrefsSetInt64 kPrefsUpdateStateNextOperation kUpdateStateOperationInvalid in
    let blocked := mkSys (world y) true (trace y ++ [EvExitBlocked true]) in
    let is_kernel :=
      size_of (install_operations (manifest_ dp)) <=? next_operation_num_ dp in
    kUpdateStateOperationInvalid = -1
    /\ (src_extents op <> [] ->
        IsIdempotentOperation op = false
        /\ Write_iteration E op dp y
           = bind (perform_operation E op is_kernel dp) (after_operation E)
               (answered blocked reset)
        /\ exit_blocked (answered blocked reset) = true
        /\ trace (answered blocked reset)
           = trace y ++ [EvExitBlocked true; EvCall reset (answer blocked reset)]
        /\ (forall prefs_of,
              int64_store E prefs_of ->
              r_ok (answer blocked reset) = true ->
              progress_invalid prefs_of (answered blocked reset)))
    /\ (src_extents op = [] ->
        IsIdempotentOperation op = true
        /\ Write_iteration E op dp y
           = bind (perform_operation E op is_kernel dp) (after_operation E) y).
Proof.
  intros op dp y reset blocked is_kernel.
  split; [reflexivity|]. split.
  - intros Hsrc.
    assert (Hid : IsIdempotentOperation op = false).
    { unfold IsIdempotentOperation. destruct (src_extents op); congruence. }
    split; [exact Hid|]. split; [|split; [|split]].
    + unfold Write_iteration, pre_operation. rewrite Hid. cbn [negb].
      unfold ResetUpdateProgress.
      unfold bind at 1. unfold bind at 1. cbn [set_exit_blocked].
      fold blocked. unfold bind at 1. unfold bind at 1.
      rewrite call_eq. reflexivity.
    + reflexivity.
    + unfold answered. cbn [trace]. unfold blocked. cbn [trace].
      rewrite <- app_assoc. reflexivity.
    + intros prefs_of [Hback _] Hok.
      unfold progress_invalid, answered, answer in *. cbn [world] in *.
      apply Hback, Hok.
  - intros Hsrc.
    assert (Hid : IsIdempotentOperation op = true).
    { unfold IsIdempotentOperation. now rewrite Hsrc. }
    split; [exact Hid|].
    unfold Write_iteration, pre_operation. rewrite Hid. reflexivity.
Qed.

End PreStep.

Lemma sample_int64_store : int64_store Sample.test_env sample_prefs.
Proof.
  split.
  - intros w key v. cbn [handle Sample.test_env Sample.test_handle].
    destruct (Sample.tw_prefs_writable w); cbn; [|discriminate].
    intros _. now rewrite String.eqb_refl.
  - intros w c key Hc.
    destruct c; cbn [handle Sample.test_env Sample.test_handle]; try reflexivity.
    + destruct (Sample.tw_prefs_writable w); cbn; [|reflexivity].
      destruct (String.eqb_spec key0 key) as [->|]; [|reflexivity].
      now elim (Hc value).
    + destruct (Sample.tw_prefs_writable w); reflexivity.
    + destruct (_ <=? _); reflexivity.
    + destruct (_ <=? _); reflexivity.
Qed.

Lemma non_idempotent_reset_first_witness :
  IsIdempotentOperation Sample.small_bsdiff = false
  /\ (exists r,
        trace (answered
                 (mkSys (E := Sample.test_env)
                    (world (Sample.test_sys Sample.small_disk true)) true
                    (trace (Sample.test_sys Sample.small_disk true)
                       ++ [EvExitBlocked true]))
                 (PrefsSetInt64 kPrefsUpdateStateNextOperation
                    kUpdateStateOperationInvalid))
        = [EvExitBlocked true;
           EvCall (PrefsSetInt64 kPrefsUpdateStateNextOperation (-1)) r])
  /\ progress_invalid (E := Sample.test_env) sample_prefs
       (answered
          (mkSys (E := Sample.test_env)
             (world (Sample.test_sys Sample.small_disk true)) true
             (trace (Sample.test_sys Sample.small_disk true)
                ++ [EvExitBlocked true]))
          (PrefsSetInt64 kPrefsUpdateStateNextOperation
             kUpdateStateOperationInvalid)).
Proof.
  pose proof (proj1 (proj2 (non_idempotent_reset_first Sample.test_env
                              Sample.small_bsdiff Sample.small_applier
                              (Sample.test_sys Sample.small_disk true)))
                ltac:(discriminate)) as (Hid & _ & _ & Ht & Hstore).
  split; [exact Hid|]. split; [eexists; exact Ht|].
  exact (Hstore sample_prefs sample_int64_store eq_refl).
Defined.

(** C5 as stated fails when the preference store refuses the write: the
    result of the reset is dropped, so the sentinel is not stored and the
    operation is executed all the same.  The store below, left by an
    interrupted update, reads operation 5 and refuses every write.  The loop
    body, given a BSDIFF with source extents, issues the reset, which fails,
    and then runs the patch tool and zeroes the tail of the last block on
    the device; before the operation and after the turn the store still
    reads 5, and CanResumeUpdate still returns true. *)
Lemma failed_reset_operation_still_runs :
  exists dp' y' cmd r rest,
    src_extents Sample.small_bsdiff <> []
    /\ Write_iteration Sample.test_env Sample.small_bsdiff Sample.small_applier
         refusing_sys = Done (None, dp') y'
    /\ trace y'
       = EvExitBlocked true
         :: EvCall (PrefsSetInt64 kPrefsUpdateStateNextOperation
                      kUpdateStateOperationInvalid) Sample.failed_response
         :: rest
    /\ r_ok Sample.failed_response = false
    /\ In (EvCall (SynchronousExec cmd) r) rest
    /\ r_ok r = true
    /\ In (EvCall (PWriteAll (-1) [x00; x00; x00] 3 21) Sample.ok_response) rest
    /\ Sample.tw_disk (world y') <> Sample.tw_disk (world refusing_sys)
    /\ GetInt64 (interrupted_prefs (world refusing_sys))
         kPrefsUpdateStateNextOperation = Some 5
    /\ GetInt64 (interrupted_prefs (world y')) kPrefsUpdateStateNextOperation
       = Some 5
    /\ CanResumeUpdate (interrupted_prefs (world y')) "hash" = true.
Proof.
  eexists _, _, _, _, _.
  split; [discriminate|].
  split; [vm_compute; reflexivity|].
  split; [reflexivity|].
  split; [reflexivity|].
  split; [cbn [In]; do 4 right; left; reflexivity|].
  split; [reflexivity|].
  split; [cbn [In]; do 5 right; left; reflexivity|].
  split; [vm_compute; discriminate|].
  split; [reflexivity|].
  split; reflexivity.
Qed.

(** ** Checkpointing: a failed preference write *)

Section Checkpoint.

Variable E : Env.

Ltac all_reset_or_ok :=
  repeat (apply Forall_cons; [first [left; reflexivity | right; assumption]|]);
  apply Forall_nil.

(** The calls of a checkpoint: a prefix of the fixed order that stops at
    the first failed write other than the invalidating one. *)
Lemma CheckpointUpdateProgress_calls dp y :
  wpt (CheckpointUpdateProgress E dp)
    (fun r events _ =>
       exists front c rx n,
         events = EvExitBlocked true :: front ++ [EvCall c rx]
         /\ map event_call (front ++ [EvCall c rx])
            = map Some (firstn n (checkpoint_calls E dp))
         /\ Forall reset_or_ok front
         /\ fst r = r_ok rx
         /\ (fst r = true ->
             map event_call (front ++ [EvCall c rx])
             = map Some (checkpoint_calls E dp))) y.
Proof.
  unfold CheckpointUpdateProgress, ResetUpdateProgress, checkpoint_calls.
  destruct (last_updated_buffer_offset_ dp =? buffer_offset_ dp) eqn:Heq;
    cbn [negb app].
  - apply wpt_bind, wpt_set_exit_blocked, wpt_bind, wpt_call.
    destruct (r_ok (answer _ _)) eqn:Hr; cbn [negb]; apply wpt_ret;
      eexists [], _, _, 1%nat; cbn [app fst snd firstn map event_call];
      (split; [reflexivity|]); (split; [reflexivity|]);
      (split; [constructor|]); (split; [symmetry; exact Hr|]).
    + intros _. reflexivity.
    + intros Hf. discriminate.
  - apply wpt_bind, wpt_set_exit_blocked, wpt_bind, wpt_bind, wpt_call.
    apply wpt_ret, wpt_bind, wpt_call.
    destruct (r_ok (answer _ (PrefsSetString _ _))) eqn:Hr1; cbn [negb].
    2:{ apply wpt_ret. eexists [_], _, _, 2%nat.
        cbn [app fst snd firstn map event_call].
        split; [reflexivity|]. split; [reflexivity|].
        split; [all_reset_or_ok|].
        split; [symmetry; exact Hr1 | discriminate]. }
    apply wpt_bind, wpt_call.
    destruct (r_ok (answer _ (PrefsSetInt64 kPrefsUpdateStateNextDataOffset _)))
      eqn:Hr2; cbn [negb].
    2:{ apply wpt_ret. eexists [_; _], _, _, 3%nat.
        cbn [app fst snd firstn map event_call].
        split; [reflexivity|]. split; [reflexivity|].
        split; [all_reset_or_ok|].
        split; [symmetry; exact Hr2 | discriminate]. }
    apply wpt_bind, wpt_call.
    destruct (r_ok (answer _ (PrefsSetInt64 kPrefsUpdateStateNextOperation _)))
      eqn:Hr3; cbn [negb]; apply wpt_ret; eexists [_; _; _], _, _, 4%nat;
      cbn [app fst snd firstn map event_call];
      (split; [reflexivity|]); (split; [reflexivity|]);
      (split; [all_reset_or_ok|]);
      (split; [symmetry; exact Hr3|]).
    + intros _. reflexivity.
    + discriminate.
Qed.

(** A checkpoint always returns: it has no check to die on. *)
Lemma CheckpointUpdateProgress_total dp y :
  exists ok dp' y', CheckpointUpdateProgress E dp y = Done (ok, dp') y'.
Proof.
  unfold CheckpointUpdateProgress, ResetUpdateProgress, bind.
  cbn [set_exit_blocked].
  destruct (negb _);
    repeat first
      [ rewrite call_eq
      | progress cbn beta iota delta [ret]
      | match goal with
        | |- context [if negb (r_ok ?r) then _ else _] => destruct (negb (r_ok r))
        end ];
    unfold ret; eauto.
Qed.

Lemma after_operation_continues dp1 y :
  wp (after_operation E (true, dp1)) (fun r _ => fst r = None) y.
Proof.
  unfold after_operation. cbn [negb].
  apply wp_bind, wp_any. intros [ok dp2] y1. wp_walk. reflexivity.
Qed.

Lemma Write_loop_returns fuel count dp y :
  wp (Write_loop E fuel count dp)
     (fun r _ => fst r = to_int64 count \/ fst r = - EINVAL) y.
Proof.
  revert dp y. induction fuel as [|fuel IH]; intros dp y; simpl.
  - wp_walk; left; reflexivity.
  - destruct (_ <? _); [|apply wp_ret; left; reflexivity].
    destruct (negb _); [apply wp_ret; left; reflexivity|].
    apply wp_bind. unfold Write_iteration.
    apply wp_bind, wp_any. intros [] y1.
    apply wp_bind, wp_any. intros [ok dp1] y2.
    destruct ok.
    + eapply wp_conseq; [apply after_operation_continues|].
      intros [rv dp2] y3 Hrv. simpl in Hrv. subst rv. apply IH.
    + unfold after_operation. cbn [negb]. wp_walk. right. reflexivity.
Qed.

(** A turn of the loop makes Write return only after an operation that
    returned false. *)
Lemma Write_iteration_exit op dp y rv dp' y' :
  Write_iteration E op dp y = Done (Some rv, dp') y' ->
  rv = - EINVAL
  /\ exists y0 y1,
       pre_operation E op y = Done tt y0
       /\ perform_operation E op
            (size_of (install_operations (manifest_ dp)) <=? next_operation_num_ dp)
            dp y0 = Done (false, dp') y1
       /\ y' = released y1.
Proof.
  unfold Write_iteration. intros H.
  apply bind_inv in H. destruct H as ([] & y0 & Hpre & H).
  apply bind_inv in H. destruct H as ([ok dp1] & y1 & Hop & H).
  destruct ok.
  - pose proof (wp_Done (after_operation_continues dp1 y1) H) as Hn.
    discriminate Hn.
  - unfold after_operation in H. cbn [negb] in H.
    unfold bind, set_exit_blocked, ret in H. injection H as <- <- <-.
    split; [reflexivity|]. exists y0, y1.
    split; [exact Hpre|]. split; [exact Hop | reflexivity].
Qed.

(** How the loop of Write ends: with the byte count, after turns that all
    went well, or with -EINVAL from the turn after such turns. *)
Lemma Write_loop_exit fuel count :
  forall dp y rv dp' y',
    Write_loop E fuel count dp y = Done (rv, dp') y' ->
    (rv = to_int64 count /\ loop_reaches E dp y dp' y')
    \/ exists d z,
         loop_reaches E dp y d z
         /\ Write_iteration E (next_operation d) d z = Done (Some rv, dp') y'.
Proof.
  induction fuel as [|fuel IH]; intros dp y rv dp' y'; cbn [Write_loop].
  - destruct (_ <? _); [destruct (negb _); [|discriminate]|];
      intros H; injection H as <- <- <-; left;
      (split; [reflexivity | apply reaches_here]).
  - destruct (Z.ltb_spec (next_operation_num_ dp) (total_operations dp)) as [Hlt|_];
      [destruct (CanPerformInstallOperation E dp (next_operation dp)) eqn:Hcan;
       cbn [negb]|];
      try (intros H; injection H as <- <- <-; left;
           (split; [reflexivity | apply reaches_here])).
    intros H. apply bind_inv in H. destruct H as ([r dp1] & y1 & Hturn & H).
    destruct r as [e|].
    + injection H as <- <- <-. right. exists dp, y.
      split; [apply reaches_here | exact Hturn].
    + destruct (IH _ _ _ _ _ H) as [[Hrv Hreach]|(d & z & Hreach & Hfail)].
      * left. split; [exact Hrv|].
        exact (reaches_turn E dp y dp1 y1 dp' y' Hlt Hcan Hturn Hreach).
      * right. exists d, z. split; [|exact Hfail].
        exact (reaches_turn E dp y dp1 y1 d z Hlt Hcan Hturn Hreach).
Qed.


End Checkpoint.



(** ** A data offset that lies behind the buffer *)

Section Regression.

Variable E : Env.

Lemma next_operation_append dp bytes :
  next_operation (append_buffer dp bytes) = next_operation dp.
Proof. reflexivity. Qed.

(** With the manifest parsed, an operation pending that is not a MOVE and
    whose data_offset is below buffer_offset_, Write only appends to the
    buffer and returns the byte count. *)
Lemma Write_stalls_on_regression bytes dp y :
  manifest_valid_ dp = true ->
  next_operation_num_ dp < total_operations dp ->
  op_type (next_operation dp) <> MOVE ->
  data_offset (next_operation dp) < buffer_offset_ dp ->
  Write E bytes dp y = Done (to_int64 (size_of bytes), append_buffer dp bytes) y.
Proof.
  intros Hv Hn Ht Hr. unfold Write. fold (append_buffer dp bytes).
  replace (manifest_valid_ (append_buffer dp bytes)) with true by (symmetry; exact Hv).
  cbn [negb].
  assert (Hloop : forall fuel,
             Write_loop E fuel (size_of bytes) (append_buffer dp bytes) y
             = Done (to_int64 (size_of bytes), append_buffer dp bytes) y).
  { intros fuel.
    assert (Hlt : (next_operation_num_ (append_buffer dp bytes)
                   <? total_operations (append_buffer dp bytes)) = true)
      by (apply Z.ltb_lt; exact Hn).
    assert (Hcan : CanPerformInstallOperation E (append_buffer dp bytes)
                     (next_operation (append_buffer dp bytes)) = false).
    { rewrite next_operation_append. unfold CanPerformInstallOperation.
      destruct (op_type (next_operation dp)); try contradiction; cbn;
        (replace (data_offset (next_operation dp) <? buffer_offset_ dp) with true
          by (symmetry; apply Z.ltb_lt; exact Hr)); reflexivity. }
    destruct fuel; cbn [Write_loop]; rewrite Hlt, Hcan; reflexivity. }
  apply Hloop.
Qed.

End Regression.

(** C3 on a concrete payload: the manifest has two REPLACE operations, the
    second with data_offset 2 although the first consumes 4 bytes.  The
    Write call that executes the first operation meets the second with
    data_offset 2 < buffer_offset_ 4 and returns the accepted byte count 29,
    not a negative errno; every later Write does the same. *)
Lemma Write_regression_returns_count :
  exists dp y,
    Write Sample.test_env Sample.regress_payload new_DeltaPerformer
      (Sample.test_sys [] true) = Done (29, dp) y
    /\ size_of Sample.regress_payload = 29
    /\ next_operation_num_ dp = 1
    /\ op_type (next_operation dp) = REPLACE
    /\ data_offset (next_operation dp) = 2
    /\ buffer_offset_ dp = 4
    /\ forall more y',
         Z.of_nat (List.length more) < two63 ->
         Write Sample.test_env more dp y'
         = Done (size_of more, append_buffer dp more) y'.
Proof.
  eexists _, _. split; [vm_compute; reflexivity|].
  repeat (split; [reflexivity|]).
  intros more y' Hlen.
  rewrite Write_stalls_on_regression; try reflexivity; try discriminate.
  rewrite to_int64_small; [reflexivity|].
  unfold size_of. rewrite two63_eq in *. lia.
Qed.

(** ** What Write consumes: bytes leave the buffer only through the hash *)

Section Consumption.

Variable E : Env.

Lemma size_of_nonneg {A} (l : list A) : 0 <= size_of l.
Proof. unfold size_of. lia. Qed.

Lemma size_of_app {A} (a b : list A) : size_of (a ++ b) = size_of a + size_of b.
Proof. unfold size_of. rewrite length_app. lia. Qed.

Lemma consumed_refl dp : consumed 0 0 dp dp.
Proof.
  unfold consumed. simpl. rewrite app_nil_r.
  repeat split; try reflexivity; lia.
Qed.

Lemma consumed_trans n1 k1 n2 k2 a b c :
  consumed n1 k1 a b -> consumed n2 k2 b c -> consumed (n1 + n2) (k1 + k2) a c.
Proof.
  unfold consumed.
  intros (Hn1 & Hb1 & Hh1 & Ho1 & Hx1 & Hm1 & Hv1 & Hs1)
         (Hn2 & Hb2 & Hh2 & Ho2 & Hx2 & Hm2 & Hv2 & Hs2).
  rewrite Hb1 in Hn2, Hb2, Hh2. rewrite length_skipn in Hn2.
  repeat split; try congruence; try lia.
  - rewrite Hb2, skipn_skipn. f_equal. lia.
  - rewrite Hh2, Hh1, <- app_assoc. f_equal.
    rewrite <- (firstn_skipn n1 (firstn (n1 + n2) (buffer_ a))).
    rewrite firstn_firstn, skipn_firstn_comm.
    replace (Nat.min n1 (n1 + n2)) with n1 by lia.
    replace (n1 + n2 - n1)%nat with n2 by lia. reflexivity.
Qed.

Lemma consumed_in_range n k dp dp' :
  in_range dp -> consumed n k dp dp' -> in_range dp'.
Proof.
  unfold in_range, consumed, size_of.
  intros (H0 & H1 & H2) (Hn & Hb & _ & Ho & _ & Hm & _).
  rewrite Ho, Hb, Hm, length_skipn. split; [lia|]. split; [lia | exact H2].
Qed.

Lemma discard_consumed dp dl :
  0 <= dl <= size_of (buffer_ dp) ->
  0 <= buffer_offset_ dp ->
  buffer_offset_ dp + size_of (buffer_ dp) < two64 ->
  consumed (Z.to_nat dl) 0 dp
    (DiscardBufferHeadBytes dl
       (set_buffer_offset dp (wrap64 (buffer_offset_ dp + dl)))).
Proof.
  unfold consumed, size_of. intros Hdl Hbo Hlt. cbn.
  rewrite wrap64_small by lia.
  repeat split; try reflexivity; lia.
Qed.

Lemma ExtractSignatureMessage_consumed op dp y :
  wp (ExtractSignatureMessage E op dp) (fun r _ => consumed 0 0 dp (snd r)) y.
Proof.
  unfold ExtractSignatureMessage. wp_walk; cbn [snd]; try apply consumed_refl.
  unfold consumed. cbn. rewrite app_nil_r. repeat split; try reflexivity; lia.
Qed.

Lemma PerformReplaceOperation_consumed op k dp y :
  wf_operation op -> in_range dp ->
  wp (PerformReplaceOperation E op k dp)
     (fun r _ => exists n, consumed n 0 dp (snd r)) y.
Proof.
  intros Hop (Hbo & Hlt & Hwf). unfold PerformReplaceOperation.
  destruct (op_type op); try apply wp_abort.
  all: wp_step; [apply wp_abort|].
  all: wp_step; [apply wp_abort|].
  all: apply wp_bind.
  all: eapply wp_conseq; [apply ExtractSignatureMessage_consumed|].
  all: intros [b dp1] y1 Hf; cbn [snd] in Hf.
  all: wp_walk; cbn [snd]; try (exists 0%nat; exact Hf).
  all: exists (0 + Z.to_nat (data_length op))%nat.
  all: change 0 with (0 + 0) at 1; eapply consumed_trans; [exact Hf|].
  all: destruct Hf as (_ & Hb & _ & Ho & _); cbn in Hb, Ho.
  all: apply discard_consumed; rewrite ?Hb, ?Ho, ?Z.add_0_r; try assumption.
  all: apply negb_false_iff, Z.leb_le in Heqb0; split; [exact Hop | exact Heqb0].
Qed.

Lemma PerformMoveOperation_consumed op k dp y :
  wp (PerformMoveOperation E op k dp) (fun r _ => consumed 0 0 dp (snd r)) y.
Proof.
  unfold PerformMoveOperation.
  wp_step; [apply wp_abort|].
  apply wp_bind, wp_any. intros rd y1.
  destruct rd as [[buf bytes_read]|]; [|apply wp_ret; apply consumed_refl].
  apply wp_bind, wp_any. intros wr y2.
  wp_walk; apply consumed_refl.
Qed.

Lemma PerformBsdiffOperation_consumed op k dp y :
  wf_operation op -> in_range dp ->
  wp (PerformBsdiffOperation E op k dp)
     (fun r _ => exists n, consumed n 0 dp (snd r)) y.
Proof.
  intros Hop (Hbo & Hlt & Hwf). unfold PerformBsdiffOperation.
  repeat first [ wp_step
               | match goal with
                 | |- wp (zero_tail _ _ _ _) _ _ => apply wp_any; intros
                 end ].
  all: cbn [snd]; try (exists 0%nat; apply consumed_refl).
  all: exists (Z.to_nat (data_length op)).
  all: apply discard_consumed; try assumption.
  all: match goal with
       | H : negb (data_length _ <=? _) = false |- _ =>
           apply negb_false_iff, Z.leb_le in H; split; [exact Hop | exact H]
       end.
Qed.

Lemma perform_operation_consumed op k dp y :
  wf_operation op -> in_range dp ->
  wp (perform_operation E op k dp)
     (fun r _ => exists n, consumed n 0 dp (snd r)) y.
Proof.
  intros Hop Hr. unfold perform_operation. destruct (op_type op).
  - now apply PerformReplaceOperation_consumed.
  - now apply PerformReplaceOperation_consumed.
  - eapply wp_conseq; [apply PerformMoveOperation_consumed|].
    intros r y' H. now exists 0%nat.
  - now apply PerformBsdiffOperation_consumed.
Qed.

Lemma CheckpointUpdateProgress_consumed dp y :
  wp (CheckpointUpdateProgress E dp) (fun r _ => consumed 0 0 dp (snd r)) y.
Proof.
  unfold CheckpointUpdateProgress, ResetUpdateProgress.
  wp_walk; cbn [snd]; try apply consumed_refl.
  all: unfold consumed; cbn; rewrite app_nil_r; repeat split; try reflexivity; lia.
Qed.

Lemma after_operation_consumed ok dp y :
  wp (after_operation E (ok, dp))
     (fun r _ => fst r = (if ok then None else Some (- EINVAL))
                 /\ consumed 0 (if ok then 1 else 0) dp (snd r)) y.
Proof.
  unfold after_operation. destruct ok; cbn [negb].
  - apply wp_bind.
    eapply wp_conseq; [apply CheckpointUpdateProgress_consumed|].
    intros [ok2 dp2] y1 Hc. cbn [snd] in Hc. wp_walk. cbn [fst snd].
    split; [reflexivity|].
    change 0%nat with (0 + 0)%nat. change 1 with (1 + 0).
    eapply consumed_trans; [|exact Hc].
    unfold consumed. cbn. rewrite app_nil_r. repeat split; try reflexivity; lia.
  - wp_walk. cbn [fst snd]. split; [reflexivity | apply consumed_refl].
Qed.

Lemma Write_iteration_consumed op dp y :
  wf_operation op -> in_range dp ->
  wp (Write_iteration E op dp)
     (fun r _ => (fst r = None \/ fst r = Some (- EINVAL))
                 /\ exists n,
                      consumed n (match fst r with None => 1 | Some _ => 0 end)
                        dp (snd r)) y.
Proof.
  intros Hop Hr. unfold Write_iteration.
  apply wp_bind, wp_any. intros [] y1.
  apply wp_bind.
  eapply wp_conseq; [apply (perform_operation_consumed op _ dp y1 Hop Hr)|].
  intros [ok dp1] y2 [n Hn]. cbn [snd] in Hn.
  eapply wp_conseq; [apply after_operation_consumed|].
  intros [rv dp2] y3 [Hrv Hc]. cbn [fst snd] in *. subst rv.
  split; [destruct ok; auto|].
  exists (n + 0)%nat.
  destruct ok.
  - change 1 with (0 + 1). eapply consumed_trans; eassumption.
  - change 0 with (0 + 0). eapply consumed_trans; eassumption.
Qed.

Lemma nth_wf ops n :
  Forall wf_operation ops -> wf_operation (nth n ops default_operation).
Proof.
  intros H. revert n. induction H as [|op rest Hop _ IH]; intros n.
  - destruct n; unfold wf_operation; simpl; lia.
  - destruct n; [exact Hop | apply IH].
Qed.

Lemma next_operation_wf dp :
  wf_manifest (manifest_ dp) -> wf_operation (next_operation dp).
Proof.
  intros [H1 H2]. unfold next_operation.
  destruct (_ <? _); apply nth_wf; assumption.
Qed.

Lemma consumed_next_operation n k dp dp' :
  consumed n k dp dp' -> total_operations dp' = total_operations dp.
Proof.
  intros (_ & _ & _ & _ & _ & Hm & _). unfold total_operations. now rewrite Hm.
Qed.

Lemma Write_loop_consumed fuel count dp y :
  in_range dp ->
  wp (Write_loop E fuel count dp)
     (fun r _ => (fst r = to_int64 count \/ fst r = - EINVAL)
                 /\ exists n k, 0 <= k /\ consumed n k dp (snd r)) y.
Proof.
  revert dp y. induction fuel as [|fuel IH]; intros dp y Hr; cbn [Write_loop].
  - wp_walk; cbn [fst snd]; (split; [left; reflexivity|]);
      exists 0%nat, 0; (split; [lia | apply consumed_refl]).
  - wp_step; [|apply wp_ret; cbn [fst snd]; split; [left; reflexivity|];
               exists 0%nat, 0; split; [lia | apply consumed_refl]].
    wp_step; [apply wp_ret; cbn [fst snd]; split; [left; reflexivity|];
              exists 0%nat, 0; split; [lia | apply consumed_refl]|].
    apply wp_bind.
    eapply wp_conseq;
      [apply Write_iteration_consumed;
       [apply next_operation_wf; apply Hr | exact Hr]|].
    intros [rv dp1] y1 [Hrv [n Hc]]. cbn [fst snd] in *.
    destruct rv as [e|].
    + apply wp_ret. cbn [fst snd]. destruct Hrv as [Hrv|Hrv]; [discriminate|].
      injection Hrv as ->. split; [right; reflexivity|].
      exists n, 0. split; [lia | exact Hc].
    + eapply wp_conseq; [apply IH; eapply consumed_in_range; eassumption|].
      intros [rv2 dp2] y2 [Hrv2 (n2 & k2 & Hk2 & Hc2)]. cbn [fst snd] in *.
      split; [exact Hrv2|].
      exists (n + n2)%nat, (1 + k2). split; [lia|].
      eapply consumed_trans; eassumption.
Qed.

End Consumption.

(** ** The hash covers exactly what left the buffer *)

Section HashCoverage.

Variable E : Env.

Lemma hash_covers_append stream dp bytes :
  hash_covers stream dp ->
  hash_covers (stream ++ bytes) (set_buffer dp (buffer_ dp ++ bytes)).
Proof.
  unfold hash_covers. intros (Hs & Hl & Hm & Hb & Hv & Hwf). cbn.
  rewrite app_assoc, Hs. split; [reflexivity|]. tauto.
Qed.

Lemma hash_covers_in_range stream dp :
  hash_covers stream dp -> size_of stream < two64 -> in_range dp.
Proof.
  unfold hash_covers, in_range. intros (Hs & Hl & Hm & Hb & Hv & Hwf) Hlt.
  rewrite <- Hs, size_of_app in Hlt.
  split; [exact Hb|]. split; [lia | exact Hwf].
Qed.

Lemma hash_covers_consumed stream n k dp dp' :
  hash_covers stream dp -> consumed n k dp dp' -> hash_covers stream dp'.
Proof.
  unfold hash_covers, consumed.
  intros (Hs & Hl & Hm & Hb & Hv & Hwf)
         (Hn & Hbuf & Hh & Ho & _ & Hman & Hval & Hmms).
  rewrite Hbuf, Hh, Ho, Hman, Hval, Hmms.
  split; [|split; [|split; [|split; [|split]]]]; try assumption; try lia.
  - rewrite <- app_assoc, firstn_skipn. exact Hs.
  - rewrite size_of_app. unfold size_of at 2. rewrite length_firstn.
    rewrite Nat.min_l by exact Hn. lia.
Qed.

Lemma hash_covers_prefix stream dp :
  hash_covers stream dp ->
  let n := Z.to_nat (manifest_metadata_size_ dp + buffer_offset_ dp) in
  hc_bytes (hash_calculator_ dp) = firstn n stream
  /\ buffer_ dp = skipn n stream.
Proof.
  intros H n. destruct H as (Hs & Hl & Hm & Hb & _). unfold size_of in Hl.
  assert (Hn : n = List.length (hc_bytes (hash_calculator_ dp))) by (unfold n; lia).
  rewrite <- Hs, Hn. split.
  - rewrite firstn_app, Nat.sub_diag, firstn_all. cbn. now rewrite app_nil_r.
  - rewrite skipn_app, Nat.sub_diag, skipn_all. reflexivity.
Qed.

Lemma Write_manifest_covers stream dp y :
  parser_wf E -> manifest_valid_ dp = false -> hash_covers stream dp ->
  wp (Write_manifest E dp)
     (fun st _ => match st with
                  | NeedMoreData => True
                  | ParseError dp' => hash_covers stream dp' /\ manifest_valid_ dp' = false
                  | Parsed dp' => hash_covers stream dp'
                  end) y.
Proof.
  intros Hparse Hvalid (Hs & Hl & Hm & Hb & Hv & Hwf). unfold Write_manifest.
  wp_step; [apply wp_ret; exact I|].
  wp_step; [apply wp_ret; exact I|].
  match goal with
  | |- wp (let '(_, _) := ParseFromArray E ?d ?n in _) _ _ =>
      pose proof (Hparse d n) as Hm'; destruct (ParseFromArray E d n) as [ok m]
  end.
  cbn [snd] in Hm'.
  wp_step.
  - apply wp_ret. split; [|exact Hvalid].
    unfold hash_covers. cbn. tauto.
  - wp_walk. unfold hash_covers. cbn.
    set (mms := wrap64 (header_size + read_protobuf_length (buffer_ dp))) in *.
    pose proof (wrap64_range (header_size + read_protobuf_length (buffer_ dp))) as Hr.
    fold mms in Hr.
    match goal with
    | H : (size_of (buffer_ dp) <? mms) = false |- _ => apply Z.ltb_ge in H; rename H into Hge
    end.
    split; [|split; [|split; [|split; [|split]]]]; try assumption; try lia.
    + rewrite <- app_assoc, firstn_skipn. exact Hs.
    + rewrite size_of_app. unfold size_of at 2. rewrite length_firstn.
      unfold size_of in Hge. rewrite Nat.min_l by lia.
      rewrite (Hv Hvalid) in Hl. fold (size_of (hc_bytes (hash_calculator_ dp))). lia.
Qed.

Lemma Write_iteration_covers stream dp y :
  hash_covers stream dp -> size_of stream < two64 ->
  wp (Write_iteration E (next_operation dp) dp)
     (fun r _ => hash_covers stream (snd r)) y.
Proof.
  intros Hc Hlt.
  pose proof (hash_covers_in_range stream dp Hc Hlt) as Hr.
  eapply wp_conseq;
    [apply Write_iteration_consumed; [apply next_operation_wf, Hr | exact Hr]|].
  intros r y' [_ [n Hn]]. eapply hash_covers_consumed; eassumption.
Qed.

Lemma Write_loop_covers stream fuel count dp y :
  hash_covers stream dp -> size_of stream < two64 ->
  wp (Write_loop E fuel count dp) (fun r _ => hash_covers stream (snd r)) y.
Proof.
  intros Hc Hlt.
  eapply wp_conseq;
    [apply Write_loop_consumed, (hash_covers_in_range stream dp Hc Hlt)|].
  intros r y' [_ (n & k & _ & Hn)]. eapply hash_covers_consumed; eassumption.
Qed.

Lemma Write_covers stream bytes dp y :
  parser_wf E -> hash_covers stream dp -> size_of (stream ++ bytes) < two64 ->
  wp (Write E bytes dp) (fun r _ => hash_covers (stream ++ bytes) (snd r)) y.
Proof.
  intros Hparse Hc Hlt. unfold Write.
  pose proof (hash_covers_append stream dp bytes Hc) as Ha.
  set (dpa := set_buffer dp (buffer_ dp ++ bytes)) in *.
  destruct (manifest_valid_ dpa) eqn:Hvalid; cbn [negb].
  - now apply Write_loop_covers.
  - apply wp_bind.
    eapply wp_conseq; [apply (Write_manifest_covers _ dpa y Hparse Hvalid Ha)|].
    intros st y1 Hst. destruct st as [|dp1|dp1].
    + apply wp_ret. exact Ha.
    + apply wp_ret. apply Hst.
    + now apply Write_loop_covers.
Qed.

Lemma new_DeltaPerformer_covers : hash_covers [] new_DeltaPerformer.
Proof.
  unfold hash_covers. cbn.
  split; [reflexivity|]. split; [reflexivity|]. split; [lia|]. split; [lia|].
  split; [reflexivity|]. split; constructor.
Qed.

(** C9: the hash-coverage invariant holds for a fresh applier, and every
    Write that returns (with the byte count or with an error) re-establishes
    it for the stream extended by the bytes just fed: the calculator has
    absorbed exactly the first manifest_metadata_size_ + buffer_offset_
    bytes of the stream and the rest of the stream is the buffer, so every
    byte that left the buffer was hashed once, in order, and nothing else
    was.  The invariant also holds after the manifest step and after each
    turn of the operation loop.  (The parser yields unsigned byte counts and
    the stream is shorter than 2^64 bytes.) *)
Theorem hash_covers_consumed_prefix :
  parser_wf E ->
  hash_covers [] new_DeltaPerformer
  /\ (forall stream bytes dp y rv dp' y',
        hash_covers stream dp ->
        size_of (stream ++ bytes) < two64 ->
        Write E bytes dp y = Done (rv, dp') y' ->
        let consumed_length :=
          Z.to_nat (manifest_metadata_size_ dp' + buffer_offset_ dp') in
        hash_covers (stream ++ bytes) dp'
        /\ hc_bytes (hash_calculator_ dp') = firstn consumed_length (stream ++ bytes)
        /\ buffer_ dp' = skipn consumed_length (stream ++ bytes))
  /\ (forall stream dp y st y',
        hash_covers stream dp -> manifest_valid_ dp = false ->
        Write_manifest E dp y = Done st y' ->
        forall dp', st = ParseError dp' \/ st = Parsed dp' -> hash_covers stream dp')
  /\ (forall stream dp y r y',
        hash_covers stream dp -> size_of stream < two64 ->
        Write_iteration E (next_operation dp) dp y = Done r y' ->
        hash_covers stream (snd r)).
Proof.
  intros Hparse. split; [exact new_DeltaPerformer_covers|]. split; [|split].
  - intros stream bytes dp y rv dp' y' Hc Hlt Hrun n.
    pose proof (wp_Done (Write_covers stream bytes dp y Hparse Hc Hlt) Hrun) as H.
    cbn [snd] in H. split; [exact H|]. apply hash_covers_prefix, H.
  - intros stream dp y st y' Hc Hv Hrun dp' Hst.
    pose proof (wp_Done (Write_manifest_covers stream dp y Hparse Hv Hc) Hrun) as H.
    destruct Hst as [-> | ->]; [apply H | exact H].
  - intros stream dp y r y' Hc Hlt Hrun.
    exact (wp_Done (Write_iteration_covers stream dp y Hc Hlt) Hrun).
Qed.

End HashCoverage.

Lemma Sample_parser_wf : parser_wf Sample.test_env.
Proof.
  intros data size. cbn [ParseFromArray Sample.test_env]. unfold Sample.test_parse.
  destruct data as [|b [|b' l]]; [split; constructor | |];
    destruct b; cbn [snd];
    (split; repeat constructor; unfold wf_operation; cbn; lia).
Qed.

Lemma Sample_parser_fits : parser_fits Sample.test_env.
Proof.
  intros data size. cbn [ParseFromArray Sample.test_env]. unfold Sample.test_parse.
  destruct data as [|b [|b' l]]; [split; constructor | |];
    destruct b; cbn [snd];
    (split; repeat constructor; unfold blob_end_fits; cbn; lia).
Qed.

Lemma hash_covers_consumed_prefix_witness :
  exists rv dp' y',
    Write Sample.test_env (Sample.replace_payload Sample.good_magic)
      new_DeltaPerformer (Sample.test_sys [] true) = Done (rv, dp') y'
    /\ hc_bytes (hash_calculator_ dp')
       = firstn (Z.to_nat (manifest_metadata_size_ dp' + buffer_offset_ dp'))
           (Sample.replace_payload Sample.good_magic)
    /\ manifest_metadata_size_ dp' + buffer_offset_ dp' = 25.
Proof.
  eexists _, _, _. split; [vm_compute; reflexivity|]. split; [|reflexivity].
  refine (proj1 (proj2 (proj1 (proj2
    (hash_covers_consumed_prefix Sample.test_env Sample_parser_wf))
    [] (Sample.replace_payload Sample.good_magic) new_DeltaPerformer
    (Sample.test_sys [] true) _ _ _ _ _ _))).
  - exact (proj1 (hash_covers_consumed_prefix Sample.test_env Sample_parser_wf)).
  - vm_compute. reflexivity.
  - vm_compute. reflexivity.
Defined.

(** ** The manifest step never looks at the magic *)

Section Magic.

Variable E : Env.

Lemma skipn_prefix {A} (p rest : list A) n :
  List.length p = n -> skipn n (p ++ rest) = rest.
Proof.
  intros <-. rewrite skipn_app, skipn_all, Nat.sub_diag. reflexivity.
Qed.

Lemma skipn_prefix_more {A} (p rest : list A) n k :
  List.length p = n -> skipn (n + k) (p ++ rest) = skipn k rest.
Proof.
  intros H. rewrite Nat.add_comm, <- skipn_skipn.
  now rewrite (skipn_prefix p rest n H).
Qed.

Lemma Write_manifest_prefix dp y p rest :
  List.length p = 12%nat ->
  let size := 12 + size_of rest in
  let protobuf_length := be64 (firstn 8 rest) in
  let n := to_int32 protobuf_length in
  let parse := ParseFromArray E (firstn (Z.to_nat n) (skipn 8 rest)) n in
  let mms := wrap64 (header_size + protobuf_length) in
  exists st,
    Write_manifest E (set_buffer dp (p ++ rest)) y
    = Done st (if (size <? header_size) || (size <? mms) || negb (fst parse)
               then y
               else answered y (PrefsSetInt64 kPrefsManifestMetadataSize (to_int64 mms)))
    /\ manifest_outcome st
       = if (size <? header_size) || (size <? mms) then None
         else Some (fst parse, snd parse, if fst parse then mms else manifest_metadata_size_ dp).
Proof.
  intros Hp size protobuf_length n parse mms.
  unfold Write_manifest. cbn [buffer_ set_buffer].
  assert (Hsz : size_of (p ++ rest) = size)
    by (unfold size; rewrite size_of_app; unfold size_of at 1; rewrite Hp; reflexivity).
  assert (Hlen : read_protobuf_length (p ++ rest) = protobuf_length).
  { unfold read_protobuf_length.
    change (Z.to_nat (Z.of_nat (String.length kDeltaMagic) + kDeltaVersionLength))
      with 12%nat.
    rewrite (skipn_prefix p rest 12 Hp). reflexivity. }
  assert (Hdata : skipn (Z.to_nat header_size) (p ++ rest) = skipn 8 rest).
  { change (Z.to_nat header_size) with (12 + 8)%nat.
    apply skipn_prefix_more, Hp. }
  rewrite Hsz, Hlen, Hdata. fold mms. fold n. fold parse.
  destruct (size <? header_size); [eexists; split; reflexivity|].
  destruct (size <? mms); [eexists; split; reflexivity|].
  cbn [orb]. destruct parse as [ok m]. cbn [fst snd]. destruct ok; cbn [negb].
  - unfold bind. rewrite call_eq. eexists. split; reflexivity.
  - eexists. split; reflexivity.
Qed.

(** C4 (amended): Write never examines the magic (nor the version): for two
    buffers that differ only in their first 12 bytes, the manifest step of
    Write makes the same decision (more data needed, parse error, or
    parsed), installs the same manifest and metadata size, and leaves the
    same system behind.  Only the buffer length, the 8 length bytes at
    offset 12 and ParseFromArray on the protobuf bytes decide; a stream with
    a wrong magic and a well-formed rest is parsed and applied. *)
Theorem Write_manifest_ignores_magic :
  forall dp y prefix1 prefix2 rest,
    List.length prefix1 = 12%nat -> List.length prefix2 = 12%nat ->
    exists st1 st2 y',
      Write_manifest E (set_buffer dp (prefix1 ++ rest)) y = Done st1 y'
      /\ Write_manifest E (set_buffer dp (prefix2 ++ rest)) y = Done st2 y'
      /\ manifest_outcome st1 = manifest_outcome st2
      /\ (forall dp1, st1 = ParseError dp1 ->
          let n := to_int32 (be64 (firstn 8 rest)) in
          fst (ParseFromArray E (firstn (Z.to_nat n) (skipn 8 rest)) n) = false).
Proof.
  intros dp y p1 p2 rest H1 H2.
  destruct (Write_manifest_prefix dp y p1 rest H1) as (st1 & Hr1 & Ho1).
  destruct (Write_manifest_prefix dp y p2 rest H2) as (st2 & Hr2 & Ho2).
  exists st1, st2. eexists. split; [exact Hr1|]. split; [exact Hr2|].
  split; [congruence|].
  intros dp1 -> n. cbn [manifest_outcome] in Ho1. fold n in Ho1.
  match type of Ho1 with
  | _ = (if ?c then _ else _) => destruct c; [discriminate|]
  end.
  injection Ho1 as Hf _ _. symmetry. exact Hf.
Qed.

End Magic.

Lemma Write_manifest_ignores_magic_witness :
  exists st1 st2 y',
    Write_manifest Sample.test_env
      (set_buffer new_DeltaPerformer
         ((Sample.good_magic ++ [x00; x00; x00; x00; x00; x00; x00; x01])
            ++ [x00; x00; x00; x00; x00; x00; x00; x01; x03; x0a]))
      (Sample.test_sys [] true) = Done st1 y'
    /\ Write_manifest Sample.test_env
         (set_buffer new_DeltaPerformer
            ((Sample.bad_magic ++ [x00; x00; x00; x00; x00; x00; x00; x01])
               ++ [x00; x00; x00; x00; x00; x00; x00; x01; x03; x0a]))
         (Sample.test_sys [] true) = Done st2 y'
    /\ manifest_outcome st1 = manifest_outcome st2.
Proof.
  destruct (Write_manifest_ignores_magic Sample.test_env new_DeltaPerformer
              (Sample.test_sys [] true)
              (Sample.good_magic ++ [x00; x00; x00; x00; x00; x00; x00; x01])
              (Sample.bad_magic ++ [x00; x00; x00; x00; x00; x00; x00; x01])
              [x00; x00; x00; x00; x00; x00; x00; x01; x03; x0a]
              eq_refl eq_refl) as (st1 & st2 & y' & H1 & H2 & H3 & _).
  exists st1, st2, y'. auto.
Defined.

(** C4 as stated fails: the payload below starts with XXXX instead of the
    magic, the rest is well-formed; Write returns the byte count 26, the
    manifest is valid and its REPLACE operation has been applied. *)
Lemma bad_magic_accepted :
  firstn 4 (Sample.replace_payload Sample.bad_magic) <> list_byte_of_string kDeltaMagic
  /\ exists dp y,
       Write Sample.test_env (Sample.replace_payload Sample.bad_magic)
         new_DeltaPerformer (Sample.test_sys [] true) = Done (26, dp) y
       /\ manifest_valid_ dp = true
       /\ next_operation_num_ dp = 1
       /\ In (EvCall (WriterWrite [x0a; x0b; x0c; x0d] 4) Sample.ok_response) (trace y).
Proof.
  split; [discriminate|].
  eexists _, _. split; [vm_compute; reflexivity|].
  split; [reflexivity|]. split; [reflexivity|].
  vm_compute. tauto.
Qed.

(** ** More bytes behind the buffer do not change a step that can run *)

Section Frame.

Variable E : Env.

Lemma firstn_append {A} n (b c : list A) :
  (n <= List.length b)%nat -> firstn n (b ++ c) = firstn n b.
Proof.
  intros H. rewrite firstn_app.
  replace (n - List.length b)%nat with 0%nat by lia.
  cbn. apply app_nil_r.
Qed.

Lemma skipn_append {A} n (b c : list A) :
  (n <= List.length b)%nat -> skipn n (b ++ c) = skipn n b ++ c.
Proof.
  intros H. rewrite skipn_app.
  replace (n - List.length b)%nat with 0%nat by lia. reflexivity.
Qed.

Lemma discard_frame dp c dl v :
  dl <= size_of (buffer_ dp) ->
  DiscardBufferHeadBytes dl (set_buffer_offset (append_buffer dp c) v)
  = append_buffer (DiscardBufferHeadBytes dl (set_buffer_offset dp v)) c.
Proof.
  intros H. unfold size_of in H.
  unfold DiscardBufferHeadBytes, append_buffer. cbn.
  rewrite firstn_append, skipn_append by lia. reflexivity.
Qed.

Lemma with_extra_bind {A B} c (m m' : M E (A * DeltaPerformer))
    (k : A * DeltaPerformer -> M E (B * DeltaPerformer)) y :
  m' y = with_extra c (m y) ->
  (forall a dp1 y1, m y = Done (a, dp1) y1 ->
     k (a, append_buffer dp1 c) y1 = with_extra c (k (a, dp1) y1)) ->
  bind m' k y = with_extra c (bind m k y).
Proof.
  intros Hm Hk. unfold bind. rewrite Hm.
  destruct (m y) as [[a dp1] y1| |]; cbn [with_extra]; [|reflexivity..].
  now apply Hk.
Qed.

Lemma ExtractSignatureMessage_frame op dp c y :
  data_length op <= size_of (buffer_ dp) ->
  ExtractSignatureMessage E op (append_buffer dp c) y
  = with_extra c (ExtractSignatureMessage E op dp y).
Proof.
  intros Hdl. unfold ExtractSignatureMessage. fields.
  destruct (op_type op); try reflexivity.
  destruct (signatures_offset (manifest_ dp)) as [sig_offset|]; [|reflexivity].
  destruct (negb (sig_offset =? data_offset op)); [reflexivity|].
  destruct (signatures_size (manifest_ dp)) as [sig_size|]; [|reflexivity].
  destruct (Z.eqb_spec sig_size (data_length op)) as [->|]; cbn [negb]; [|reflexivity].
  destruct (signatures_message_data_ dp); [|reflexivity].
  destruct (negb (buffer_offset_ dp =? sig_offset)); [reflexivity|].
  assert (H1 : (data_length op <=? size_of (buffer_ dp)) = true) by (apply Z.leb_le; lia).
  assert (H2 : (data_length op <=? size_of (buffer_ dp ++ c)) = true).
  { apply Z.leb_le. rewrite size_of_app. pose proof (size_of_nonneg c). lia. }
  rewrite H1, H2. cbn [negb].
  unfold size_of in Hdl. rewrite firstn_append by lia.
  unfold bind. rewrite call_eq. cbn [with_extra ret]. fields. reflexivity.
Qed.

Lemma ExtractSignatureMessage_buffer op dp y b dp1 y1 :
  ExtractSignatureMessage E op dp y = Done (b, dp1) y1 ->
  buffer_ dp1 = buffer_ dp /\ buffer_offset_ dp1 = buffer_offset_ dp.
Proof.
  intros H.
  pose proof (wp_Done (ExtractSignatureMessage_consumed E op dp y) H)
    as (_ & Hb & _ & Ho & _).
  cbn in Hb, Ho. split; [exact Hb | lia].
Qed.

(** Either the data of the operation is wholly in the shorter buffer, or
    it does not even fit the longer one. *)
Definition data_settled (op : InstallOperation) (dp : DeltaPerformer) (c : list byte)
    : Prop :=
  data_length op <= size_of (buffer_ dp)
  \/ size_of (buffer_ dp ++ c) < data_length op.

Lemma PerformReplaceOperation_frame op k dp c y :
  (buffer_offset_ dp = data_offset op -> data_settled op dp c) ->
  PerformReplaceOperation E op k (append_buffer dp c) y
  = with_extra c (PerformReplaceOperation E op k dp y).
Proof.
  intros Hset. unfold PerformReplaceOperation.
  destruct (op_type op) eqn:Ht; try reflexivity.
  all: change (buffer_offset_ (append_buffer dp c)) with (buffer_offset_ dp).
  all: destruct (Z.eqb_spec (buffer_offset_ dp) (data_offset op)) as [Heq|];
    cbn [negb]; [|reflexivity].
  all: change (buffer_ (append_buffer dp c)) with (buffer_ dp ++ c).
  all: destruct (Hset Heq) as [Hin|Hout];
    [ assert (H1 : (data_length op <=? size_of (buffer_ dp)) = true)
        by (apply Z.leb_le; lia);
      assert (H2 : (data_length op <=? size_of (buffer_ dp ++ c)) = true)
        by (apply Z.leb_le; rewrite size_of_app; pose proof (size_of_nonneg c); lia)
    | assert (H2 : (data_length op <=? size_of (buffer_ dp ++ c)) = false)
        by (apply Z.leb_gt; lia);
      assert (H1 : (data_length op <=? size_of (buffer_ dp)) = false)
        by (apply Z.leb_gt; rewrite size_of_app in Hout;
            pose proof (size_of_nonneg c); lia) ].
  all: rewrite H1, H2; cbn [negb]; try reflexivity.
  all: apply with_extra_bind; [apply ExtractSignatureMessage_frame, Hin|].
  all: intros b dp1 y1 Hex.
  all: destruct (ExtractSignatureMessage_buffer op dp y b dp1 y1 Hex) as [Hb Ho].
  all: change (fd_ (append_buffer dp1 c)) with (fd_ dp1).
  all: change (kernel_fd_ (append_buffer dp1 c)) with (kernel_fd_ dp1).
  all: change (block_size_ (append_buffer dp1 c)) with (block_size_ dp1).
  all: change (buffer_ (append_buffer dp1 c)) with (buffer_ dp1 ++ c).
  all: change (buffer_offset_ (append_buffer dp1 c)) with (buffer_offset_ dp1).
  all: rewrite firstn_append by (unfold size_of in Hin; rewrite Hb; lia).
  all: unfold bind; rewrite call_eq.
  all: destruct (negb (r_ok _)); [reflexivity|].
  all: rewrite call_eq.
  all: destruct (negb (r_ok _)); [reflexivity|].
  all: rewrite call_eq.
  all: destruct (negb (r_ok _)); [reflexivity|].
  all: cbn [ret with_extra]; rewrite discard_frame by (rewrite Hb; lia).
  all: reflexivity.
Qed.

Ltac settle Hset Heq c :=
  destruct (Hset Heq) as [Hin|Hout];
  [ assert (H1 : (data_length _ <=? size_of (buffer_ _)) = true)
      by (apply Z.leb_le; exact Hin);
    assert (H2 : (data_length _ <=? size_of (buffer_ _ ++ c)) = true)
      by (apply Z.leb_le; rewrite size_of_app; pose proof (size_of_nonneg c);
          unfold data_settled in *; lia)
  | assert (H2 : (data_length _ <=? size_of (buffer_ _ ++ c)) = false)
      by (apply Z.leb_gt; exact Hout);
    assert (H1 : (data_length _ <=? size_of (buffer_ _)) = false)
      by (apply Z.leb_gt; rewrite size_of_app in Hout;
          pose proof (size_of_nonneg c); lia) ].

Lemma PerformBsdiffOperation_frame op k dp c y :
  (buffer_offset_ dp = data_offset op -> data_settled op dp c) ->
  PerformBsdiffOperation E op k (append_buffer dp c) y
  = with_extra c (PerformBsdiffOperation E op k dp y).
Proof.
  intros Hset. unfold PerformBsdiffOperation.
  change (buffer_offset_ (append_buffer dp c)) with (buffer_offset_ dp).
  change (buffer_ (append_buffer dp c)) with (buffer_ dp ++ c).
  change (block_size_ (append_buffer dp c)) with (block_size_ dp).
  change (fd_ (append_buffer dp c)) with (fd_ dp).
  change (kernel_fd_ (append_buffer dp c)) with (kernel_fd_ dp).
  change (path_ (append_buffer dp c)) with (path_ dp).
  change (kernel_path_ (append_buffer dp c)) with (kernel_path_ dp).
  destruct (Z.eqb_spec (buffer_offset_ dp) (data_offset op)) as [Heq|];
    cbn [negb]; [|reflexivity].
  destruct (Hset Heq) as [Hin|Hout].
  2:{ assert (H2 : (data_length op <=? size_of (buffer_ dp ++ c)) = false)
        by (apply Z.leb_gt; exact Hout).
      assert (H1 : (data_length op <=? size_of (buffer_ dp)) = false)
        by (apply Z.leb_gt; rewrite size_of_app in Hout;
            pose proof (size_of_nonneg c); lia).
      rewrite H1, H2. reflexivity. }
  assert (H1 : (data_length op <=? size_of (buffer_ dp)) = true)
    by (apply Z.leb_le; exact Hin).
  assert (H2 : (data_length op <=? size_of (buffer_ dp ++ c)) = true)
    by (apply Z.leb_le; rewrite size_of_app; pose proof (size_of_nonneg c); lia).
  rewrite H1, H2. cbn [negb].
  destruct (ExtentsToBsdiffPositionsString (src_extents op) _ _); [|reflexivity].
  destruct (ExtentsToBsdiffPositionsString (dst_extents op) _ _); [|reflexivity].
  rewrite firstn_append by (unfold size_of in Hin; lia).
  unfold bind.
  repeat first
    [ rewrite call_eq
    | progress cbn [ret with_extra]
    | match goal with
      | |- context [if negb (r_ok ?r) then _ else _] => destruct (negb (r_ok r))
      | |- context [if negb (r_int ?r =? 0) then _ else _] =>
          destruct (negb (r_int r =? 0))
      | |- context [if 0 <=? ?x then _ else _] => destruct (0 <=? x)
      | |- context [zero_tail E ?a ?b ?d ?z] =>
          destruct (zero_tail E a b d z) as [[|] ?| |]
      end
    | progress cbn [negb]
    | progress unfold bind ].
  all: try reflexivity.
  all: rewrite discard_frame by exact Hin; reflexivity.
Qed.

Lemma PerformMoveOperation_frame op k dp c y :
  PerformMoveOperation E op k (append_buffer dp c) y
  = with_extra c (PerformMoveOperation E op k dp y).
Proof.
  unfold PerformMoveOperation. fields.
  destruct (negb _); [reflexivity|].
  unfold bind.
  destruct (move_read E _ _ _ _ _ y) as [[[buf bytes_read]|] y1| |]; try reflexivity.
  destruct (move_write E _ _ _ _ _ y1) as [[bytes_written|] y2| |]; try reflexivity.
  destruct (negb _); [reflexivity|].
  destruct (negb _); reflexivity.
Qed.

Lemma perform_operation_frame op k dp c y :
  (op_type op <> MOVE -> buffer_offset_ dp = data_offset op -> data_settled op dp c) ->
  perform_operation E op k (append_buffer dp c) y
  = with_extra c (perform_operation E op k dp y).
Proof.
  intros Hset. unfold perform_operation. destruct (op_type op) eqn:Ht.
  - apply PerformReplaceOperation_frame. apply Hset. discriminate.
  - apply PerformReplaceOperation_frame. apply Hset. discriminate.
  - apply PerformMoveOperation_frame.
  - apply PerformBsdiffOperation_frame. apply Hset. discriminate.
Qed.

Lemma CheckpointUpdateProgress_frame dp c y :
  CheckpointUpdateProgress E (append_buffer dp c) y
  = with_extra c (CheckpointUpdateProgress E dp y).
Proof.
  unfold CheckpointUpdateProgress, ResetUpdateProgress. fields.
  unfold bind. cbn [set_exit_blocked].
  destruct (negb _).
  - repeat first
      [ rewrite call_eq
      | progress cbn [ret with_extra]
      | match goal with
        | |- context [if negb (r_ok ?r) then _ else _] => destruct (negb (r_ok r))
        end ]; reflexivity.
  - repeat first
      [ rewrite call_eq
      | progress cbn [ret with_extra]
      | match goal with
        | |- context [if negb (r_ok ?r) then _ else _] => destruct (negb (r_ok r))
        end ]; reflexivity.
Qed.

Lemma after_operation_frame ok dp c y :
  after_operation E (ok, append_buffer dp c) y
  = with_extra c (after_operation E (ok, dp) y).
Proof.
  unfold after_operation. destruct ok; cbn [negb].
  - change (set_next_operation_num (append_buffer dp c)
              (next_operation_num_ (append_buffer dp c) + 1))
      with (append_buffer (set_next_operation_num dp (next_operation_num_ dp + 1)) c).
    unfold bind. rewrite CheckpointUpdateProgress_frame.
    destruct (CheckpointUpdateProgress E _ y) as [[ok2 dp2] y2| |]; reflexivity.
  - reflexivity.
Qed.

Lemma Write_iteration_frame op dp c y :
  (op_type op <> MOVE -> buffer_offset_ dp = data_offset op -> data_settled op dp c) ->
  Write_iteration E op (append_buffer dp c) y
  = with_extra c (Write_iteration E op dp y).
Proof.
  intros Hset. unfold Write_iteration. fields.
  unfold bind at 1 3.
  destruct (pre_operation E op y) as [[] y1| |]; try reflexivity.
  apply with_extra_bind.
  - apply perform_operation_frame, Hset.
  - intros ok dp1 y2 _. apply after_operation_frame.
Qed.

End Frame.

(** ** The operation loop over a longer buffer *)

Section LoopFrame.

Variable E : Env.

Lemma in_range_shorter dp c : in_range (append_buffer dp c) -> in_range dp.
Proof.
  unfold in_range. fields. rewrite size_of_app.
  pose proof (size_of_nonneg c). intros (H0 & H1 & H2).
  split; [exact H0|]. split; [lia | exact H2].
Qed.

Lemma consumed_append n k dp dp' c :
  consumed n k dp dp' -> consumed n k (append_buffer dp c) (append_buffer dp' c).
Proof.
  unfold consumed. fields.
  intros (Hn & Hb & Hh & Ho & Hx & Hm & Hv & Hs).
  rewrite length_app, firstn_append, skipn_append, Hb by exact Hn.
  repeat split; try assumption. lia.
Qed.

Lemma can_perform_longer dp op c :
  CanPerformInstallOperation E dp op = true ->
  in_range (append_buffer dp c) ->
  CanPerformInstallOperation E (append_buffer dp c) op = true.
Proof.
  unfold CanPerformInstallOperation, in_range. fields.
  rewrite size_of_app. pose proof (size_of_nonneg c) as Hc.
  pose proof (size_of_nonneg (buffer_ dp)) as Hb.
  intros H (H0 & H1 & _).
  destruct (OperationType_eqb (op_type op) MOVE); [reflexivity|].
  destruct (data_offset op <? buffer_offset_ dp); [discriminate|].
  apply Z.leb_le in H. apply Z.leb_le.
  rewrite (wrap64_small (buffer_offset_ dp + size_of (buffer_ dp))) in H by lia.
  rewrite (wrap64_small (buffer_offset_ dp + (size_of (buffer_ dp) + size_of c))) by lia.
  lia.
Qed.

Lemma nth_fits n l :
  Forall (blob_end_fits E) l ->
  blob_end_fits E (nth n l default_operation) \/ nth n l default_operation = default_operation.
Proof.
  intros Hl. destruct (nth_in_or_default n l default_operation) as [Hin|Hd].
  - left. rewrite Forall_forall in Hl. apply Hl, Hin.
  - right. exact Hd.
Qed.

Lemma next_operation_fits dp :
  blob_ends_fit E (manifest_ dp) ->
  blob_end_fits E (next_operation dp) \/ next_operation dp = default_operation.
Proof.
  intros [H1 H2]. unfold next_operation.
  destruct (_ <? _); apply nth_fits; assumption.
Qed.

(** Where the blob end does not wrap, an operation that can be performed
    has its data in the buffer. *)
Lemma can_perform_settled dp op c :
  CanPerformInstallOperation E dp op = true ->
  in_range (append_buffer dp c) ->
  blob_end_fits E op \/ op = default_operation ->
  op_type op <> MOVE -> buffer_offset_ dp = data_offset op ->
  data_settled op dp c.
Proof.
  intros H Hr [Hfit | ->].
  2:{ intros _ _. left. cbn. apply size_of_nonneg. }
  revert H Hr.
  unfold CanPerformInstallOperation, in_range, data_settled, blob_end_fits in *.
  fields.
  rewrite size_of_app. pose proof (size_of_nonneg c) as Hc.
  pose proof (size_of_nonneg (buffer_ dp)) as Hb.
  intros H (H0 & H1 & _) Ht Heq.
  destruct (op_type op); try contradiction; cbn [OperationType_eqb] in H.
  all: rewrite <- Heq, Z.ltb_irrefl in H.
  all: apply Z.leb_le in H.
  all: rewrite (wrap64_small (buffer_offset_ dp + size_of (buffer_ dp))) in H by lia.
  all: rewrite <- Heq in Hfit; rewrite Z.mod_small in H by exact Hfit.
  all: left; lia.
Qed.

Lemma Write_iteration_rv op dp y :
  wp (Write_iteration E op dp)
     (fun r _ => fst r = None \/ fst r = Some (- EINVAL)) y.
Proof.
  unfold Write_iteration.
  apply wp_bind, wp_any. intros [] y1.
  apply wp_bind, wp_any. intros [ok dp1] y2.
  eapply wp_conseq; [apply after_operation_consumed|].
  intros r y3 [Hrv _]. rewrite Hrv. destruct ok; auto.
Qed.

Lemma loop_fuel_consumed n dp dp' fuel :
  consumed n 1 dp dp' -> loop_fuel dp = S fuel -> loop_fuel dp' = fuel.
Proof.
  intros Hc. pose proof (consumed_next_operation n 1 dp dp' Hc) as Ht.
  destruct Hc as (_ & _ & _ & _ & Hx & _).
  unfold loop_fuel. rewrite Ht, Hx. lia.
Qed.

Lemma Write_loop_frame c fuel :
  forall dp y,
    loop_fuel dp = fuel ->
    in_range (append_buffer dp c) ->
    blob_ends_fit E (manifest_ dp) ->
    continues c (fun d => Write_loop E (loop_fuel d) 0 d)
      (Write_loop E fuel 0 dp y)
      (Write_loop E fuel 0 (append_buffer dp c) y).
Proof.
  induction fuel as [|fuel IH]; intros dp y Hfuel Hr Hfit.
  - cbn [Write_loop].
    destruct (next_operation_num_ dp <? total_operations dp) eqn:Hlt.
    + apply Z.ltb_lt in Hlt. unfold loop_fuel in Hfuel. lia.
    + cbn [ret continues]. change (to_int64 0 =? 0) with true. cbv iota.
      change (loop_fuel (append_buffer dp c)) with (loop_fuel dp).
      now rewrite Hfuel.
  - assert (Hstay : continues c (fun d => Write_loop E (loop_fuel d) 0 d)
                      (Done (to_int64 0, dp) y)
                      (Write_loop E (S fuel) 0 (append_buffer dp c) y)).
    { cbn [continues]. change (to_int64 0 =? 0) with true. cbv iota.
      change (loop_fuel (append_buffer dp c)) with (loop_fuel dp).
      now rewrite Hfuel. }
    cbn [Write_loop] in Hstay |- *.
    change (next_operation_num_ (append_buffer dp c)) with (next_operation_num_ dp)
      in Hstay |- *.
    change (total_operations (append_buffer dp c)) with (total_operations dp)
      in Hstay |- *.
    change (next_operation (append_buffer dp c)) with (next_operation dp)
      in Hstay |- *.
    destruct (next_operation_num_ dp <? total_operations dp) eqn:Hlt;
      [|exact Hstay].
    destruct (CanPerformInstallOperation E dp (next_operation dp)) eqn:Hcan;
      cbn [negb]; [|exact Hstay].
    clear Hstay.
    rewrite (can_perform_longer dp _ c Hcan Hr). cbn [negb].
    unfold bind.
    rewrite Write_iteration_frame
      by (intros Ht Heq;
          exact (can_perform_settled dp _ c Hcan Hr (next_operation_fits dp Hfit) Ht Heq)).
    pose proof (in_range_shorter dp c Hr) as Hr0.
    pose proof (Write_iteration_consumed E (next_operation dp) dp y
                  (next_operation_wf dp (proj2 (proj2 Hr0))) Hr0) as Hwp.
    unfold wp in Hwp.
    destruct (Write_iteration E (next_operation dp) dp y) as [[rv dp2] y2| |];
      cbn [with_extra]; [|reflexivity..].
    destruct Hwp as [Hrv [n Hn]]. cbn [fst snd] in Hrv, Hn.
    destruct rv as [e|].
    + destruct Hrv as [Hrv|Hrv]; [discriminate|]. injection Hrv as ->.
      reflexivity.
    + apply IH.
      * eapply loop_fuel_consumed; eassumption.
      * eapply consumed_in_range; [exact Hr|]. apply consumed_append. exact Hn.
      * destruct Hn as (_ & _ & _ & _ & _ & Hm & _). rewrite Hm. exact Hfit.
Qed.

End LoopFrame.

(** ** The manifest step over a longer buffer *)

Section ManifestFrame.

Variable E : Env.

Lemma be64_fold_bound l :
  forall acc, 0 <= acc ->
    0 <= fold_left (fun acc b => acc * 256 + Z.of_N (Byte.to_N b)) l acc
      < (acc + 1) * 256 ^ Z.of_nat (List.length l).
Proof.
  induction l as [|b l IH]; intros acc Hacc.
  - cbn. lia.
  - cbn [fold_left List.length]. pose proof (Byte.to_N_bounded b) as Hb.
    specialize (IH (acc * 256 + Z.of_N (Byte.to_N b)) ltac:(lia)).
    rewrite Nat2Z.inj_succ, Z.pow_succ_r by lia.
    assert (Hp : 0 < 256 ^ Z.of_nat (List.length l)) by (apply Z.pow_pos_nonneg; lia).
    split; [lia|]. nia.
Qed.

Lemma be64_range l : (List.length l <= 8)%nat -> 0 <= be64 l < two64.
Proof.
  intros Hl. unfold be64.
  pose proof (be64_fold_bound l 0 ltac:(lia)) as [H0 H1].
  split; [exact H0|].
  assert (256 ^ Z.of_nat (List.length l) <= 256 ^ 8)
    by (apply Z.pow_le_mono_r; lia).
  change (256 ^ 8) with two64 in *. lia.
Qed.

Lemma read_protobuf_length_range buffer : 0 <= read_protobuf_length buffer < two64.
Proof.
  unfold read_protobuf_length. apply be64_range.
  rewrite length_firstn. change (Z.to_nat kDeltaProtobufLengthLength) with 8%nat. lia.
Qed.

Lemma to_int32_window plen size :
  0 <= plen < two64 -> header_size <= size ->
  wrap64 (header_size + plen) <= size ->
  to_int32 plen <= size - header_size.
Proof.
  unfold to_int32, wrap64. change header_size with 20. rewrite two64_eq.
  change (2 ^ 31) with 2147483648. change (2 ^ 32) with 4294967296.
  intros Hp Hs Hw. Z.div_mod_to_equations. lia.
Qed.

Lemma read_protobuf_length_longer b c :
  header_size <= size_of b ->
  read_protobuf_length (b ++ c) = read_protobuf_length b.
Proof.
  unfold size_of. change header_size with 20. intros H.
  unfold read_protobuf_length.
  change (Z.to_nat (Z.of_nat (String.length kDeltaMagic) + kDeltaVersionLength))
    with 12%nat.
  change (Z.to_nat kDeltaProtobufLengthLength) with 8%nat.
  rewrite skipn_append by lia.
  rewrite firstn_append by (rewrite length_skipn; lia). reflexivity.
Qed.

Lemma discard_append d c n :
  n <= size_of (buffer_ d) ->
  DiscardBufferHeadBytes n (append_buffer d c)
  = append_buffer (DiscardBufferHeadBytes n d) c.
Proof.
  intros H. unfold size_of in H.
  unfold DiscardBufferHeadBytes, append_buffer. cbn.
  rewrite firstn_append, skipn_append by lia. reflexivity.
Qed.

Lemma Write_manifest_frame dp c y :
  match Write_manifest E dp y with
  | Done NeedMoreData y1 => y1 = y
  | Done (ParseError d) y1 =>
      Write_manifest E (append_buffer dp c) y = Done (ParseError (append_buffer d c)) y1
  | Done (Parsed d) y1 =>
      Write_manifest E (append_buffer dp c) y = Done (Parsed (append_buffer d c)) y1
  | Aborted _ => False
  | OutOfFuel => False
  end.
Proof.
  unfold Write_manifest.
  change (buffer_ (append_buffer dp c)) with (buffer_ dp ++ c).
  destruct (Z.ltb_spec (size_of (buffer_ dp)) header_size) as [|Hh]; [reflexivity|].
  assert (H1 : (size_of (buffer_ dp ++ c) <? header_size) = false).
  { apply Z.ltb_ge. rewrite size_of_app. pose proof (size_of_nonneg c). lia. }
  rewrite H1, (read_protobuf_length_longer _ c Hh).
  set (plen := read_protobuf_length (buffer_ dp)).
  pose proof (read_protobuf_length_range (buffer_ dp)) as Hplen. fold plen in Hplen.
  destruct (Z.ltb_spec (size_of (buffer_ dp)) (wrap64 (header_size + plen)))
    as [|Hm]; [reflexivity|].
  assert (H2 : (size_of (buffer_ dp ++ c) <? wrap64 (header_size + plen)) = false).
  { apply Z.ltb_ge. rewrite size_of_app. pose proof (size_of_nonneg c). lia. }
  rewrite H2.
  pose proof (to_int32_window plen _ Hplen Hh Hm) as Hw.
  assert (Hdata : firstn (Z.to_nat (to_int32 plen))
                    (skipn (Z.to_nat header_size) (buffer_ dp ++ c))
                  = firstn (Z.to_nat (to_int32 plen))
                      (skipn (Z.to_nat header_size) (buffer_ dp))).
  { unfold size_of in Hh, Hw. change header_size with 20 in Hh, Hw |- *.
    rewrite skipn_append by lia.
    apply firstn_append. rewrite length_skipn. lia. }
  rewrite Hdata.
  destruct (ParseFromArray E _ _) as [ok m].
  destruct ok; cbn [negb]; [|reflexivity].
  change (manifest_metadata_size_
            (set_manifest_metadata_size (set_manifest (append_buffer dp c) m)
               (wrap64 (header_size + plen))))
    with (wrap64 (header_size + plen)).
  change (manifest_metadata_size_
            (set_manifest_metadata_size (set_manifest dp m)
               (wrap64 (header_size + plen))))
    with (wrap64 (header_size + plen)).
  change (set_manifest_metadata_size (set_manifest (append_buffer dp c) m)
            (wrap64 (header_size + plen)))
    with (append_buffer
            (set_manifest_metadata_size (set_manifest dp m)
               (wrap64 (header_size + plen))) c).
  rewrite discard_append by exact Hm.
  unfold bind. rewrite !call_eq. reflexivity.
Qed.

Lemma Write_manifest_result dp y :
  parser_wf E ->
  wp (Write_manifest E dp)
     (fun st _ =>
        match st with
        | NeedMoreData => True
        | ParseError d =>
            buffer_ d = buffer_ dp /\ buffer_offset_ d = buffer_offset_ dp
            /\ manifest_valid_ d = manifest_valid_ dp
            /\ wf_manifest (manifest_ d)
        | Parsed d =>
            size_of (buffer_ d) <= size_of (buffer_ dp)
            /\ buffer_offset_ d = buffer_offset_ dp
            /\ manifest_valid_ d = true
            /\ wf_manifest (manifest_ d)
        end) y.
Proof.
  intros Hparse. unfold Write_manifest.
  wp_step; [apply wp_ret; exact I|].
  wp_step; [apply wp_ret; exact I|].
  match goal with
  | |- wp (let '(_, _) := ParseFromArray E ?d ?n in _) _ _ =>
      pose proof (Hparse d n) as Hm'; destruct (ParseFromArray E d n) as [ok m]
  end.
  cbn [snd] in Hm'. wp_walk.
  - fields. auto.
  - unfold DiscardBufferHeadBytes. fields.
    split; [|auto]. unfold size_of. rewrite length_skipn. lia.
Qed.

End ManifestFrame.

(** ** Write always comes back *)

Section Totality.

Variable E : Env.

Lemma fueled_ret {A} (a : A) y : fueled (E := E) (ret a) y.
Proof. discriminate. Qed.

Lemma fueled_abort {A} y : fueled (E := E) (A := A) abort y.
Proof. discriminate. Qed.

Lemma fueled_call c y : fueled (call E c) y.
Proof. unfold fueled. rewrite call_eq. discriminate. Qed.

Lemma fueled_set_exit_blocked b y : fueled (set_exit_blocked E b) y.
Proof. discriminate. Qed.

Lemma fueled_bind {A B} (m : M E A) (k : A -> M E B) y :
  fueled m y -> (forall a y1, m y = Done a y1 -> fueled (k a) y1) ->
  fueled (bind m k) y.
Proof.
  unfold fueled, bind. intros Hm Hk.
  destruct (m y) as [a y1| |]; [now apply Hk | discriminate | contradiction].
Qed.

Ltac fueled_step :=
  lazymatch goal with
  | |- fueled (ret _) _ => apply fueled_ret
  | |- fueled abort _ => apply fueled_abort
  | |- fueled (call _ _) _ => apply fueled_call
  | |- fueled (set_exit_blocked _ _) _ => apply fueled_set_exit_blocked
  | |- fueled (bind _ _) _ => apply fueled_bind; [|intros ? ? _]
  | |- fueled (if ?b then _ else _) _ => destruct b
  | |- fueled (match ?x with _ => _ end) _ => destruct x
  | |- forall _, _ => intro
  end.

Ltac fueled_walk := repeat fueled_step.

Lemma move_read_fueled fd bs extents buf n y :
  fueled (move_read E fd bs extents buf n) y.
Proof.
  revert buf n y. induction extents as [|e rest IH]; intros buf n y; cbn [move_read].
  - apply fueled_ret.
  - fueled_walk. apply IH.
Qed.

Lemma move_write_fueled fd bs extents buf n y :
  fueled (move_write E fd bs extents buf n) y.
Proof.
  revert n y. induction extents as [|e rest IH]; intros n y; cbn [move_write].
  - apply fueled_ret.
  - fueled_walk. apply IH.
Qed.

Lemma perform_operation_fueled op k dp y :
  fueled (perform_operation E op k dp) y.
Proof.
  unfold perform_operation, PerformReplaceOperation, PerformMoveOperation,
    PerformBsdiffOperation, ExtractSignatureMessage, zero_tail.
  repeat first
    [ lazymatch goal with
      | |- fueled (move_read _ _ _ _ _ _) _ => apply move_read_fueled
      | |- fueled (move_write _ _ _ _ _ _) _ => apply move_write_fueled
      end
    | fueled_step ].
Qed.

Lemma Write_iteration_fueled op dp y : fueled (Write_iteration E op dp) y.
Proof.
  unfold Write_iteration, pre_operation, after_operation,
    CheckpointUpdateProgress, ResetUpdateProgress.
  repeat first
    [ lazymatch goal with
      | |- fueled (perform_operation _ _ _ _) _ => apply perform_operation_fueled
      end
    | fueled_step ].
Qed.

Lemma Write_manifest_fueled dp y : fueled (Write_manifest E dp) y.
Proof. unfold Write_manifest. fueled_walk. Qed.

Lemma Write_loop_fueled count fuel :
  forall dp y, loop_fuel dp = fuel -> in_range dp ->
    fueled (Write_loop E fuel count dp) y.
Proof.
  induction fuel as [|fuel IH]; intros dp y Hfuel Hr; cbn [Write_loop].
  - destruct (next_operation_num_ dp <? total_operations dp) eqn:Hlt;
      [|apply fueled_ret].
    apply Z.ltb_lt in Hlt. unfold loop_fuel in Hfuel. lia.
  - destruct (next_operation_num_ dp <? total_operations dp); [|apply fueled_ret].
    destruct (negb _); [apply fueled_ret|].
    apply fueled_bind; [apply Write_iteration_fueled|].
    intros [rv dp2] y2 Hit.
    pose proof (wp_Done (Write_iteration_consumed E (next_operation dp) dp y
                           (next_operation_wf dp (proj2 (proj2 Hr))) Hr) Hit)
      as [_ [n Hn]].
    cbn [fst snd] in Hn. destruct rv as [e|]; [apply fueled_ret|].
    apply IH.
    + eapply loop_fuel_consumed; eassumption.
    + eapply consumed_in_range; eassumption.
Qed.

Lemma absorb_fueled dp y :
  parser_wf E -> in_range dp -> fueled (absorb E dp) y.
Proof.
  intros Hparse Hr. unfold absorb.
  destruct (negb _); [|now apply Write_loop_fueled].
  apply fueled_bind; [apply Write_manifest_fueled|].
  intros st y1 Hst.
  pose proof (wp_Done (Write_manifest_result E dp y Hparse) Hst) as Hres.
  destruct st as [|d|d]; [apply fueled_ret..|].
  apply Write_loop_fueled; [reflexivity|].
  destruct Hres as (Hs & Ho & _ & Hwf). destruct Hr as (H0 & H1 & _).
  unfold in_range. rewrite Ho. split; [exact H0|]. split; [lia | exact Hwf].
Qed.

End Totality.

(** ** Feeding the payload in chunks *)

Section Chunking.

Variable E : Env.

Lemma append_buffer_app dp a b :
  append_buffer (append_buffer dp a) b = append_buffer dp (a ++ b).
Proof. unfold append_buffer. fields. now rewrite <- app_assoc. Qed.

Lemma append_buffer_nil dp : append_buffer dp [] = dp.
Proof. unfold append_buffer. rewrite app_nil_r. destruct dp; reflexivity. Qed.

Lemma Write_loop_count fuel count :
  forall dp y,
    Write_loop E fuel count dp y = returning count (Write_loop E fuel 0 dp y).
Proof.
  induction fuel as [|fuel IH]; intros dp y; cbn [Write_loop].
  - destruct (_ <? _); [|reflexivity]. destruct (negb _); reflexivity.
  - destruct (_ <? _); [|reflexivity]. destruct (negb _); [reflexivity|].
    unfold bind.
    pose proof (Write_iteration_rv E (next_operation dp) dp y) as Hrv.
    unfold wp in Hrv.
    destruct (Write_iteration E (next_operation dp) dp y) as [[rv dp2] y2| |];
      [|reflexivity..].
    cbn [fst] in Hrv. destruct rv as [e|]; [|apply IH].
    destruct Hrv as [Hrv|Hrv]; [discriminate|]. injection Hrv as ->. reflexivity.
Qed.

Lemma Write_absorb bytes dp y :
  Write E bytes dp y = returning (size_of bytes) (absorb E (append_buffer dp bytes) y).
Proof.
  unfold Write, absorb. fold (append_buffer dp bytes).
  destruct (negb _); [|apply Write_loop_count].
  unfold bind.
  destruct (Write_manifest E (append_buffer dp bytes) y) as [[|d|d] y1| |];
    try reflexivity.
  apply Write_loop_count.
Qed.

Lemma absorb_result dp y rv d1 y1 :
  parser_wf E -> in_range dp ->
  absorb E dp y = Done (rv, d1) y1 ->
  (rv = 0 \/ rv = - EINVAL)
  /\ 0 <= buffer_offset_ d1
  /\ buffer_offset_ d1 + size_of (buffer_ d1)
     <= buffer_offset_ dp + size_of (buffer_ dp)
  /\ wf_manifest (manifest_ d1).
Proof.
  intros Hparse Hr. unfold absorb.
  assert (Hloop : forall d y0,
             in_range d ->
             Write_loop E (loop_fuel d) 0 d y0 = Done (rv, d1) y1 ->
             (rv = 0 \/ rv = - EINVAL)
             /\ 0 <= buffer_offset_ d1
             /\ buffer_offset_ d1 + size_of (buffer_ d1)
                <= buffer_offset_ d + size_of (buffer_ d)
             /\ wf_manifest (manifest_ d1)).
  { intros d y0 Hd Hrun.
    pose proof (wp_Done (Write_loop_consumed E _ 0 d y0 Hd) Hrun)
      as [Hrv (n & k & _ & Hc)].
    cbn [fst snd] in Hrv, Hc.
    pose proof (consumed_in_range n k d d1 Hd Hc) as (H0 & _ & Hwf).
    destruct Hc as (Hn & Hb & _ & Ho & _).
    split; [exact Hrv|]. split; [exact H0|]. split; [|exact Hwf].
    rewrite Ho, Hb. unfold size_of. rewrite length_skipn. lia. }
  destruct (negb _); [|apply Hloop, Hr].
  intros Hrun. apply bind_inv in Hrun. destruct Hrun as (st & y0 & Hst & Hk).
  pose proof (wp_Done (Write_manifest_result E dp y Hparse) Hst) as Hres.
  destruct Hr as (H0 & H1 & Hwf0).
  destruct st as [|d|d].
  - injection Hk as <- <- <-. split; [left; reflexivity|].
    split; [exact H0|]. split; [lia | exact Hwf0].
  - injection Hk as <- <- <-. destruct Hres as (Hb & Ho & _ & Hwf).
    split; [right; reflexivity|]. rewrite Hb, Ho.
    split; [exact H0|]. split; [lia | exact Hwf].
  - destruct Hres as (Hs & Ho & _ & Hwf).
    assert (Hd : in_range d).
    { unfold in_range. rewrite Ho. split; [exact H0|]. split; [lia | exact Hwf]. }
    destruct (Hloop d y0 Hd Hk) as (Hrv & Hb0 & Hle & Hwf1).
    split; [exact Hrv|]. split; [exact Hb0|]. split; [lia | exact Hwf1].
Qed.

Lemma Write_manifest_fits dp y :
  parser_fits E ->
  wp (Write_manifest E dp)
     (fun st _ =>
        match st with
        | NeedMoreData => True
        | ParseError d | Parsed d => blob_ends_fit E (manifest_ d)
        end) y.
Proof.
  intros Hparse. unfold Write_manifest.
  wp_step; [apply wp_ret; exact I|].
  wp_step; [apply wp_ret; exact I|].
  match goal with
  | |- wp (let '(_, _) := ParseFromArray E ?d ?n in _) _ _ =>
      pose proof (Hparse d n) as Hm'; destruct (ParseFromArray E d n) as [ok m]
  end.
  cbn [snd] in Hm'. wp_walk; fields; exact Hm'.
Qed.

(** The blob ends of the manifest the applier holds after [absorb] do not
    wrap, if they did not before and the parser gives none that do. *)
Lemma absorb_fits dp y rv d1 y1 :
  parser_wf E -> parser_fits E -> in_range dp -> blob_ends_fit E (manifest_ dp) ->
  absorb E dp y = Done (rv, d1) y1 ->
  blob_ends_fit E (manifest_ d1).
Proof.
  intros Hwfp Hparse Hr Hfit. unfold absorb.
  assert (Hloop : forall d y0,
             in_range d -> blob_ends_fit E (manifest_ d) ->
             Write_loop E (loop_fuel d) 0 d y0 = Done (rv, d1) y1 ->
             blob_ends_fit E (manifest_ d1)).
  { intros d y0 Hd Hf Hrun.
    pose proof (wp_Done (Write_loop_consumed E _ 0 d y0 Hd) Hrun)
      as [_ (n & k & _ & Hc)].
    cbn [snd] in Hc. destruct Hc as (_ & _ & _ & _ & _ & Hm & _).
    rewrite Hm. exact Hf. }
  destruct (negb _); [|apply Hloop; assumption].
  intros Hrun. apply bind_inv in Hrun. destruct Hrun as (st & y0 & Hst & Hk).
  pose proof (wp_Done (Write_manifest_fits dp y Hparse) Hst) as Hres.
  destruct st as [|d|d].
  - injection Hk as _ <- _. exact Hfit.
  - injection Hk as _ <- _. exact Hres.
  - cbn beta iota in Hres. revert Hk. apply Hloop; [|exact Hres].
    destruct (wp_Done (Write_manifest_result E dp y Hwfp) Hst) as (Hs & Ho & _ & Hwf).
    destruct Hr as (H0 & H1 & _).
    unfold in_range. rewrite Ho. split; [exact H0|]. split; [lia | exact Hwf].
Qed.

Lemma absorb_valid d y :
  manifest_valid_ d = true -> absorb E d y = Write_loop E (loop_fuel d) 0 d y.
Proof. intros H. unfold absorb. now rewrite H. Qed.

Lemma absorb_invalid d y :
  manifest_valid_ d = false ->
  absorb E d y
  = match Write_manifest E d y with
    | Done NeedMoreData y1 => Done (0, d) y1
    | Done (ParseError d1) y1 => Done (- EINVAL, d1) y1
    | Done (Parsed d1) y1 => Write_loop E (loop_fuel d1) 0 d1 y1
    | Aborted y1 => Aborted y1
    | OutOfFuel => OutOfFuel
    end.
Proof.
  intros H. unfold absorb. rewrite H. cbn [negb]. unfold bind.
  destruct (Write_manifest E d y) as [[|d1|d1] y1| |]; reflexivity.
Qed.

Lemma absorb_frame dp c y :
  parser_wf E -> parser_fits E ->
  in_range (append_buffer dp c) -> blob_ends_fit E (manifest_ dp) ->
  continues c (absorb E) (absorb E dp y) (absorb E (append_buffer dp c) y).
Proof.
  intros Hparse Hpfit Hr Hfit.
  pose proof (in_range_shorter dp c Hr) as Hr0.
  assert (Hloop : forall d y0,
             manifest_valid_ d = true -> in_range (append_buffer d c) ->
             blob_ends_fit E (manifest_ d) ->
             continues c (absorb E)
               (Write_loop E (loop_fuel d) 0 d y0)
               (Write_loop E (loop_fuel d) 0 (append_buffer d c) y0)).
  { intros d y0 Hv Hd Hdfit.
    pose proof (Write_loop_frame E c (loop_fuel d) d y0 eq_refl Hd Hdfit) as Hf.
    pose proof (Write_loop_consumed E (loop_fuel d) 0 d y0
                  (in_range_shorter d c Hd)) as Hwp.
    unfold wp in Hwp. unfold continues in *.
    destruct (Write_loop E (loop_fuel d) 0 d y0) as [[rv d1] y1| |];
      [|exact Hf..].
    destruct Hwp as [_ (n & k & _ & Hc)]. cbn [snd] in Hc.
    destruct (rv =? 0); [|exact Hf].
    rewrite Hf. symmetry. apply absorb_valid.
    destruct Hc as (_ & _ & _ & _ & _ & _ & Hv1 & _).
    change (manifest_valid_ (append_buffer d1 c)) with (manifest_valid_ d1).
    now rewrite Hv1. }
  destruct (manifest_valid_ dp) eqn:Hv.
  - rewrite (absorb_valid dp y Hv), (absorb_valid (append_buffer dp c) y Hv).
    change (loop_fuel (append_buffer dp c)) with (loop_fuel dp).
    now apply Hloop.
  - rewrite (absorb_invalid dp y Hv), (absorb_invalid (append_buffer dp c) y Hv).
    pose proof (Write_manifest_frame E dp c y) as Hm.
    pose proof (Write_manifest_result E dp y Hparse) as Hres. unfold wp in Hres.
    pose proof (Write_manifest_fits dp y Hpfit) as Hmfit. unfold wp in Hmfit.
    destruct (Write_manifest E dp y) as [[|d|d] y1| |]; try contradiction.
    + subst y1. cbn [continues]. change (0 =? 0) with true. cbv iota.
      symmetry. apply (absorb_invalid (append_buffer dp c) y Hv).
    + cbn [continues]. rewrite Hm. reflexivity.
    + rewrite Hm.
      change (loop_fuel (append_buffer d c)) with (loop_fuel d).
      destruct Hres as (Hs & Ho & Hv1 & Hwf).
      apply Hloop; [exact Hv1| |exact Hmfit].
      destruct Hr as (H0 & H1 & _). revert H1.
      unfold in_range. fields. rewrite !size_of_app, Ho. intros H1.
      split; [exact H0|]. split; [lia | exact Hwf].
Qed.

Lemma fits_in_range dp extra : fits dp extra -> in_range (append_buffer dp extra).
Proof.
  unfold fits, in_range. fields. rewrite size_of_app.
  intros (H0 & H1 & Hwf). split; [exact H0|]. split; [|exact Hwf].
  rewrite two63_eq in H1. rewrite two64_eq. lia.
Qed.

Lemma fits_count dp extra :
  fits dp extra -> to_int64 (size_of extra) = size_of extra.
Proof.
  intros (H0 & H1 & _). apply to_int64_small.
  pose proof (size_of_nonneg (buffer_ dp)). pose proof (size_of_nonneg extra).
  rewrite two63_eq in *. lia.
Qed.

Lemma agrees_returning count count' (r : Res (Sys E) (Z * DeltaPerformer)) chunked :
  0 <= to_int64 count -> 0 <= to_int64 count' ->
  chunking_agrees (returning count r) chunked ->
  chunking_agrees (returning count' r) chunked.
Proof.
  intros Hc Hc'. unfold chunking_agrees, returning.
  destruct r as [[rv d] y| |]; [|exact (fun H => H)..].
  destruct chunked as [[ok d2] y2| |]; [|exact (fun H => H)..].
  destruct (rv =? 0).
  - intros (Hy & Hok & Hd).
    assert (Ht : (0 <=? to_int64 count) = true) by (apply Z.leb_le; exact Hc).
    assert (Ht' : (0 <=? to_int64 count') = true) by (apply Z.leb_le; exact Hc').
    rewrite Ht in Hok. subst ok.
    split; [exact Hy|]. split; [symmetry; exact Ht' | exact Hd].
  - exact (fun H => H).
Qed.


End Chunking.



(** The condition on the blob ends is needed.  Where the sum
    data_offset + data_length is taken in 32 bits, an operation whose data
    ends at 2^32 + 2 passes CanPerformInstallOperation as soon as one byte of
    it is there: fed in one Write the four bytes are written and Write
    returns 4; fed one byte first, the operation starts on that byte and the
    process dies on CHECK_GE(buffer_.size(), operation.data_length()). *)
Lemma wrapped_blob_end_chunking_differs :
  blob_end_bits Sample.test_env = 32
  /\ fits Sample.wrapping_applier ([x0a] ++ [x0b; x0c; x0d])
  /\ ~ blob_ends_fit Sample.test_env (manifest_ Sample.wrapping_applier)
  /\ CanPerformInstallOperation Sample.test_env
       (append_buffer Sample.wrapping_applier [x0a])
       (next_operation Sample.wrapping_applier) = true
  /\ (exists dp1 y1,
        Write Sample.test_env [x0a; x0b; x0c; x0d] Sample.wrapping_applier
          (Sample.test_sys [] true) = Done (4, dp1) y1)
  /\ exists y2,
       feed Sample.test_env [[x0a]; [x0b; x0c; x0d]] Sample.wrapping_applier
         (Sample.test_sys [] true) = Aborted y2.
Proof.
  split; [reflexivity|].
  split.
  { split; [vm_compute; discriminate|].
    split; [vm_compute; reflexivity|].
    split; repeat constructor. unfold wf_operation. cbn. lia. }
  split.
  { intros [H _]. inversion H as [|op l Hop _]. subst.
    unfold blob_end_fits in Hop. cbn in Hop. lia. }
  split; [vm_compute; reflexivity|].
  split; [eexists _, _; vm_compute; reflexivity|].
  eexists. vm_compute. reflexivity.
Qed.

(** ** ExtentsToString *)

Lemma string_length_app (a b : string) :
  String.length (a ++ b) = (String.length a + String.length b)%nat.
Proof. induction a as [|x a IH]; simpl; [reflexivity | now rewrite IH]. Qed.

Lemma extent_entry_text e : extent_entry e = (extent_text e ++ ", ")%string.
Proof.
  unfold extent_entry, extent_text.
  destruct (start_block e =? kSparseHole);
    rewrite !string_app_assoc; reflexivity.
Qed.

Lemma extents_loop_app extents ret :
  extents_loop extents ret = (ret ++ extents_loop extents "")%string.
Proof.
  revert ret. induction extents as [|e rest IH]; intros ret; cbn [extents_loop].
  - now rewrite string_app_nil_r.
  - rewrite IH, (IH (""%string ++ _)%string), string_app_assoc. reflexivity.
Qed.

Lemma extents_loop_cons e rest :
  extents_loop (e :: rest) "" = (extent_entry e ++ extents_loop rest "")%string.
Proof.
  change (extents_loop (e :: rest) ""%string)
    with (extents_loop rest (""%string ++ extent_entry e)%string).
  rewrite extents_loop_app. reflexivity.
Qed.

Lemma extents_loop_join e rest :
  extents_loop (e :: rest) ""
  = (String.concat ", " (map extent_text (e :: rest)) ++ ", ")%string.
Proof.
  revert e. induction rest as [|e' rest IH]; intros e; rewrite extents_loop_cons.
  - cbn [extents_loop map String.concat]. rewrite extent_entry_text.
    now rewrite string_app_nil_r.
  - rewrite IH, extent_entry_text.
    change (map extent_text (e :: e' :: rest))
      with (extent_text e :: map extent_text (e' :: rest)).
    cbn [map]. cbn [String.concat]. rewrite !string_app_assoc. reflexivity.
Qed.

(** X1: ExtentsToString never trips its DCHECK and returns the extents'
    texts joined by a comma and a space, a sparse hole reading kSparseHole;
    the separator after the last extent is taken off again, and no extents
    give the empty string. *)
Theorem ExtentsToString_join :
  forall extents,
    ExtentsToString extents = Some (String.concat ", " (map extent_text extents)).
Proof.
  intros [|e rest]; [reflexivity|].
  unfold ExtentsToString. rewrite extents_loop_join.
  set (s := String.concat ", " (map extent_text (e :: rest))).
  assert (Hne : string_empty (s ++ ", ") = false)
    by (destruct s; reflexivity).
  rewrite Hne, string_length_app.
  destruct (Z.ltb_spec 1 (Z.of_nat (String.length s + String.length ", ")))
    as [_|H]; [|cbn [String.length] in H; lia].
  cbn [negb]. f_equal.
  change (s ++ ", ")%string with (s ++ (String "," "" ++ String " " ""))%string.
  rewrite <- string_app_assoc, !drop_last_char_app. reflexivity.
Qed.

(** ** Resuming an update *)

Lemma string_empty_false s : string_empty s = false <-> s <> ""%string.
Proof. destruct s; simpl; split; congruence. Qed.

(** X2: CanResumeUpdate returns true exactly when the store holds a
    next-operation number above zero, a response hash that is not empty and
    equals the one given, a next data offset that is not negative, a SHA-256
    context that is not empty and a manifest metadata size above zero; a
    missing key, the invalid number -1 or an operation number of zero refuse
    the resume. *)
Theorem CanResumeUpdate_true_iff :
  forall prefs update_check_response_hash,
    CanResumeUpdate prefs update_check_response_hash = true
    <-> exists next_operation next_data_offset sha256_context manifest_metadata_size,
          GetInt64 prefs kPrefsUpdateStateNextOperation = Some next_operation
          /\ 0 < next_operation
          /\ update_check_response_hash <> ""%string
          /\ GetString prefs kPrefsUpdateCheckResponseHash
             = Some update_check_response_hash
          /\ GetInt64 prefs kPrefsUpdateStateNextDataOffset = Some next_data_offset
          /\ 0 <= next_data_offset
          /\ GetString prefs kPrefsUpdateStateSHA256Context = Some sha256_context
          /\ sha256_context <> ""%string
          /\ GetInt64 prefs kPrefsManifestMetadataSize = Some manifest_metadata_size
          /\ 0 < manifest_metadata_size.
Proof.
  intros prefs h. unfold CanResumeUpdate. split.
  - destruct (GetInt64 prefs kPrefsUpdateStateNextOperation) as [n|]; [|discriminate].
    destruct (negb (n =? kUpdateStateOperationInvalid) && (0 <? n)) eqn:Hn;
      [|discriminate]. cbn [negb].
    destruct (GetString prefs kPrefsUpdateCheckResponseHash) as [s|]; [|discriminate].
    destruct (negb (string_empty s) && String.eqb s h) eqn:Hs; [|discriminate].
    cbn [negb].
    destruct (GetInt64 prefs kPrefsUpdateStateNextDataOffset) as [o|]; [|discriminate].
    destruct (Z.leb_spec 0 o) as [Ho|]; [|discriminate]. cbn [negb].
    destruct (GetString prefs kPrefsUpdateStateSHA256Context) as [c|]; [|discriminate].
    destruct (string_empty c) eqn:Hc; [discriminate|].
    destruct (GetInt64 prefs kPrefsManifestMetadataSize) as [m|]; [|discriminate].
    intros Hm. apply Z.ltb_lt in Hm.
    apply andb_true_iff in Hn. destruct Hn as (_ & Hn). apply Z.ltb_lt in Hn.
    apply andb_true_iff in Hs. destruct Hs as (Hs1 & Hs2).
    apply String.eqb_eq in Hs2. subst s.
    apply negb_true_iff, string_empty_false in Hs1.
    apply string_empty_false in Hc.
    exists n, o, c, m. repeat split; assumption.
  - intros (n & o & c & m & -> & Hn & Hh & -> & -> & Ho & -> & Hc & -> & Hm).
    assert (H1 : (n =? kUpdateStateOperationInvalid) = false)
      by (apply Z.eqb_neq; unfold kUpdateStateOperationInvalid; lia).
    assert (H2 : (0 <? n) = true) by (apply Z.ltb_lt; exact Hn).
    rewrite H1, H2. cbn [negb andb].
    apply string_empty_false in Hh. rewrite Hh, String.eqb_refl. cbn [negb andb].
    assert (H3 : (0 <=? o) = true) by (apply Z.leb_le; exact Ho).
    rewrite H3. cbn [negb].
    apply string_empty_false in Hc. rewrite Hc.
    apply Z.ltb_lt. exact Hm.
Qed.

Lemma invalid_refuses_resume prefs h :
  GetInt64 prefs kPrefsUpdateStateNextOperation = Some kUpdateStateOperationInvalid ->
  CanResumeUpdate prefs h = false.
Proof. intros H. unfold CanResumeUpdate. rewrite H. reflexivity. Qed.

Section Dying.

Variable E : Env.

Lemma wpa_ret {A} (a : A) (Q : A -> Sys E -> Prop) Qa y :
  Q a y -> wpa (ret a) Q Qa y.
Proof. intros H. exact H. Qed.

Lemma wpa_abort {A} (Q : A -> Sys E -> Prop) (Qa : Sys E -> Prop) y :
  Qa y -> wpa abort Q Qa y.
Proof. intros H. exact H. Qed.

Lemma wpa_bind {A B} (m : M E A) (k : A -> M E B) (Q : B -> Sys E -> Prop) Qa y :
  wpa m (fun a y1 => wpa (k a) Q Qa y1) Qa y -> wpa (bind m k) Q Qa y.
Proof. unfold wpa, bind. destruct (m y) as [a y1| |]; auto. Qed.

Lemma wpa_call (c : Call) (Q : Response -> Sys E -> Prop) Qa y :
  Q (answer y c) (answered y c) -> wpa (call E c) Q Qa y.
Proof. intros H. unfold wpa. now rewrite call_eq. Qed.

Lemma wpa_set_exit_blocked b (Q : unit -> Sys E -> Prop) Qa y :
  Q tt (mkSys (world y) b (trace y ++ [EvExitBlocked b])) ->
  wpa (set_exit_blocked E b) Q Qa y.
Proof. intros H. exact H. Qed.

Lemma wpa_conseq {A} (m : M E A) (Q Q' : A -> Sys E -> Prop) (Qa Qa' : Sys E -> Prop) y :
  wpa m Q Qa y -> (forall a y', Q a y' -> Q' a y') -> (forall y', Qa y' -> Qa' y') ->
  wpa m Q' Qa' y.
Proof. unfold wpa. destruct (m y); auto. Qed.

End Dying.

Ltac wpa_step :=
  lazymatch goal with
  | |- wpa (ret _) _ _ _ => apply wpa_ret
  | |- wpa abort _ _ _ => apply wpa_abort
  | |- wpa (bind _ _) _ _ _ => apply wpa_bind
  | |- wpa (call _ _) _ _ _ => apply wpa_call
  | |- wpa (set_exit_blocked _ _) _ _ _ => apply wpa_set_exit_blocked
  | |- wpa (if ?b then _ else _) _ _ _ => destruct b eqn:?
  | |- wpa (match ?x with _ => _ end) _ _ _ => destruct x eqn:?
  | |- forall _, _ => intro
  end.

Ltac wpa_walk := repeat wpa_step.

Section ResumeStore.

Variable E : Env.
Variable prefs_of : World E -> PrefsReader.
Hypothesis store : int64_store E prefs_of.

Lemma call_keeps_invalid c y :
  writes_next_operation c = false ->
  progress_invalid prefs_of y -> progress_invalid prefs_of (answered y c).
Proof.
  intros Hc Hy. unfold progress_invalid, answered in *. cbn [world].
  rewrite (proj2 store); [exact Hy|].
  intros v ->. cbn in Hc. discriminate.
Qed.

Lemma reset_invalid y :
  r_ok (answer y (PrefsSetInt64 kPrefsUpdateStateNextOperation
                    kUpdateStateOperationInvalid)) = true ->
  progress_invalid prefs_of
    (answered y (PrefsSetInt64 kPrefsUpdateStateNextOperation
                   kUpdateStateOperationInvalid)).
Proof.
  intros H. unfold progress_invalid, answered. cbn [world].
  apply (proj1 store). exact H.
Qed.

Lemma keeps_ret {A} (a : A) : keeps_invalid prefs_of (ret (E := E) a).
Proof. intros y H. exact H. Qed.

Lemma keeps_abort {A} : keeps_invalid prefs_of (abort (E := E) (A := A)).
Proof. intros y H. exact H. Qed.

Lemma keeps_bind {A B} (m : M E A) (k : A -> M E B) :
  keeps_invalid prefs_of m -> (forall a, keeps_invalid prefs_of (k a)) ->
  keeps_invalid prefs_of (bind m k).
Proof.
  intros Hm Hk y Hy. apply wpa_bind.
  eapply wpa_conseq; [apply Hm, Hy | | auto].
  intros a y1 H1. apply Hk, H1.
Qed.

Lemma keeps_call c :
  writes_next_operation c = false -> keeps_invalid prefs_of (call E c).
Proof. intros Hc y Hy. apply wpa_call, call_keeps_invalid; assumption. Qed.

Lemma keeps_set_exit_blocked b : keeps_invalid prefs_of (set_exit_blocked E b).
Proof. intros y Hy. exact Hy. Qed.

End ResumeStore.

Ltac keeps_step :=
  lazymatch goal with
  | |- keeps_invalid _ (ret _) => apply keeps_ret
  | |- keeps_invalid _ abort => apply keeps_abort
  | |- keeps_invalid _ (bind _ _) => apply keeps_bind
  | |- keeps_invalid _ (call _ _) => apply keeps_call; [assumption | reflexivity]
  | |- keeps_invalid _ (set_exit_blocked _ _) => apply keeps_set_exit_blocked
  | |- keeps_invalid _ (if ?b then _ else _) => destruct b
  | |- keeps_invalid _ (match ?x with _ => _ end) => destruct x
  | |- forall _, _ => intro
  end.

Ltac keeps_walk := repeat keeps_step.

Section ResumeRefused.

Variable E : Env.
Variable prefs_of : World E -> PrefsReader.
Hypothesis store : int64_store E prefs_of.

Lemma move_read_keeps fd bs extents buf n :
  keeps_invalid prefs_of (move_read E fd bs extents buf n).
Proof.
  revert buf n. induction extents as [|e rest IH]; intros buf n; cbn [move_read];
    keeps_walk; auto.
Qed.

Lemma move_write_keeps fd bs extents buf n :
  keeps_invalid prefs_of (move_write E fd bs extents buf n).
Proof.
  revert n. induction extents as [|e rest IH]; intros n; cbn [move_write];
    keeps_walk; auto.
Qed.

Lemma perform_operation_keeps op k dp :
  keeps_invalid prefs_of (perform_operation E op k dp).
Proof.
  unfold perform_operation, PerformReplaceOperation, ExtractSignatureMessage,
    PerformMoveOperation, PerformBsdiffOperation, zero_tail.
  keeps_walk; auto using move_read_keeps, move_write_keeps.
Qed.

Lemma CheckpointUpdateProgress_returns dp y :
  wpa (CheckpointUpdateProgress E dp) (fun _ _ => True) (fun _ => False) y.
Proof.
  unfold CheckpointUpdateProgress, ResetUpdateProgress. wpa_walk; exact I.
Qed.

(** X3: with a preference store that reads back what was written and
    keeps a key through calls that do not write it, a ResetUpdateProgress
    that returns true leaves a store from which CanResumeUpdate refuses to
    resume, whatever the response hash. *)
Theorem ResetUpdateProgress_refuses_resume :
  forall y y' update_check_response_hash,
    ResetUpdateProgress E y = Done true y' ->
    CanResumeUpdate (prefs_of (world y')) update_check_response_hash = false.
Proof.
  intros y y' h. unfold ResetUpdateProgress, bind. rewrite call_eq. cbn [ret].
  intros H. injection H as Hok <-.
  apply invalid_refuses_resume. apply (reset_invalid E prefs_of store). exact Hok.
Qed.

(** X4: with such a store, an operation with source extents whose reset
    write succeeded cannot be resumed into if it does not complete: whether the operation
    fails (Write returns -EINVAL from this turn of the loop) or the process
    dies in one of its checks, the store reads the invalid operation number
    and CanResumeUpdate returns false.  No call an operation makes writes
    the next-operation key. *)
Theorem failed_operation_refuses_resume :
  forall op dp y update_check_response_hash,
    src_extents op <> [] ->
    r_ok (answer y (PrefsSetInt64 kPrefsUpdateStateNextOperation
                      kUpdateStateOperationInvalid)) = true ->
    match Write_iteration E op dp y with
    | Done (Some _, _) y' | Aborted y' =>
        CanResumeUpdate (prefs_of (world y')) update_check_response_hash = false
    | Done (None, _) _ => True
    | OutOfFuel => False
    end.
Proof.
  intros op dp y h Hsrc Hok.
  pose proof (Write_iteration_fueled E op dp y) as Hfuel. unfold fueled in Hfuel.
  assert (H : wpa (Write_iteration E op dp)
                (fun r y' => fst r <> None -> progress_invalid prefs_of y')
                (progress_invalid prefs_of) y).
  { unfold Write_iteration, pre_operation, IsIdempotentOperation.
    destruct (src_extents op) as [|e l]; [contradiction|]. cbn [negb].
    unfold ResetUpdateProgress.
    apply wpa_bind, wpa_bind, wpa_set_exit_blocked, wpa_bind, wpa_bind, wpa_call.
    apply wpa_ret, wpa_ret, wpa_bind.
    eapply wpa_conseq;
      [apply (perform_operation_keeps op _ dp), (reset_invalid E prefs_of store), Hok
      | | auto].
    intros [ok dp1] y1 H1. unfold after_operation. destruct ok; cbn [negb].
    - apply wpa_bind.
      eapply wpa_conseq; [apply CheckpointUpdateProgress_returns | | contradiction].
      intros [b dp2] y2 _. wpa_walk.
      match goal with Hn : _ <> _ |- _ => now elim Hn end.
    - wpa_walk. exact H1. }
  unfold wpa in H. destruct (Write_iteration E op dp y) as [[[rv|] dp1] y1|y1|].
  - apply invalid_refuses_resume, H. discriminate.
  - exact I.
  - apply invalid_refuses_resume, H.
  - apply Hfuel. reflexivity.
Qed.

End ResumeRefused.

Lemma ResetUpdateProgress_refuses_resume_witness :
  CanResumeUpdate
    (sample_prefs
       (world (answered (Sample.test_sys [] true)
                 (PrefsSetInt64 kPrefsUpdateStateNextOperation
                    kUpdateStateOperationInvalid))))
    "hash" = false.
Proof.
  refine (ResetUpdateProgress_refuses_resume Sample.test_env sample_prefs
            sample_int64_store (Sample.test_sys [] true) _ "hash" _).
  vm_compute. reflexivity.
Defined.

Lemma failed_operation_refuses_resume_witness :
  exists rv dp' y',
    Write_iteration Sample.test_env
      (nth 0 (install_operations Sample.move_manifest) default_operation)
      (set_block_size new_DeltaPerformer 1)
      (Sample.test_sys Sample.abc_disk true) = Done (Some rv, dp') y'
    /\ CanResumeUpdate (sample_prefs (world y')) "hash" = false.
Proof.
  eexists _, _, _. split; [vm_compute; reflexivity|].
  pose proof (failed_operation_refuses_resume Sample.test_env sample_prefs
                sample_int64_store
                (nth 0 (install_operations Sample.move_manifest) default_operation)
                (set_block_size new_DeltaPerformer 1)
                (Sample.test_sys Sample.abc_disk true) "hash"
                ltac:(discriminate) eq_refl) as H.
  vm_compute in H. vm_compute. exact H.
Defined.

(** ** Opening the devices *)

Section Opening.

Variable E : Env.

Lemma set_kernel_fd_same dp : set_kernel_fd dp (kernel_fd_ dp) = dp.
Proof. destruct dp; reflexivity. Qed.

(** X5: Open refuses an applier whose fd_ is not -1 (a device is open, or
    the applier was closed) with -EINVAL, without a system call and without
    touching the applier.  Otherwise it calls open once.  A negative result
    is stored in fd_ and minus errno is returned, the path is not recorded
    (after the usual -1 the applier is as before and Open can be tried
    again).  A descriptor is stored along with the path and 0 is returned;
    from then on every Open is refused and the first descriptor and path
    stay. *)
Theorem Open_outcomes :
  forall path dp y,
    let r := answer y (SysOpen path) in
    (fd_ dp <> -1 -> Open E path dp y = Done (- EINVAL, dp) y)
    /\ (fd_ dp = -1 -> r_int r < 0 ->
        Open E path dp y
        = Done (- r_errno r, set_fd dp (r_int r)) (answered y (SysOpen path))
        /\ (r_int r = -1 -> set_fd dp (r_int r) = dp))
    /\ (fd_ dp = -1 -> 0 <= r_int r ->
        let dp1 := set_path (set_fd dp (r_int r)) path in
        Open E path dp y = Done (0, dp1) (answered y (SysOpen path))
        /\ forall path2 y2, Open E path2 dp1 y2 = Done (- EINVAL, dp1) y2).
Proof.
  intros path dp y r. split; [apply Open_refused|]. split.
  - intros Hfd Hneg. split.
    + unfold Open, OpenFile, bind. rewrite Hfd. cbn [Z.eqb negb Pos.eqb].
      rewrite call_eq. fold r.
      destruct (Z.ltb_spec (r_int r) 0) as [_|]; [reflexivity | lia].
    + intros H1. rewrite H1, <- Hfd. apply set_fd_same.
  - intros Hfd Hpos dp1. split.
    + unfold Open, OpenFile, bind. rewrite Hfd. cbn [Z.eqb negb Pos.eqb].
      rewrite call_eq. fold r.
      destruct (Z.ltb_spec (r_int r) 0) as [|_]; [lia | reflexivity].
    + intros path2 y2. apply Open_refused. unfold dp1. fields. lia.
Qed.

(** X6: OpenKernel does for kernel_fd_ and kernel_path_ what Open does for
    fd_ and path_, and reports success as a bool: it is refused without a
    system call when kernel_fd_ is not -1, whatever fd_ is, and otherwise
    succeeds exactly when open returns a descriptor; it never changes fd_ or
    path_.  Close does not reset kernel_fd_: once the kernel device was
    opened, OpenKernel is refused for good. *)
Theorem OpenKernel_outcomes :
  forall kernel_path dp y,
    let r := answer y (SysOpen kernel_path) in
    (kernel_fd_ dp <> -1 -> OpenKernel E kernel_path dp y = Done (false, dp) y)
    /\ (kernel_fd_ dp = -1 ->
        exists dp1,
          OpenKernel E kernel_path dp y
          = Done (0 <=? r_int r, dp1) (answered y (SysOpen kernel_path))
          /\ kernel_fd_ dp1 = r_int r
          /\ kernel_path_ dp1 = (if 0 <=? r_int r then kernel_path else kernel_path_ dp)
          /\ fd_ dp1 = fd_ dp /\ path_ dp1 = path_ dp)
    /\ (kernel_fd_ dp <> -1 -> buffer_ dp = [] ->
        exists rv dp1 y1,
          Close E dp y = Done (rv, dp1) y1
          /\ forall path2 y2, OpenKernel E path2 dp1 y2 = Done (false, dp1) y2).
Proof.
  intros kernel_path dp y r.
  assert (Hrefused : forall p d (z : Sys E),
             kernel_fd_ d <> -1 -> OpenKernel E p d z = Done (false, d) z).
  { intros p d z H. unfold OpenKernel, OpenFile.
    destruct (Z.eqb_spec (kernel_fd_ d) (-1)) as [|_]; [contradiction|].
    cbn. rewrite set_kernel_fd_same. reflexivity. }
  split; [apply Hrefused|]. split.
  - intros Hfd. unfold OpenKernel, OpenFile, bind. rewrite Hfd.
    cbn [Z.eqb negb Pos.eqb]. rewrite call_eq. fold r.
    destruct (Z.ltb_spec (r_int r) 0) as [Hn|Hn];
      [assert (Hb : (0 <=? r_int r) = false) by (apply Z.leb_gt; exact Hn)
      |assert (Hb : (0 <=? r_int r) = true) by (apply Z.leb_le; exact Hn)];
      rewrite Hb; eexists; (split; [reflexivity|]); repeat split.
  - intros Hfd Hempty. unfold Close. rewrite Hempty.
    unfold bind. rewrite !call_eq. cbn [ret].
    eexists _, _, _. split; [reflexivity|].
    intros path2 y2. apply Hrefused. exact Hfd.
Qed.

End Opening.

Lemma Open_outcomes_witness :
  Open Sample.test_env "/dev/sda3" new_DeltaPerformer (Sample.test_sys [] true)
  = Done (0, set_path (set_fd new_DeltaPerformer 3) "/dev/sda3")
      (answered (Sample.test_sys [] true) (SysOpen "/dev/sda3"))
  /\ forall path2 y2,
       Open Sample.test_env path2 (set_path (set_fd new_DeltaPerformer 3) "/dev/sda3") y2
       = Done (- EINVAL, set_path (set_fd new_DeltaPerformer 3) "/dev/sda3") y2.
Proof.
  refine (proj2 (proj2 (Open_outcomes Sample.test_env "/dev/sda3" new_DeltaPerformer
                          (Sample.test_sys [] true))) eq_refl _).
  vm_compute. discriminate.
Defined.

Lemma OpenKernel_outcomes_witness :
  exists dp1,
    OpenKernel Sample.test_env "/dev/sda2" new_DeltaPerformer (Sample.test_sys [] true)
    = Done (true, dp1) (answered (Sample.test_sys [] true) (SysOpen "/dev/sda2"))
    /\ kernel_fd_ dp1 = 3 /\ kernel_path_ dp1 = "/dev/sda2"%string
    /\ fd_ dp1 = -1 /\ path_ dp1 = ""%string.
Proof.
  exact (proj1 (proj2 (OpenKernel_outcomes Sample.test_env "/dev/sda2"
                         new_DeltaPerformer (Sample.test_sys [] true))) eq_refl).
Defined.

(** ** What Write leaves alone, and when it returns *)

Section WriteOutcome.

Variable E : Env.

Lemma same_setup_refl dp : same_setup dp dp.
Proof. repeat split. Qed.

Lemma same_setup_trans a b c : same_setup a b -> same_setup b c -> same_setup a c.
Proof.
  unfold same_setup, same_files.
  intros ((H1 & H2 & H3 & H4) & H5 & H6 & H7 & H8)
         ((K1 & K2 & K3 & K4) & K5 & K6 & K7 & K8).
  repeat split; congruence.
Qed.

Ltac setup_done := solve [repeat split; reflexivity | apply same_setup_refl].

Lemma perform_operation_setup op k dp y :
  wp (perform_operation E op k dp) (fun r _ => same_setup dp (snd r)) y.
Proof.
  unfold perform_operation, PerformReplaceOperation, ExtractSignatureMessage,
    PerformMoveOperation, PerformBsdiffOperation.
  repeat first
    [ lazymatch goal with
      | |- wp (bind (move_read _ _ _ _ _ _) _) _ _ => apply wp_bind, wp_any; intros
      | |- wp (bind (move_write _ _ _ _ _ _) _) _ _ => apply wp_bind, wp_any; intros
      | |- wp (bind (zero_tail _ _ _ _) _) _ _ => apply wp_bind, wp_any; intros
      end
    | wp_step ].
  all: setup_done.
Qed.

Lemma CheckpointUpdateProgress_setup dp y :
  wp (CheckpointUpdateProgress E dp) (fun r _ => same_setup dp (snd r)) y.
Proof. unfold CheckpointUpdateProgress, ResetUpdateProgress. wp_walk; setup_done. Qed.

Lemma Write_iteration_setup op dp y :
  wp (Write_iteration E op dp) (fun r _ => same_setup dp (snd r)) y.
Proof.
  unfold Write_iteration, after_operation.
  apply wp_bind, wp_any. intros [] y1.
  apply wp_bind. eapply wp_conseq; [apply perform_operation_setup|].
  intros [ok dp1] y2 Hf. cbn [snd] in Hf.
  destruct ok; cbn [negb].
  - apply wp_bind. eapply wp_conseq; [apply CheckpointUpdateProgress_setup|].
    intros [ok2 dp2] y3 Hf2. cbn [snd] in Hf2.
    wp_walk. cbn [snd]. eapply same_setup_trans; [exact Hf|].
    eapply same_setup_trans; [|exact Hf2]. setup_done.
  - wp_walk. exact Hf.
Qed.

Lemma Write_loop_outcome fuel count dp y :
  wp (Write_loop E fuel count dp)
     (fun r _ => same_setup dp (snd r)
                 /\ ((fst r = to_int64 count
                      /\ (total_operations (snd r) <= next_operation_num_ (snd r)
                          \/ CanPerformInstallOperation E (snd r)
                               (next_operation (snd r)) = false))
                     \/ fst r = - EINVAL)) y.
Proof.
  revert dp y. induction fuel as [|fuel IH]; intros dp y; cbn [Write_loop].
  - destruct (Z.ltb_spec (next_operation_num_ dp) (total_operations dp)) as [Hlt|Hge].
    + destruct (CanPerformInstallOperation E dp (next_operation dp)) eqn:Hcan;
        cbn [negb]; [exact I|].
      apply wp_ret. split; [setup_done|]. left. split; [reflexivity|].
      right. exact Hcan.
    + apply wp_ret. split; [setup_done|]. left. split; [reflexivity|].
      left. exact Hge.
  - destruct (Z.ltb_spec (next_operation_num_ dp) (total_operations dp)) as [Hlt|Hge].
    + destruct (CanPerformInstallOperation E dp (next_operation dp)) eqn:Hcan;
        cbn [negb].
      * apply wp_bind.
        pose proof (Write_iteration_setup (next_operation dp) dp y) as H1.
        pose proof (Write_iteration_rv E (next_operation dp) dp y) as H2.
        unfold wp in *.
        destruct (Write_iteration E (next_operation dp) dp y) as [[rv dp1] y1| |];
          [|exact I..].
        cbn [fst snd] in *. destruct rv as [e|].
        -- apply wp_ret. split; [exact H1|]. right.
           destruct H2 as [H2|H2]; [discriminate|].
           injection H2 as ->. reflexivity.
        -- specialize (IH dp1 y1).
           destruct (Write_loop E fuel count dp1 y1) as [[rv2 dp2] y2| |];
             [|exact I..].
           destruct IH as (Hs & Hr). split; [|exact Hr].
           eapply same_setup_trans; eassumption.
      * apply wp_ret. split; [setup_done|]. left. split; [reflexivity|].
        right. exact Hcan.
    + apply wp_ret. split; [setup_done|]. left. split; [reflexivity|].
      left. exact Hge.
Qed.

Lemma Write_manifest_valid dp y :
  wp (Write_manifest E dp)
     (fun st _ => match st with
                  | Parsed d => manifest_valid_ d = true
                  | _ => True
                  end) y.
Proof. unfold Write_manifest. wp_walk; try exact I; reflexivity. Qed.

Lemma Write_manifest_need_more dp y y1 :
  Write_manifest E dp y = Done NeedMoreData y1 ->
  size_of (buffer_ dp) < header_size
  \/ size_of (buffer_ dp) < wrap64 (header_size + read_protobuf_length (buffer_ dp)).
Proof.
  unfold Write_manifest.
  destruct (Z.ltb_spec (size_of (buffer_ dp)) header_size) as [Hh|_];
    [left; exact Hh|].
  destruct (Z.ltb_spec (size_of (buffer_ dp))
              (wrap64 (header_size + read_protobuf_length (buffer_ dp)))) as [Hp|_];
    [right; exact Hp|].
  destruct (ParseFromArray E _ _) as [ok m]. destruct ok; cbn [negb].
  - unfold bind. rewrite call_eq. discriminate.
  - discriminate.
Qed.

Lemma append_nothing dp : set_buffer dp (buffer_ dp ++ []) = dp.
Proof. rewrite app_nil_r. destruct dp; reflexivity. Qed.

(** With nothing to do, a Write of no bytes returns 0 at once. *)
Lemma nothing_to_do_idle dp y :
  nothing_to_do E dp -> Write E [] dp y = Done (0, dp) y.
Proof.
  intros Hn. unfold Write. rewrite append_nothing.
  change (to_int64 (size_of (@nil byte))) with 0.
  destruct Hn as [[Hv Hshort] | [Hv Hloop]]; rewrite Hv; cbn [negb].
  - unfold bind, Write_manifest.
    destruct Hshort as [Hh|Hp].
    + apply Z.ltb_lt in Hh. rewrite Hh. reflexivity.
    + destruct (size_of (buffer_ dp) <? header_size); [reflexivity|].
      apply Z.ltb_lt in Hp. rewrite Hp. reflexivity.
  - destruct Hloop as [Hge|Hcan].
    + apply Z.ltb_ge in Hge.
      destruct (loop_fuel dp); cbn [Write_loop]; rewrite Hge; reflexivity.
    + destruct (loop_fuel dp); cbn [Write_loop];
        (destruct (next_operation_num_ dp <? total_operations dp); [|reflexivity]);
        rewrite Hcan; reflexivity.
Qed.


(** X8: Write never changes the descriptors and paths; once the manifest
    is valid it changes neither the manifest nor its validity, the metadata
    size or the block size. *)
Theorem Write_keeps_setup :
  forall bytes dp y rv dp1 y1,
    Write E bytes dp y = Done (rv, dp1) y1 ->
    same_files dp dp1 /\ (manifest_valid_ dp = true -> same_setup dp dp1).
Proof.
  intros bytes dp y rv dp1 y1 H. split.
  - exact (wp_Done (Write_files E bytes dp y) H).
  - intros Hv. revert H. unfold Write. fold (append_buffer dp bytes).
    replace (manifest_valid_ (append_buffer dp bytes)) with true
      by (symmetry; exact Hv).
    cbn [negb]. intros H.
    pose proof (proj1 (wp_Done (Write_loop_outcome _ _ _ y) H)) as Hs.
    cbn [snd] in Hs. eapply same_setup_trans; [|exact Hs]. setup_done.
Qed.

(** X9: once all operations are done, Write only appends to the buffer:
    it returns the byte count and makes no external call; the bytes stay in
    the buffer, so if any were given Close refuses with -1. *)
Theorem Write_after_last_operation :
  forall bytes dp y,
    manifest_valid_ dp = true ->
    total_operations dp <= next_operation_num_ dp ->
    Write E bytes dp y = Done (to_int64 (size_of bytes), append_buffer dp bytes) y
    /\ (bytes <> [] ->
        Close E (append_buffer dp bytes) y = Done (-1, append_buffer dp bytes) y).
Proof.
  intros bytes dp y Hv Hdone. split.
  - unfold Write. fold (append_buffer dp bytes).
    replace (manifest_valid_ (append_buffer dp bytes)) with true
      by (symmetry; exact Hv).
    cbn [negb].
    assert (Hge : (next_operation_num_ (append_buffer dp bytes)
                   <? total_operations (append_buffer dp bytes)) = false)
      by (apply Z.ltb_ge; exact Hdone).
    destruct (loop_fuel (append_buffer dp bytes)); cbn [Write_loop];
      rewrite Hge; reflexivity.
  - intros Hne. unfold Close. fields.
    destruct (buffer_ dp ++ bytes) eqn:Hb; [|reflexivity].
    apply app_eq_nil in Hb. tauto.
Qed.


Lemma set_manifest_same dp : set_manifest dp (manifest_ dp) = dp.
Proof. destruct dp; reflexivity. Qed.

Lemma Write_manifest_error dp y d y1 :
  Write_manifest E dp y = Done (ParseError d) y1 ->
  y1 = y /\ manifest_valid_ d = manifest_valid_ dp
  /\ buffer_ d = buffer_ dp
  /\ d = set_manifest dp (manifest_ d)
  /\ forall m y2, Write_manifest E (set_manifest dp m) y2 = Done (ParseError d) y2.
Proof.
  unfold Write_manifest. fields.
  destruct (size_of (buffer_ dp) <? header_size); [discriminate|].
  destruct (size_of (buffer_ dp) <? wrap64 (header_size + _)); [discriminate|].
  destruct (ParseFromArray E _ _) as [ok m]. destruct ok; cbn [negb].
  - unfold bind. rewrite call_eq. discriminate.
  - intros H. injection H as <- <-. repeat split.
Qed.

(** X11: a manifest that does not parse stays unparsed.  After Write has
    returned -EINVAL with the manifest still invalid it has made no external
    call and holds all the bytes, and every later Write, whatever it is
    given, parses the same bytes again and returns -EINVAL, again without
    an external call. *)
Theorem Write_parse_error_sticky :
  forall bytes dp y dp1 y1,
    size_of bytes < two63 ->
    Write E bytes dp y = Done (- EINVAL, dp1) y1 ->
    manifest_valid_ dp1 = false ->
    y1 = y /\ buffer_ dp1 = buffer_ dp ++ bytes
    /\ forall more y2,
         Write E more dp1 y2 = Done (- EINVAL, append_buffer dp1 more) y2.
Proof.
  intros bytes dp y dp1 y1 Hsz. unfold Write at 1. fold (append_buffer dp bytes).
  destruct (manifest_valid_ (append_buffer dp bytes)) eqn:Hv; cbn [negb].
  - intros H Hinv.
    pose proof (proj1 (wp_Done (Write_loop_outcome _ _ _ y) H)) as (_ & _ & Hs & _).
    cbn [snd] in Hs. congruence.
  - intros H Hinv. apply bind_inv in H. destruct H as (st & y0 & Hm & H).
    destruct st as [|d|d].
    + injection H as Hrv _ _. exfalso.
      rewrite to_int64_small in Hrv
        by (pose proof (size_of_nonneg bytes); rewrite two63_eq in *; lia).
      pose proof (size_of_nonneg bytes). unfold EINVAL in Hrv. lia.
    + injection H as <- <-.
      destruct (Write_manifest_error _ _ _ _ Hm) as (-> & Hvd & Hb & Hd & Hagain).
      split; [reflexivity|]. split; [exact Hb|].
      intros more y2. unfold Write. fold (append_buffer d more).
      replace (manifest_valid_ (append_buffer d more)) with false
        by (symmetry; exact Hinv).
      cbn [negb].
      pose proof (Write_manifest_frame E d more y2) as Hf.
      assert (Hd2 : Write_manifest E d y2 = Done (ParseError d) y2)
        by (rewrite Hd at 1; apply Hagain).
      rewrite Hd2 in Hf. unfold bind. rewrite Hf. reflexivity.
    + pose proof (proj1 (wp_Done (Write_loop_outcome _ _ _ y0) H)) as (_ & _ & Hs & _).
      cbn [snd] in Hs.
      pose proof (wp_Done (Write_manifest_valid _ y) Hm) as Hr.
      cbn beta iota in Hr. congruence.
Qed.

End WriteOutcome.


Lemma Write_keeps_setup_witness :
  exists rv dp1 y1,
    Write Sample.test_env [x0a; x0b; x0c; x0d]
      (set_manifest (set_manifest_valid new_DeltaPerformer true) Sample.replace_manifest)
      (Sample.test_sys [] true) = Done (rv, dp1) y1
    /\ same_setup
         (set_manifest (set_manifest_valid new_DeltaPerformer true) Sample.replace_manifest)
         dp1.
Proof.
  eexists _, _, _. split; [vm_compute; reflexivity|].
  refine (proj2 (Write_keeps_setup Sample.test_env [x0a; x0b; x0c; x0d]
                   (set_manifest (set_manifest_valid new_DeltaPerformer true)
                      Sample.replace_manifest)
                   (Sample.test_sys [] true) _ _ _ _) eq_refl).
  vm_compute. reflexivity.
Defined.

Lemma Write_after_last_operation_witness :
  Write Sample.test_env [x0a] (set_manifest_valid new_DeltaPerformer true)
    (Sample.test_sys [] true)
  = Done (1, append_buffer (set_manifest_valid new_DeltaPerformer true) [x0a])
      (Sample.test_sys [] true)
  /\ Close Sample.test_env
       (append_buffer (set_manifest_valid new_DeltaPerformer true) [x0a])
       (Sample.test_sys [] true)
     = Done (-1, append_buffer (set_manifest_valid new_DeltaPerformer true) [x0a])
         (Sample.test_sys [] true).
Proof.
  destruct (Write_after_last_operation Sample.test_env [x0a]
              (set_manifest_valid new_DeltaPerformer true) (Sample.test_sys [] true)
              eq_refl ltac:(vm_compute; discriminate)) as (H1 & H2).
  split; [exact H1 | apply H2; discriminate].
Defined.


Lemma Write_parse_error_sticky_witness :
  exists dp1,
    Write Sample.test_env (Sample.header Sample.good_magic x09) new_DeltaPerformer
      (Sample.test_sys [] true) = Done (- EINVAL, dp1) (Sample.test_sys [] true)
    /\ forall more y2,
         Write Sample.test_env more dp1 y2
         = Done (- EINVAL, append_buffer dp1 more) y2.
Proof.
  eexists. split; [vm_compute; reflexivity|].
  refine (proj2 (proj2 (Write_parse_error_sticky Sample.test_env
                          (Sample.header Sample.good_magic x09) new_DeltaPerformer
                          (Sample.test_sys [] true) _ _ _ _ _))).
  - vm_compute. reflexivity.
  - vm_compute. reflexivity.
  - vm_compute. reflexivity.
Defined.

(** ** The order of a checkpoint *)

Section CheckpointOrder.

Variable E : Env.


End CheckpointOrder.


(** ** The signature message *)

Section Signature.

Variable E : Env.

Lemma ExtractSignatureMessage_true op dp y :
  carries_signature op dp ->
  ExtractSignatureMessage E op dp y
  = Done (true,
          set_signed_hash_context
            (set_signatures_message_data dp
               (firstn (Z.to_nat (data_length op)) (buffer_ dp)))
            (Hash_GetContext E (hash_calculator_ dp)))
      (answered y (PrefsSetString kPrefsUpdateStateSignedSHA256Context
                     (Hash_GetContext E (hash_calculator_ dp)))).
Proof.
  intros (Hty & Hoff & Hsz & Hnone & Hbo & Hlen). unfold ExtractSignatureMessage.
  rewrite Hty, Hoff, Hsz, Hnone, Hbo, !Z.eqb_refl. cbn [negb].
  replace (data_length op <=? size_of (buffer_ dp)) with true
    by (symmetry; apply Z.leb_le; exact Hlen).
  cbn [negb]. fields. unfold bind. rewrite call_eq, app_nil_r. reflexivity.
Qed.

Lemma ExtractSignatureMessage_false op dp y :
  ~ carries_signature op dp ->
  ExtractSignatureMessage E op dp y = Done (false, dp) y.
Proof.
  intros Hn. unfold ExtractSignatureMessage.
  destruct (op_type op) eqn:Hty; try reflexivity.
  destruct (signatures_offset (manifest_ dp)) as [so|] eqn:Hso; [|reflexivity].
  destruct (Z.eqb_spec so (data_offset op)) as [->|]; [|reflexivity]. cbn [negb].
  destruct (signatures_size (manifest_ dp)) as [ss|] eqn:Hss; [|reflexivity].
  destruct (Z.eqb_spec ss (data_length op)) as [->|]; [|reflexivity]. cbn [negb].
  destruct (signatures_message_data_ dp) eqn:Hsm; [|reflexivity].
  destruct (Z.eqb_spec (buffer_offset_ dp) (data_offset op)) as [Hbo|]; [|reflexivity].
  cbn [negb].
  destruct (Z.leb_spec (data_length op) (size_of (buffer_ dp))) as [Hlen|];
    [|reflexivity].
  elim Hn. repeat split; assumption.
Qed.

(** X13: ExtractSignatureMessage takes the signature message exactly when
    the operation is a REPLACE (not a REPLACE_BZ) at the manifest's
    signatures offset and of its signatures size, no message was taken
    before, and the blob is at the head of the buffer; otherwise it returns
    false and touches nothing.  When it takes it, the message is the blob -
    the data_length bytes of the stream that follow the bytes hashed so far -
    and the signed hash context is the state of the hash over exactly the
    stream before the blob: metadata and all data up to the signatures
    offset.  The context is also written to the preference store, whatever
    that write returns.  Buffer, hash and offsets are not touched. *)
Theorem ExtractSignatureMessage_signed_prefix :
  forall stream op dp y,
    hash_covers stream dp ->
    let before := Z.to_nat (manifest_metadata_size_ dp + data_offset op) in
    (carries_signature op dp ->
     exists dp1,
       ExtractSignatureMessage E op dp y
       = Done (true, dp1)
           (answered y (PrefsSetString kPrefsUpdateStateSignedSHA256Context
                          (sha256_context E (firstn before stream))))
       /\ signed_hash_context_ dp1 = sha256_context E (firstn before stream)
       /\ signatures_message_data_ dp1
          = firstn (Z.to_nat (data_length op)) (skipn before stream)
       /\ same_setup dp dp1
       /\ buffer_ dp1 = buffer_ dp /\ buffer_offset_ dp1 = buffer_offset_ dp
       /\ hash_calculator_ dp1 = hash_calculator_ dp
       /\ next_operation_num_ dp1 = next_operation_num_ dp)
    /\ (~ carries_signature op dp ->
        ExtractSignatureMessage E op dp y = Done (false, dp) y).
Proof.
  intros stream op dp y Hc before. split; [|apply ExtractSignatureMessage_false].
  intros Hs. rewrite (ExtractSignatureMessage_true op dp y Hs).
  destruct Hs as (_ & _ & _ & _ & Hbo & _).
  destruct Hc as (Hstream & Hsize & Hm & Hb & _).
  assert (Hbefore : before = List.length (hc_bytes (hash_calculator_ dp))).
  { unfold before. rewrite <- Hbo, <- Hsize. unfold size_of. apply Nat2Z.id. }
  assert (Hfirst : firstn before stream = hc_bytes (hash_calculator_ dp)).
  { rewrite <- Hstream, Hbefore, firstn_app, Nat.sub_diag, firstn_all.
    cbn [firstn]. apply app_nil_r. }
  assert (Hskip : skipn before stream = buffer_ dp).
  { rewrite <- Hstream, Hbefore, skipn_app, Nat.sub_diag, skipn_all.
    reflexivity. }
  rewrite Hfirst, Hskip. eexists. split; [reflexivity|].
  repeat split.
Qed.

End Signature.

Lemma ExtractSignatureMessage_signed_prefix_witness :
  exists dp1 y1,
    ExtractSignatureMessage Sample.test_env
      (mkOp REPLACE 0 2 [] 0 [mkExtent 0 1] 0)
      (set_buffer
         (set_manifest new_DeltaPerformer (mkManifest [] [] 4096 (Some 0) (Some 2)))
         [x0a; x0b; x0c])
      (Sample.test_sys [] true) = Done (true, dp1) y1
    /\ signatures_message_data_ dp1 = [x0a; x0b].
Proof.
  destruct (proj1 (ExtractSignatureMessage_signed_prefix Sample.test_env
                     [x0a; x0b; x0c]
                     (mkOp REPLACE 0 2 [] 0 [mkExtent 0 1] 0)
                     (set_buffer
                        (set_manifest new_DeltaPerformer
                           (mkManifest [] [] 4096 (Some 0) (Some 2)))
                        [x0a; x0b; x0c])
                     (Sample.test_sys [] true)
                     ltac:(unfold hash_covers; cbn;
                           repeat split; try reflexivity; try lia; constructor))
            ltac:(repeat split; vm_compute; discriminate))
    as (dp1 & H1 & _ & H3 & _).
  eexists dp1, _. split; [exact H1 | exact H3].
Defined.

(** ** Replace operations *)

Section Replace.

Variable E : Env.

Lemma carries_signature_dec op dp :
  carries_signature op dp \/ ~ carries_signature op dp.
Proof.
  unfold carries_signature.
  destruct (op_type op); try (right; intros (H & _); discriminate).
  destruct (signatures_offset (manifest_ dp)) as [so|];
    [|right; intros (_ & H & _); discriminate].
  destruct (Z.eq_dec so (data_offset op)) as [->|];
    [|right; intros (_ & H & _); congruence].
  destruct (signatures_size (manifest_ dp)) as [ss|];
    [|right; intros (_ & _ & H & _); discriminate].
  destruct (Z.eq_dec ss (data_length op)) as [->|];
    [|right; intros (_ & _ & H & _); congruence].
  destruct (signatures_message_data_ dp);
    [|right; intros (_ & _ & _ & H & _); discriminate].
  destruct (Z.eq_dec (buffer_offset_ dp) (data_offset op));
    [|right; intros (_ & _ & _ & _ & H & _); contradiction].
  destruct (Z_le_dec (data_length op) (size_of (buffer_ dp)));
    [|right; intros (_ & _ & _ & _ & _ & H); contradiction].
  left. repeat split; assumption.
Qed.

Lemma trace_answered (y : Sys E) c :
  trace (answered y c) = trace y ++ [EvCall c (answer y c)].
Proof. reflexivity. Qed.

(** The writer part of PerformReplaceOperation, from an applier [d] that
    agrees with [dp] on what the writer is given. *)
Lemma replace_writer op (k : bool) dp d y0 ok dp1 y1 writer :
  fd_ d = fd_ dp -> kernel_fd_ d = kernel_fd_ dp -> block_size_ d = block_size_ dp ->
  buffer_ d = buffer_ dp ->
  writer = match op_type op with
           | REPLACE => ZeroPadDirect
           | _ => BzipZeroPadDirect
           end ->
  (bind (call E (WriterInit writer (if k then kernel_fd_ d else fd_ d)
                   (dst_extents op) (block_size_ d)))
     (fun r =>
        if negb (r_ok r) then ret (false, d) else
        bind (call E (WriterWrite (firstn (Z.to_nat (data_length op)) (buffer_ d))
                        (data_length op)))
          (fun r =>
             if negb (r_ok r) then ret (false, d) else
             bind (call E WriterEnd)
               (fun r =>
                  if negb (r_ok r) then ret (false, d) else
                  ret (true,
                       DiscardBufferHeadBytes (data_length op)
                         (set_buffer_offset d
                            (wrap64 (buffer_offset_ d + data_length op)))))))) y0
  = Done (ok, dp1) y1 ->
  exists front c rx n,
    trace y1 = trace y0 ++ front ++ [EvCall c rx]
    /\ map event_call (front ++ [EvCall c rx])
       = map Some (firstn n (replace_calls op k dp))
    /\ Forall response_ok front
    /\ ok = r_ok rx
    /\ (ok = true ->
        map event_call (front ++ [EvCall c rx]) = map Some (replace_calls op k dp)
        /\ dp1 = DiscardBufferHeadBytes (data_length op)
                   (set_buffer_offset d (wrap64 (buffer_offset_ d + data_length op))))
    /\ (ok = false -> dp1 = d).
Proof.
  intros Hfd Hkfd Hbs Hbuf ->. unfold replace_calls.
  rewrite <- Hfd, <- Hkfd, <- Hbs, <- Hbuf.
  unfold bind. rewrite call_eq.
  match goal with |- context [negb (r_ok ?r)] => destruct (r_ok r) eqn:H1 end;
    cbn [negb].
  2:{ intros H. injection H as <- <- <-. eexists [], _, _, 1%nat.
      rewrite trace_answered. cbn [app map firstn event_call].
      split; [reflexivity|]. split; [reflexivity|]. split; [constructor|].
      split; [symmetry; exact H1|]. split; [discriminate | reflexivity]. }
  rewrite call_eq.
  match goal with |- context [negb (r_ok ?r)] => destruct (r_ok r) eqn:H2 end;
    cbn [negb].
  2:{ intros H. injection H as <- <- <-. eexists [_], _, _, 2%nat.
      rewrite !trace_answered, <- app_assoc. cbn [app map firstn event_call].
      split; [reflexivity|]. split; [reflexivity|].
      split; [repeat constructor; exact H1|].
      split; [symmetry; exact H2|]. split; [discriminate | reflexivity]. }
  rewrite call_eq.
  match goal with |- context [negb (r_ok ?r)] => destruct (r_ok r) eqn:H3 end;
    cbn [negb];
    intros H; injection H as <- <- <-; eexists [_; _], _, _, 3%nat;
    rewrite !trace_answered, <- !app_assoc; cbn [app map firstn event_call];
    (split; [reflexivity|]); (split; [reflexivity|]);
    (split; [repeat constructor; assumption|]);
    (split; [symmetry; exact H3|]); split; try discriminate; try reflexivity.
  intros _. split; reflexivity.
Qed.

(** X14: a replace operation that returns had the right type, its data at
    the head of the buffer and all of it there (the three CHECKs).  It hands
    the writer of its type - on the descriptor of its partition, over its
    destination extents - exactly the data_length bytes at the head of the
    buffer, in the calls Init, Write, End, stopping at the first that fails;
    it returns true only if all three succeeded, and then exactly those
    bytes have left the buffer for the hash and buffer_offset_ has advanced
    by data_length; if a call fails, buffer, hash and offset are as before.
    An operation that carries the signature message has it extracted first,
    and written to the device like any other data. *)
Theorem PerformReplaceOperation_writes_blob :
  forall op k dp y ok dp1 y1,
    PerformReplaceOperation E op k dp y = Done (ok, dp1) y1 ->
    let blob := firstn (Z.to_nat (data_length op)) (buffer_ dp) in
    (op_type op = REPLACE \/ op_type op = REPLACE_BZ)
    /\ buffer_offset_ dp = data_offset op
    /\ data_length op <= size_of (buffer_ dp)
    /\ exists sig front c rx n,
         trace y1 = trace y ++ sig ++ front ++ [EvCall c rx]
         /\ ((carries_signature op dp
              /\ signatures_message_data_ dp1 = blob
              /\ exists r,
                   sig = [EvCall (PrefsSetString kPrefsUpdateStateSignedSHA256Context
                                    (Hash_GetContext E (hash_calculator_ dp))) r])
             \/ (~ carries_signature op dp /\ sig = []))
         /\ map event_call (front ++ [EvCall c rx])
            = map Some (firstn n (replace_calls op k dp))
         /\ Forall response_ok front
         /\ ok = r_ok rx
         /\ (ok = true ->
             map event_call (front ++ [EvCall c rx]) = map Some (replace_calls op k dp)
             /\ buffer_ dp1 = skipn (Z.to_nat (data_length op)) (buffer_ dp)
             /\ hc_bytes (hash_calculator_ dp1)
                = hc_bytes (hash_calculator_ dp) ++ blob
             /\ buffer_offset_ dp1 = wrap64 (buffer_offset_ dp + data_length op))
         /\ (ok = false ->
             buffer_ dp1 = buffer_ dp /\ hash_calculator_ dp1 = hash_calculator_ dp
             /\ buffer_offset_ dp1 = buffer_offset_ dp).
Proof.
  intros op k dp y ok dp1 y1 H blob.
  assert (Hty : op_type op = REPLACE \/ op_type op = REPLACE_BZ).
  { unfold PerformReplaceOperation in H.
    destruct (op_type op); try discriminate H; auto. }
  assert (Hbody : forall body : M E (bool * DeltaPerformer),
             match op_type op with
             | MOVE | BSDIFF => abort
             | _ => body
             end = body)
    by (intros body; destruct Hty as [-> | ->]; reflexivity).
  unfold PerformReplaceOperation in H. rewrite Hbody in H. clear Hbody.
  destruct (Z.eqb_spec (buffer_offset_ dp) (data_offset op)) as [Hbo|];
    [|discriminate H].
  destruct (Z.leb_spec (data_length op) (size_of (buffer_ dp))) as [Hlen|];
    [|discriminate H].
  cbn [negb] in H. split; [exact Hty|]. split; [exact Hbo|]. split; [exact Hlen|].
  unfold bind at 1 in H.
  destruct (carries_signature_dec op dp) as [Hs|Hs].
  - rewrite (ExtractSignatureMessage_true E op dp y Hs) in H.
    eapply (replace_writer op k dp) in H; try reflexivity.
    destruct H as (front & c & rx & n & Ht & Hcalls & Hfront & Hok & Htrue & Hfalse).
    rewrite trace_answered, <- app_assoc in Ht.
    eexists [_], front, c, rx, n. split; [exact Ht|].
    split.
    { left. split; [exact Hs|]. split; [|eexists; reflexivity].
      destruct ok; [rewrite (proj2 (Htrue eq_refl)) | rewrite (Hfalse eq_refl)];
        reflexivity. }
    split; [exact Hcalls|]. split; [exact Hfront|]. split; [exact Hok|].
    split.
    + intros Ht1. destruct (Htrue Ht1) as (Hall & ->).
      split; [exact Hall|]. repeat split.
    + intros Hf1. rewrite (Hfalse Hf1). repeat split.
  - rewrite (ExtractSignatureMessage_false E op dp y Hs) in H.
    eapply (replace_writer op k dp) in H; try reflexivity.
    destruct H as (front & c & rx & n & Ht & Hcalls & Hfront & Hok & Htrue & Hfalse).
    eexists [], front, c, rx, n. split; [exact Ht|].
    split; [right; split; [exact Hs | reflexivity]|].
    split; [exact Hcalls|]. split; [exact Hfront|]. split; [exact Hok|].
    split.
    + intros Ht1. destruct (Htrue Ht1) as (Hall & ->).
      split; [exact Hall|]. repeat split.
    + intros Hf1. rewrite (Hfalse Hf1). repeat split.
Qed.

End Replace.

Lemma PerformReplaceOperation_writes_blob_witness :
  exists dp1 y1 front c rx,
    PerformReplaceOperation Sample.test_env
      (mkOp REPLACE 0 4 [] 0 [mkExtent 0 1] 0) false
      (set_buffer new_DeltaPerformer [x0a; x0b; x0c; x0d; x0e])
      (Sample.test_sys [] true) = Done (true, dp1) y1
    /\ map event_call (front ++ [EvCall c rx])
       = map Some (replace_calls (mkOp REPLACE 0 4 [] 0 [mkExtent 0 1] 0) false
                     (set_buffer new_DeltaPerformer [x0a; x0b; x0c; x0d; x0e]))
    /\ buffer_ dp1 = [x0e].
Proof.
  eexists _, _.
  assert (Hrun : PerformReplaceOperation Sample.test_env
                   (mkOp REPLACE 0 4 [] 0 [mkExtent 0 1] 0) false
                   (set_buffer new_DeltaPerformer [x0a; x0b; x0c; x0d; x0e])
                   (Sample.test_sys [] true) = Done (true, _) _)
    by (vm_compute; reflexivity).
  destruct (PerformReplaceOperation_writes_blob Sample.test_env _ _ _ _ _ _ _ Hrun)
    as (_ & _ & _ & sig & front & c & rx & n & _ & _ & _ & _ & _ & Htrue & _).
  destruct (Htrue eq_refl) as (Hcalls & Hbuf & _).
  exists front, c, rx. split; [exact Hrun|]. split; [exact Hcalls | exact Hbuf].
Defined.

(** ** Move operations *)

Section Move.

Variable E : Env.

Lemma firstn_length_app {A} (a b : list A) : firstn (List.length a) (a ++ b) = a.
Proof.
  rewrite firstn_app, Nat.sub_diag, firstn_all. cbn [firstn]. apply app_nil_r.
Qed.

Lemma firstn_then_skipn {A} a b (l : list A) :
  firstn a l ++ firstn b (skipn a l) = firstn (a + b) l.
Proof.
  revert l. induction a as [|a IH]; intros l; [reflexivity|].
  destruct l as [|x l]; cbn [firstn skipn Nat.add app].
  - now rewrite firstn_nil.
  - now rewrite IH.
Qed.

Lemma splice_within buf br (data : list byte) :
  0 <= br -> br + size_of data <= size_of buf ->
  size_of (splice buf br data) = size_of buf
  /\ firstn (Z.to_nat (br + size_of data)) (splice buf br data)
     = firstn (Z.to_nat br) buf ++ data.
Proof.
  intros Hbr Hfit. unfold splice, size_of in *.
  assert (Hn : (Z.to_nat br + List.length data <= List.length buf)%nat) by lia.
  assert (Hlen : List.length (firstn (Z.to_nat br) buf) = Z.to_nat br)
    by (rewrite length_firstn; lia).
  split.
  - rewrite !length_app, length_skipn, Hlen. lia.
  - rewrite app_assoc.
    replace (Z.to_nat (br + Z.of_nat (List.length data)))
      with (List.length (firstn (Z.to_nat br) buf ++ data))
      by (rewrite length_app, Hlen; lia).
    apply firstn_length_app.
Qed.

Lemma total_capacity_nonneg extents bs :
  0 <= bs -> Forall (fun e => 0 <= num_blocks e) extents ->
  0 <= total_capacity extents bs.
Proof.
  intros Hbs H. induction H as [|e l He _ IH]; cbn [total_capacity fold_right]; [lia|].
  fold (total_capacity l bs). nia.
Qed.

Lemma sum_blocks_capacity extents bs a :
  wrap64 (fold_left (fun acc e => wrap64 (acc + num_blocks e)) extents a * bs)
  = wrap64 (a * bs + total_capacity extents bs).
Proof.
  revert a. induction extents as [|e l IH]; intros a; cbn [fold_left].
  - cbn. now rewrite Z.add_0_r.
  - rewrite IH. cbn [total_capacity fold_right]. fold (total_capacity l bs).
    unfold wrap64.
    rewrite <- Zplus_mod_idemp_l, Zmult_mod_idemp_l, Zplus_mod_idemp_l.
    f_equal. ring.
Qed.

Lemma move_read_run fd bs extents :
  forall buf br y res y1,
    move_read E fd bs extents buf br y = Done res y1 ->
    exists reads n,
      trace y1 = trace y ++ reads
      /\ map event_call reads = map Some (firstn n (read_calls fd bs extents))
      /\ match res with
         | None => reads <> []
         | Some (buf', br') =>
             map event_call reads = map Some (read_calls fd bs extents)
             /\ Forall read_complete reads
             /\ (0 <= bs -> Forall (fun e => 0 <= num_blocks e) extents ->
                 Forall read_sized reads -> 0 <= br ->
                 br + total_capacity extents bs <= size_of buf ->
                 size_of buf < two63 ->
                 br' = br + total_capacity extents bs
                 /\ size_of buf' = size_of buf
                 /\ firstn (Z.to_nat br') buf'
                    = firstn (Z.to_nat br) buf ++ flat_map bytes_read reads)
         end.
Proof.
  induction extents as [|e rest IH]; intros buf br y res y1; cbn [move_read].
  - intros H. injection H as <- <-. exists [], 0%nat. rewrite app_nil_r.
    split; [reflexivity|]. split; [reflexivity|]. split; [reflexivity|].
    split; [constructor|]. intros _ _ _ _ _ _. cbn.
    rewrite Z.add_0_r, app_nil_r. auto.
  - unfold bind. rewrite call_eq.
    set (c := PReadAll fd (wrap64 (num_blocks e * bs)) (wrap64 (start_block e * bs))).
    set (r := answer y c).
    assert (Hone : trace (answered y c) = trace y ++ [EvCall c r]) by reflexivity.
    destruct (r_ok r) eqn:Hok; cbn [negb].
    2:{ intros H. injection H as <- <-. exists [EvCall c r], 1%nat.
        split; [exact Hone|]. split; [reflexivity | discriminate]. }
    destruct (Z.eqb_spec (r_int r) (to_int64 (wrap64 (num_blocks e * bs))))
      as [Hint|Hint]; cbn [negb].
    2:{ intros H. injection H as <- <-. exists [EvCall c r], 1%nat.
        split; [exact Hone|]. split; [reflexivity | discriminate]. }
    intros H. destruct (IH _ _ _ _ _ H) as (reads & n & Ht & Hcalls & Hres).
    exists (EvCall c r :: reads), (S n).
    split; [rewrite Ht, Hone, <- app_assoc; reflexivity|].
    split; [cbn [map firstn read_calls event_call]; f_equal; exact Hcalls|].
    destruct res as [[buf' br']|]; [|discriminate].
    destruct Hres as (Hall & Hcomplete & Hdata).
    split; [cbn [map read_calls event_call]; f_equal; exact Hall|].
    split; [constructor; [split; assumption | exact Hcomplete]|].
    intros Hbs Hnn Hsized Hbr Hfit Hsz.
    inversion Hnn as [|e0 l0 He Hrest]; subst e0 l0.
    inversion Hsized as [|ev0 l1 Hsize Hsrest]; subst ev0 l1.
    unfold read_sized, c in Hsize.
    cbn [total_capacity fold_right] in *. fold (total_capacity rest bs) in *.
    pose proof (total_capacity_nonneg rest bs Hbs Hrest) as Hcap.
    assert (Hprod : 0 <= num_blocks e * bs) by nia.
    rewrite two63_eq in Hsz.
    assert (Hcount : wrap64 (num_blocks e * bs) = num_blocks e * bs)
      by (apply wrap64_small; rewrite two64_eq; lia).
    rewrite Hcount in Hint.
    rewrite to_int64_small in Hint by (rewrite two63_eq; lia).
    rewrite Hint in Hsize.
    destruct (splice_within buf br (r_bytes r) Hbr ltac:(lia)) as (Hs1 & Hs2).
    rewrite Hsize in Hs2.
    assert (Hbr1 : to_int64 (br + r_int r) = br + num_blocks e * bs)
      by (rewrite Hint; apply to_int64_small; rewrite two63_eq; lia).
    rewrite Hbr1 in Hdata.
    destruct (Hdata Hbs Hrest Hsrest ltac:(lia) ltac:(lia)
                ltac:(rewrite two63_eq; lia)) as (Hbr' & Hsz' & Hfirst).
    split; [lia|]. split; [lia|].
    rewrite Hfirst, Hs2. cbn [flat_map]. unfold bytes_read at 1, c.
    now rewrite <- app_assoc.
Qed.

Lemma move_write_run fd bs extents buf :
  forall bw y res y1,
    move_write E fd bs extents buf bw y = Done res y1 ->
    exists writes m,
      trace y1 = trace y ++ writes
      /\ map write_target writes = map Some (firstn m (write_targets fd bs extents))
      /\ match res with
         | None => writes <> []
         | Some bw' =>
             map write_target writes = map Some (write_targets fd bs extents)
             /\ Forall response_ok writes
             /\ (0 <= bs -> Forall (fun e => 0 <= num_blocks e) extents ->
                 0 <= bw -> bw + total_capacity extents bs < two63 ->
                 bw' = bw + total_capacity extents bs
                 /\ flat_map bytes_written writes
                    = firstn (Z.to_nat (total_capacity extents bs))
                        (skipn (Z.to_nat bw) buf))
         end.
Proof.
  induction extents as [|e rest IH]; intros bw y res y1; cbn [move_write].
  - intros H. injection H as <- <-. exists [], 0%nat. rewrite app_nil_r.
    split; [reflexivity|]. split; [reflexivity|]. split; [reflexivity|].
    split; [constructor|]. intros _ _ _ _. cbn. rewrite Z.add_0_r. auto.
  - unfold bind. rewrite call_eq.
    set (count := wrap64 (num_blocks e * bs)).
    set (c := PWriteAll fd (firstn (Z.to_nat count) (skipn (Z.to_nat bw) buf)) count
                (wrap64 (start_block e * bs))).
    set (r := answer y c).
    assert (Hone : trace (answered y c) = trace y ++ [EvCall c r]) by reflexivity.
    destruct (r_ok r) eqn:Hok; cbn [negb].
    2:{ intros H. injection H as <- <-. exists [EvCall c r], 1%nat.
        split; [exact Hone|]. split; [reflexivity | discriminate]. }
    intros H. destruct (IH _ _ _ _ H) as (writes & m & Ht & Hcalls & Hres).
    exists (EvCall c r :: writes), (S m).
    split; [rewrite Ht, Hone, <- app_assoc; reflexivity|].
    split; [cbn [map firstn write_targets write_target c]; f_equal; exact Hcalls|].
    destruct res as [bw'|]; [|discriminate].
    destruct Hres as (Hall & Hoks & Hdata).
    split; [cbn [map write_targets write_target c]; f_equal; exact Hall|].
    split; [constructor; [exact Hok | exact Hoks]|].
    intros Hbs Hnn Hbw Hfit.
    inversion Hnn as [|e0 l0 He Hrest]; subst e0 l0.
    cbn [total_capacity fold_right] in *. fold (total_capacity rest bs) in *.
    pose proof (total_capacity_nonneg rest bs Hbs Hrest) as Hcap.
    assert (Hprod : 0 <= num_blocks e * bs) by nia.
    rewrite two63_eq in Hfit.
    assert (Hcount : count = num_blocks e * bs)
      by (apply wrap64_small; rewrite two64_eq; lia).
    assert (Hbw1 : to_int64 (bw + count) = bw + num_blocks e * bs)
      by (rewrite Hcount; apply to_int64_small; rewrite two63_eq; lia).
    rewrite Hbw1 in Hdata.
    destruct (Hdata Hbs Hrest ltac:(lia) ltac:(rewrite two63_eq; lia))
      as (Hbw' & Hwritten).
    split; [lia|].
    cbn [flat_map bytes_written c]. rewrite Hwritten, Hcount.
    replace (Z.to_nat (bw + num_blocks e * bs))
      with (Z.to_nat (num_blocks e * bs) + Z.to_nat bw)%nat by lia.
    rewrite <- skipn_skipn, firstn_then_skipn. f_equal. lia.
Qed.

Lemma size_of_repeat (b : byte) n : 0 <= n -> size_of (repeat b (Z.to_nat n)) = n.
Proof. intros H. unfold size_of. rewrite repeat_length. lia. Qed.

Lemma PerformMoveOperation_run op (k : bool) dp y ok dp1 y1 :
  PerformMoveOperation E op k dp y = Done (ok, dp1) y1 ->
  let fd := if k then kernel_fd_ dp else fd_ dp in
  let bs := block_size_ dp in
  dp1 = dp
  /\ sum_blocks (dst_extents op) = sum_blocks (src_extents op)
  /\ exists reads writes n m,
       trace y1 = trace y ++ reads ++ writes
       /\ map event_call reads = map Some (firstn n (read_calls fd bs (src_extents op)))
       /\ map write_target writes
          = map Some (firstn m (write_targets fd bs (dst_extents op)))
       /\ (writes <> [] \/ ok = true ->
           map event_call reads = map Some (read_calls fd bs (src_extents op))
           /\ Forall read_complete reads)
       /\ (ok = true ->
           map write_target writes = map Some (write_targets fd bs (dst_extents op))
           /\ Forall response_ok writes)
       /\ (ok = false -> reads ++ writes <> [])
       /\ (ok = true -> 0 <= bs ->
           Forall (fun e => 0 <= num_blocks e) (src_extents op) ->
           Forall (fun e => 0 <= num_blocks e) (dst_extents op) ->
           total_capacity (src_extents op) bs < two63 ->
           total_capacity (dst_extents op) bs < two63 ->
           Forall read_sized reads ->
           flat_map bytes_written writes = flat_map bytes_read reads).
Proof.
  intros H fd bs. unfold PerformMoveOperation in H. fold fd bs in H.
  destruct (Z.eqb_spec (sum_blocks (dst_extents op)) (sum_blocks (src_extents op)))
    as [Hsum|]; [|discriminate H].
  cbn [negb] in H. apply bind_inv in H. destruct H as (rd & y0 & Hrd & H).
  destruct (move_read_run _ _ _ _ _ _ _ _ Hrd) as (reads & n & Htr & Hrc & Hres).
  destruct rd as [[buf br]|].
  2:{ injection H as <- <- <-. split; [reflexivity|]. split; [exact Hsum|].
      exists reads, [], n, 0%nat. rewrite app_nil_r.
      split; [exact Htr|]. split; [exact Hrc|]. split; [reflexivity|].
      split; [intros [Hw|Hw]; [now elim Hw | discriminate]|].
      split; [discriminate|]. split; [intros _; exact Hres | discriminate]. }
  destruct Hres as (Hrall & Hrcomplete & Hrdata).
  apply bind_inv in H. destruct H as (wr & y2 & Hwr & H).
  destruct (move_write_run _ _ _ _ _ _ _ _ Hwr) as (writes & m & Htw & Hwc & Hwres).
  assert (Htrace : trace y2 = trace y ++ reads ++ writes)
    by (rewrite Htw, Htr, app_assoc; reflexivity).
  destruct wr as [bw|].
  2:{ injection H as <- <- <-. split; [reflexivity|]. split; [exact Hsum|].
      exists reads, writes, n, m.
      split; [exact Htrace|]. split; [exact Hrc|]. split; [exact Hwc|].
      split; [intros _; split; assumption|].
      split; [discriminate|]. split; [|discriminate].
      intros _ Hnil. apply app_eq_nil in Hnil. tauto. }
  destruct Hwres as (Hwall & Hwoks & Hwdata).
  destruct (bw =? br); [|discriminate H]. cbn [negb] in H.
  destruct (bw =? to_int64 (size_of buf)); [|discriminate H]. cbn [negb] in H.
  injection H as <- <- <-. split; [reflexivity|]. split; [exact Hsum|].
  exists reads, writes, n, m.
  split; [exact Htrace|]. split; [exact Hrc|]. split; [exact Hwc|].
  split; [intros _; split; assumption|].
  split; [intros _; split; assumption|]. split; [discriminate|].
  intros _ Hbs Hsrc Hdst Hcs Hcd Hsized.
  pose proof (total_capacity_nonneg _ _ Hbs Hsrc) as Hs0.
  pose proof (total_capacity_nonneg _ _ Hbs Hdst) as Hd0.
  rewrite two63_eq in Hcs, Hcd.
  assert (Hsize : wrap64 (sum_blocks (dst_extents op) * bs)
                  = total_capacity (src_extents op) bs).
  { rewrite Hsum. unfold sum_blocks. rewrite sum_blocks_capacity.
    apply wrap64_small. rewrite two64_eq. lia. }
  assert (Hsame : total_capacity (dst_extents op) bs
                  = total_capacity (src_extents op) bs).
  { rewrite <- Hsize. unfold sum_blocks. rewrite sum_blocks_capacity.
    symmetry. apply wrap64_small. rewrite two64_eq. lia. }
  rewrite Hsize in Hrdata.
  rewrite size_of_repeat in Hrdata by lia.
  destruct (Hrdata Hbs Hsrc Hsized ltac:(lia) ltac:(lia) ltac:(rewrite two63_eq; lia))
    as (Hbr & Hsz & Hfirst).
  destruct (Hwdata Hbs Hdst ltac:(lia) ltac:(rewrite two63_eq; lia)) as (_ & Hw).
  rewrite Hw, Hsame. cbn [Z.to_nat skipn]. cbn [Z.to_nat firstn app] in Hfirst.
  rewrite <- Hfirst, Hbr. reflexivity.
Qed.

(** X15: a move reads before it writes.  Whenever PerformMoveOperation
    returns, the source and destination extents held the same number of
    blocks, the applier is untouched (a move takes nothing from the buffer),
    and the calls it made are positioned reads of the source extents, in
    order, each of num_blocks x block_size bytes at start_block x block_size
    on the descriptor of the partition, followed by positioned writes to the
    destination extents in order.  A write is made only after every source
    extent was read in full, so a failed or short read leaves the device
    untouched; true is returned only if every read and every write
    succeeded, false only after a call that failed. *)
Theorem PerformMoveOperation_reads_then_writes :
  forall op k dp y ok dp1 y1,
    PerformMoveOperation E op k dp y = Done (ok, dp1) y1 ->
    let fd := if k then kernel_fd_ dp else fd_ dp in
    let bs := block_size_ dp in
    dp1 = dp
    /\ sum_blocks (dst_extents op) = sum_blocks (src_extents op)
    /\ exists reads writes n m,
         trace y1 = trace y ++ reads ++ writes
         /\ map event_call reads
            = map Some (firstn n (read_calls fd bs (src_extents op)))
         /\ map write_target writes
            = map Some (firstn m (write_targets fd bs (dst_extents op)))
         /\ (writes <> [] \/ ok = true ->
             map event_call reads = map Some (read_calls fd bs (src_extents op))
             /\ Forall read_complete reads)
         /\ (ok = true ->
             map write_target writes
             = map Some (write_targets fd bs (dst_extents op))
             /\ Forall response_ok writes)
         /\ (ok = false -> reads ++ writes <> []).
Proof.
  intros op k dp y ok dp1 y1 H fd bs.
  destruct (PerformMoveOperation_run op k dp y ok dp1 y1 H)
    as (Hdp & Hsum & reads & writes & n & m & H1 & H2 & H3 & H4 & H5 & H6 & _).
  split; [exact Hdp|]. split; [exact Hsum|].
  exists reads, writes, n, m. repeat (split; [assumption|]). exact H6.
Qed.

(** X16: a move that succeeds writes what it read.  With extents that
    describe less than 2^63 bytes, and positioned reads that store as many
    bytes as they report, the bytes handed to the positioned writes, taken
    together in order, are the bytes the positioned reads returned, taken
    together in order: the source extents' contents, as they were when read,
    are cut to the sizes of the destination extents. *)
Theorem PerformMoveOperation_copies :
  forall op k dp y dp1 y1,
    PerformMoveOperation E op k dp y = Done (true, dp1) y1 ->
    let fd := if k then kernel_fd_ dp else fd_ dp in
    let bs := block_size_ dp in
    0 <= bs ->
    Forall (fun e => 0 <= num_blocks e) (src_extents op) ->
    Forall (fun e => 0 <= num_blocks e) (dst_extents op) ->
    total_capacity (src_extents op) bs < two63 ->
    total_capacity (dst_extents op) bs < two63 ->
    exists reads writes,
      trace y1 = trace y ++ reads ++ writes
      /\ map event_call reads = map Some (read_calls fd bs (src_extents op))
      /\ map write_target writes = map Some (write_targets fd bs (dst_extents op))
      /\ (Forall read_sized reads ->
          flat_map bytes_written writes = flat_map bytes_read reads).
Proof.
  intros op k dp y dp1 y1 H fd bs Hbs Hsrc Hdst Hcs Hcd.
  destruct (PerformMoveOperation_run op k dp y true dp1 y1 H)
    as (_ & _ & reads & writes & n & m & H1 & _ & _ & H4 & H5 & _ & H7).
  exists reads, writes. split; [exact H1|].
  split; [apply H4; right; reflexivity|].
  split; [apply H5; reflexivity|].
  intros Hsized. apply H7; try assumption. reflexivity.
Qed.

End Move.

Lemma PerformMoveOperation_reads_then_writes_witness :
  exists dp1 y1 reads writes n m,
    PerformMoveOperation Sample.test_env
      (nth 0 (install_operations Sample.move_manifest) default_operation) false
      (set_block_size new_DeltaPerformer 1)
      (Sample.test_sys Sample.abc_disk true) = Done (false, dp1) y1
    /\ trace y1 = reads ++ writes
    /\ map event_call reads
       = map Some (firstn n (read_calls (-1) 1
                               [mkExtent 0 1; mkExtent 1 1; mkExtent 2 1]))
    /\ map write_target writes
       = map Some (firstn m (write_targets (-1) 1
                               [mkExtent 1 1; mkExtent 0 1; mkExtent 9 1]))
    /\ reads ++ writes <> [].
Proof.
  eexists _, _.
  assert (Hrun : PerformMoveOperation Sample.test_env
                   (nth 0 (install_operations Sample.move_manifest) default_operation)
                   false (set_block_size new_DeltaPerformer 1)
                   (Sample.test_sys Sample.abc_disk true) = Done (false, _) _)
    by (vm_compute; reflexivity).
  destruct (PerformMoveOperation_reads_then_writes Sample.test_env _ _ _ _ _ _ _ Hrun)
    as (_ & _ & reads & writes & n & m & H1 & H2 & H3 & _ & _ & H6).
  exists reads, writes, n, m. split; [exact Hrun|].
  split; [exact H1|]. split; [exact H2|]. split; [exact H3|]. apply H6. reflexivity.
Defined.

Lemma PerformMoveOperation_copies_witness :
  exists dp1 y1 reads writes,
    PerformMoveOperation Sample.test_env
      (mkOp MOVE 0 0 [mkExtent 0 1; mkExtent 1 1] 0 [mkExtent 1 1; mkExtent 0 1] 0)
      false (set_block_size new_DeltaPerformer 1)
      (Sample.test_sys Sample.abc_disk true) = Done (true, dp1) y1
    /\ trace y1 = reads ++ writes
    /\ (Forall read_sized reads ->
        flat_map bytes_written writes = flat_map bytes_read reads).
Proof.
  eexists _, _.
  assert (Hrun : PerformMoveOperation Sample.test_env
                   (mkOp MOVE 0 0 [mkExtent 0 1; mkExtent 1 1] 0
                      [mkExtent 1 1; mkExtent 0 1] 0)
                   false (set_block_size new_DeltaPerformer 1)
                   (Sample.test_sys Sample.abc_disk true) = Done (true, _) _)
    by (vm_compute; reflexivity).
  destruct (PerformMoveOperation_copies Sample.test_env _ _ _ _ _ _ Hrun
              ltac:(vm_compute; discriminate)
              ltac:(repeat constructor; vm_compute; discriminate)
              ltac:(repeat constructor; vm_compute; discriminate)
              ltac:(vm_compute; reflexivity) ltac:(vm_compute; reflexivity))
    as (reads & writes & H1 & _ & _ & H4).
  exists reads, writes. split; [exact Hrun|]. split; [exact H1 | exact H4].
Defined.

(** ** VerifyPayload with a public key *)

Section VerifySigned.

Variable E : Env.

Lemma bytes_eqb_eq a b : bytes_eqb a b = true <-> a = b.
Proof.
  unfold bytes_eqb. destruct (list_eq_dec Byte.byte_eq_dec a b); split; congruence.
Qed.

(** X17: with the hash and size checks passed and the public key file in
    place, VerifyPayload refuses a payload from which no signature message
    was extracted, without calling the verifier.  Otherwise it has the
    signature message verified against the key at the effective key path,
    and returns true exactly when the verification succeeds, the saved
    signed hash context can be restored and finalized, and the hash it
    yields is not empty and equals the hash data the signature carries. *)
Theorem VerifyPayload_signed :
  forall public_key_path expected_hash expected_size dp y,
    let download_hash := hc_hash (hash_calculator_ dp) in
    let key_path := effective_key_path public_key_path in
    let y1 := answered y (FileExists key_path) in
    let verify := VerifySignature (signatures_message_data_ dp) key_path in
    let context := signed_hash_context_ dp in
    download_hash <> ""%string -> download_hash = expected_hash ->
    expected_size = wrap64 (manifest_metadata_size_ dp + buffer_offset_ dp) ->
    r_ok (answer y (FileExists key_path)) = true ->
    (signatures_message_data_ dp = [] ->
     VerifyPayload E public_key_path expected_hash expected_size dp y = Done false y1)
    /\ (signatures_message_data_ dp <> [] ->
        exists b,
          VerifyPayload E public_key_path expected_hash expected_size dp y
          = Done b (answered y1 verify)
          /\ (b = true <->
              r_ok (answer y1 verify) = true
              /\ context_SetContext E context = true
              /\ context_Finalize E context = true
              /\ context_raw_hash E context <> []
              /\ context_raw_hash E context = r_bytes (answer y1 verify))).
Proof.
  intros key hash size dp y download_hash key_path y1 verify context
    Hne Hhash Hsize Hkey.
  unfold VerifyPayload. fold (effective_key_path key). fold key_path download_hash.
  apply string_empty_false in Hne. rewrite Hne.
  rewrite Hhash, String.eqb_refl, Hsize, Z.eqb_refl. cbn [negb].
  unfold bind. rewrite call_eq, Hkey. cbn [negb]. fold y1. split.
  - intros ->. reflexivity.
  - intros Hsig.
    assert (Hm : forall (a b : M E bool),
               match signatures_message_data_ dp with
               | [] => a
               | _ :: _ => b
               end = b)
      by (intros a b; destruct (signatures_message_data_ dp);
          [contradiction | reflexivity]).
    rewrite Hm, call_eq. fold verify. fold context.
    destruct (r_ok (answer y1 verify)) eqn:Hv; cbn [negb].
    2:{ exists false. split; [reflexivity|]. split; [discriminate|].
        intros (H & _). discriminate. }
    destruct (context_SetContext E context) eqn:Hc1; cbn [negb].
    2:{ exists false. split; [reflexivity|]. split; [discriminate|].
        intros (_ & H & _). discriminate. }
    destruct (context_Finalize E context) eqn:Hc2; cbn [negb].
    2:{ exists false. split; [reflexivity|]. split; [discriminate|].
        intros (_ & _ & H & _). discriminate. }
    destruct (context_raw_hash E context) as [|h0 hl] eqn:Hraw.
    { exists false. split; [reflexivity|]. split; [discriminate|].
      intros (_ & _ & _ & H & _). now elim H. }
    eexists. split; [reflexivity|]. rewrite bytes_eqb_eq. split.
    + intros Heq. repeat split; try assumption. discriminate.
    + intros (_ & _ & _ & _ & Heq). exact Heq.
Qed.

End VerifySigned.

Lemma VerifyPayload_signed_witness :
  exists y',
    VerifyPayload keyed_env "" "habc" 0 signed_applier keyed_sys = Done true y'.
Proof.
  destruct (proj2 (VerifyPayload_signed keyed_env "" "habc" 0 signed_applier keyed_sys
                     ltac:(discriminate) eq_refl eq_refl eq_refl)
              ltac:(discriminate)) as (b & Hrun & Hiff).
  assert (Hb : b = true).
  { apply Hiff. repeat split; try reflexivity. discriminate. }
  rewrite Hb in Hrun. eexists. exact Hrun.
Defined.

(** ** From the first byte to the verdict *)

Section EndToEnd.

Variable E : Env.
Hypothesis parser : parser_wf E.

Lemma feed_covers chunks :
  forall stream dp y,
    hash_covers stream dp ->
    size_of (stream ++ List.concat chunks) < two64 ->
    wp (feed E chunks dp)
       (fun r _ => fst r = true ->
                   hash_covers (stream ++ List.concat chunks) (snd r)) y.
Proof.
  induction chunks as [|chunk rest IH]; intros stream dp y Hc Hsz;
    cbn [feed List.concat] in *.
  - apply wp_ret. intros _. rewrite app_nil_r. exact Hc.
  - assert (Hsz1 : size_of (stream ++ chunk) < two64).
    { rewrite app_assoc, size_of_app in Hsz.
      pose proof (size_of_nonneg (List.concat rest)). lia. }
    apply wp_bind.
    eapply wp_conseq; [apply (Write_covers E stream chunk dp y parser Hc Hsz1)|].
    intros [rv d] y1 Hd. cbn [snd] in Hd.
    destruct (rv <? 0).
    + apply wp_ret. discriminate.
    + rewrite app_assoc. apply IH; [exact Hd | now rewrite <- app_assoc].
Qed.

(** X18: the verdict is about the bytes that were fed.  Feed a fresh
    applier any chunks; if every Write succeeds and leaves the buffer empty,
    Close finalizes the hash, and VerifyPayload - the public key file being
    absent - returns true exactly when the SHA-256 of the whole stream, in
    the order fed, is not empty and equals the expected hash, and the
    expected size is the length of the stream. *)
Theorem payload_verified_end_to_end :
  forall chunks y0 dp y rv dp1 y1 public_key_path expected_hash expected_size,
    let stream := List.concat chunks in
    size_of stream < two64 ->
    feed E chunks new_DeltaPerformer y0 = Done (true, dp) y ->
    buffer_ dp = [] ->
    Close E dp y = Done (rv, dp1) y1 ->
    r_ok (answer y1 (FileExists (effective_key_path public_key_path))) = false ->
    exists b y2,
      VerifyPayload E public_key_path expected_hash expected_size dp1 y1 = Done b y2
      /\ (b = true <->
          sha256_hash E stream <> ""%string
          /\ sha256_hash E stream = expected_hash
          /\ expected_size = size_of stream).
Proof.
  intros chunks y0 dp y rv dp1 y1 key hash size stream Hsz Hfeed Hempty Hclose Hkey.
  pose proof (wp_Done (feed_covers chunks [] new_DeltaPerformer y0
                         new_DeltaPerformer_covers Hsz) Hfeed eq_refl) as Hc.
  cbn [snd app] in Hc. fold stream in Hc.
  destruct Hc as (Hstream & Hsize & Hm & Hb & _).
  rewrite Hempty, app_nil_r in Hstream.
  unfold Close in Hclose. rewrite Hempty in Hclose.
  unfold bind in Hclose. rewrite !call_eq in Hclose. cbn [ret] in Hclose.
  injection Hclose as _ <- <-.
  unfold VerifyPayload. fields. fold (effective_key_path key).
  cbn [Hash_Finalize hc_hash hc_bytes]. rewrite Hstream.
  assert (Hwrap : wrap64 (manifest_metadata_size_ dp + buffer_offset_ dp)
                  = size_of stream).
  { rewrite <- Hsize, Hstream. apply wrap64_small.
    split; [apply size_of_nonneg | exact Hsz]. }
  rewrite Hwrap.
  destruct (string_empty (sha256_hash E stream)) eqn:He.
  { exists false. eexists. split; [reflexivity|]. split; [discriminate|].
    intros (H & _). apply string_empty_false in H. congruence. }
  apply string_empty_false in He.
  destruct (String.eqb_spec (sha256_hash E stream) hash) as [Hh|Hh]; cbn [negb].
  2:{ exists false. eexists. split; [reflexivity|]. split; [discriminate|].
      intros (_ & H & _). contradiction. }
  destruct (Z.eqb_spec size (size_of stream)) as [Hs|Hs]; cbn [negb].
  2:{ exists false. eexists. split; [reflexivity|]. split; [discriminate|].
      intros (_ & _ & H). contradiction. }
  unfold bind. rewrite call_eq.
  match goal with
  | |- context [negb (r_ok ?r)] => replace (r_ok r) with false
  end.
  cbn [negb]. exists true. eexists. split; [reflexivity|].
  split; [intros _; repeat split; assumption | reflexivity].
Qed.

End EndToEnd.

Lemma payload_verified_end_to_end_witness :
  exists dp y rv dp1 y1 y2,
    feed Sample.test_env
      [Sample.header Sample.good_magic x03; [x0a; x0b]; [x0c; x0d]]
      new_DeltaPerformer (Sample.test_sys [] true) = Done (true, dp) y
    /\ Close Sample.test_env dp y = Done (rv, dp1) y1
    /\ VerifyPayload Sample.test_env ""
         (sha256_hash Sample.test_env
            (Sample.header Sample.good_magic x03 ++ [x0a; x0b; x0c; x0d]))
         25 dp1 y1 = Done true y2.
Proof.
  eexists _, _, _, _, _.
  assert (Hfeed : feed Sample.test_env
                    [Sample.header Sample.good_magic x03; [x0a; x0b]; [x0c; x0d]]
                    new_DeltaPerformer (Sample.test_sys [] true) = Done (true, _) _)
    by (vm_compute; reflexivity).
  match type of Hfeed with
  | _ = Done (_, ?dp) ?y =>
      assert (Hclose : Close Sample.test_env dp y = Done (_, _) _)
        by (vm_compute; reflexivity)
  end.
  match type of Hfeed with
  | _ = Done (_, ?dp) ?y =>
      match type of Hclose with
      | _ = Done (?rv, ?dp1) ?y1 =>
          pose proof (payload_verified_end_to_end Sample.test_env Sample_parser_wf
                        [Sample.header Sample.good_magic x03; [x0a; x0b]; [x0c; x0d]]
                        (Sample.test_sys [] true) dp y rv dp1 y1 ""%string
                        (sha256_hash Sample.test_env
                           (Sample.header Sample.good_magic x03
                              ++ [x0a; x0b; x0c; x0d]))
                        25) as H
      end
  end.
  specialize (H ltac:(vm_compute; reflexivity) Hfeed).
  specialize (H ltac:(vm_compute; reflexivity) Hclose).
  specialize (H ltac:(vm_compute; reflexivity)).
  destruct H as (b & y2 & Hrun & Hiff).
  assert (Hb : b = true).
  { apply Hiff. split; [vm_compute; discriminate|].
    split; [reflexivity|]. vm_compute. reflexivity. }
  rewrite Hb in Hrun. exists y2.
  split; [exact Hfeed|]. split; [exact Hclose | exact Hrun].
Defined.

(** ** Which device an operation touches *)

Section Partition.

Variable E : Env.

Ltac on_one :=
  cbn [on_partition device_fd patched_paths]; split;
  [ let H := fresh in intros ? H; try discriminate H; injection H as <-; reflexivity
  | let H := fresh in
    intros ? H; cbn [In] in H;
    repeat match type of H with
           | _ \/ _ => destruct H as [H|H]
           | False => destruct H
           end; subst; reflexivity ].

Ltac on_all :=
  cbn [app];
  repeat (apply Forall_cons; [first [exact I | on_one]|]); apply Forall_nil.

Lemma reads_on_partition fd path bs extents :
  forall reads n,
    map event_call reads = map Some (firstn n (read_calls fd bs extents)) ->
    Forall (on_partition fd path) reads.
Proof.
  induction extents as [|e rest IH]; intros reads n H.
  - rewrite firstn_nil in H. destruct reads; [constructor | discriminate].
  - destruct n as [|n]; cbn [firstn read_calls map] in H.
    + destruct reads; [constructor | discriminate].
    + destruct reads as [|ev reads]; [constructor|].
      cbn [map] in H. injection H as Hev Hrest.
      constructor; [|apply (IH reads n Hrest)].
      destruct ev as [c r|b]; [|discriminate]. cbn [event_call] in Hev.
      injection Hev as ->. on_one.
Qed.

Lemma writes_on_partition fd path bs extents :
  forall writes m,
    map write_target writes = map Some (firstn m (write_targets fd bs extents)) ->
    Forall (on_partition fd path) writes.
Proof.
  induction extents as [|e rest IH]; intros writes m H.
  - rewrite firstn_nil in H. destruct writes; [constructor | discriminate].
  - destruct m as [|m]; cbn [firstn write_targets map] in H.
    + destruct writes; [constructor | discriminate].
    + destruct writes as [|ev writes]; [constructor|].
      cbn [map] in H. injection H as Hev Hrest.
      constructor; [|apply (IH writes m Hrest)].
      destruct ev as [c r|b]; [|discriminate].
      destruct c; try discriminate. cbn [write_target] in Hev.
      injection Hev as -> _ _. on_one.
Qed.

Lemma perform_operation_partition op (k : bool) dp y :
  wpt (perform_operation E op k dp)
    (fun _ events _ =>
       Forall (on_partition (if k then kernel_fd_ dp else fd_ dp)
                 (if k then kernel_path_ dp else path_ dp)) events) y.
Proof.
  unfold perform_operation. destruct (op_type op) eqn:Hty.
  - unfold PerformReplaceOperation, ExtractSignatureMessage. rewrite Hty.
    wpt_walk; fields; on_all.
  - unfold PerformReplaceOperation, ExtractSignatureMessage. rewrite Hty.
    wpt_walk; fields; on_all.
  - unfold wpt.
    destruct (PerformMoveOperation E op k dp y) as [[ok dp1] y1| |] eqn:Hrun;
      [|exact I..].
    destruct (PerformMoveOperation_run E op k dp y ok dp1 y1 Hrun)
      as (_ & _ & reads & writes & n & m & Ht & Hr & Hw & _).
    exists (reads ++ writes). split; [exact Ht|].
    apply Forall_app. split.
    + eapply reads_on_partition, Hr.
    + eapply writes_on_partition, Hw.
  - unfold PerformBsdiffOperation.
    repeat first
      [ lazymatch goal with
        | |- wpt (zero_tail _ _ _ _) _ _ =>
            eapply wpt_conseq; [apply zero_tail_trace|]; cbv beta;
            intros ? ? ? (? & [(? & ->) | (? & ? & ? & ? & ? & ->)])
        end
      | wpt_step ].
    all: unfold tail_zero_call; on_all.
Qed.

Lemma pre_operation_partition fd path op y :
  wpt (pre_operation E op) (fun _ events _ => Forall (on_partition fd path) events) y.
Proof. unfold pre_operation, ResetUpdateProgress. wpt_walk; on_all. Qed.

Lemma after_operation_partition fd path r y :
  wpt (after_operation E r) (fun _ events _ => Forall (on_partition fd path) events) y.
Proof.
  unfold after_operation, CheckpointUpdateProgress, ResetUpdateProgress.
  destruct r as [ok dp]. wpt_walk; on_all.
Qed.

(** X19: an operation touches the device of its partition only.  In a turn
    of the loop of Write, an operation of the rootfs list (its index is below
    install_operations_size) sets up its extent writer, reads, writes and
    zeroes on fd_ only, and has the patch tool work on path_ only; an
    operation of the kernel list uses kernel_fd_ and kernel_path_ only. *)
Theorem Write_iteration_partition :
  forall op dp y r y1,
    Write_iteration E op dp y = Done r y1 ->
    let kernel := size_of (install_operations (manifest_ dp)) <=? next_operation_num_ dp in
    exists events,
      trace y1 = trace y ++ events
      /\ Forall (on_partition (if kernel then kernel_fd_ dp else fd_ dp)
                   (if kernel then kernel_path_ dp else path_ dp)) events.
Proof.
  intros op dp y r y1 Hrun kernel.
  refine (wpt_Done _ Hrun).
  unfold Write_iteration. fold kernel.
  set (fd := if kernel then kernel_fd_ dp else fd_ dp).
  set (path := if kernel then kernel_path_ dp else path_ dp).
  apply wpt_bind.
  eapply wpt_conseq; [apply (pre_operation_partition fd path op y)|].
  intros [] ev1 y2 H1. apply wpt_bind.
  eapply wpt_conseq; [apply perform_operation_partition|].
  intros r1 ev2 y3 H2. cbv beta.
  eapply wpt_conseq; [apply (after_operation_partition fd path r1 y3)|].
  intros r2 ev3 y4 H3. cbv beta.
  apply Forall_app. split; [exact H1|]. apply Forall_app. split; [exact H2 | exact H3].
Qed.

End Partition.

Lemma Write_iteration_partition_witness :
  exists r y1 events,
    Write_iteration Sample.test_env
      (mkOp REPLACE 0 4 [] 0 [mkExtent 0 1] 0)
      (set_kernel_fd (set_fd (set_buffer new_DeltaPerformer [x0a; x0b; x0c; x0d]) 3) 4)
      (Sample.test_sys [] true) = Done r y1
    /\ trace y1 = events
    /\ Forall (on_partition 4 "") events.
Proof.
  eexists _, _.
  assert (Hrun : Write_iteration Sample.test_env
                   (mkOp REPLACE 0 4 [] 0 [mkExtent 0 1] 0)
                   (set_kernel_fd
                      (set_fd (set_buffer new_DeltaPerformer [x0a; x0b; x0c; x0d]) 3) 4)
                   (Sample.test_sys [] true) = Done _ _)
    by (vm_compute; reflexivity).
  destruct (Write_iteration_partition Sample.test_env _ _ _ _ _ Hrun)
    as (events & H1 & H2).
  exists events. split; [exact Hrun|]. split; [exact H1 | exact H2].
Defined.

(** ** The manifest step *)

Section ManifestStep.

Variable E : Env.

(** X20: once the buffer holds the header and the whole manifest (whose
    length, the big-endian 64-bit field after magic and version, is below
    2^31) and the parser accepts the manifest bytes, the manifest step hands
    the parser exactly those bytes, installs the manifest, marks it valid,
    takes the block size from it, records header plus manifest length as
    manifest_metadata_size_ and saves it in the preference store (whatever
    that write returns), and moves exactly the header and manifest bytes from
    the buffer into the hash; buffer_offset_ stays, so data offsets count
    from the end of the manifest. *)
Theorem Write_manifest_parsed :
  forall dp y,
    let protobuf_length := read_protobuf_length (buffer_ dp) in
    let metadata_size := header_size + protobuf_length in
    let manifest_bytes :=
      firstn (Z.to_nat protobuf_length)
        (skipn (Z.to_nat header_size) (buffer_ dp)) in
    metadata_size <= size_of (buffer_ dp) ->
    protobuf_length < 2 ^ 31 ->
    fst (ParseFromArray E manifest_bytes protobuf_length) = true ->
    exists dp1,
      Write_manifest E dp y
      = Done (Parsed dp1)
          (answered y (PrefsSetInt64 kPrefsManifestMetadataSize metadata_size))
      /\ manifest_ dp1 = snd (ParseFromArray E manifest_bytes protobuf_length)
      /\ manifest_valid_ dp1 = true
      /\ manifest_metadata_size_ dp1 = metadata_size
      /\ block_size_ dp1 = block_size (manifest_ dp1)
      /\ buffer_ dp1 = skipn (Z.to_nat metadata_size) (buffer_ dp)
      /\ hc_bytes (hash_calculator_ dp1)
         = hc_bytes (hash_calculator_ dp)
             ++ firstn (Z.to_nat metadata_size) (buffer_ dp)
      /\ buffer_offset_ dp1 = buffer_offset_ dp
      /\ next_operation_num_ dp1 = next_operation_num_ dp
      /\ same_files dp dp1.
Proof.
  intros dp y protobuf_length metadata_size manifest_bytes Hfit Hsmall Hparse.
  pose proof (read_protobuf_length_range (buffer_ dp)) as Hrange.
  fold protobuf_length in Hrange.
  assert (Hh : header_size = 20) by reflexivity.
  assert (H31 : 2 ^ 31 = 2147483648) by reflexivity.
  unfold Write_manifest. fold protobuf_length.
  assert (Hwrap : wrap64 (header_size + protobuf_length) = metadata_size)
    by (apply wrap64_small; unfold metadata_size; rewrite Hh, two64_eq; lia).
  assert (H32 : to_int32 protobuf_length = protobuf_length).
  { unfold to_int32. change (2 ^ 32) with 4294967296. rewrite H31.
    rewrite Z.mod_small; lia. }
  rewrite Hwrap, H32. fold manifest_bytes.
  destruct (Z.ltb_spec (size_of (buffer_ dp)) header_size) as [|_];
    [unfold metadata_size in Hfit; lia|].
  destruct (Z.ltb_spec (size_of (buffer_ dp)) metadata_size) as [|_]; [lia|].
  destruct (ParseFromArray E manifest_bytes protobuf_length) as [ok m].
  cbn [fst snd] in *. subst ok. cbn [negb]. unfold DiscardBufferHeadBytes. fields.
  unfold bind. rewrite call_eq.
  rewrite to_int64_small by (unfold metadata_size; rewrite Hh, two63_eq; lia).
  eexists. split; [reflexivity|]. repeat split.
Qed.

(** X21: the test that waits for the whole manifest adds the length field
    to the header size in 64 bits.  A length field of 2^64 - 20 or more
    wraps the sum to less than the header size, so a buffer that holds the
    20 header bytes is parsed at once: the parser is called with a negative
    size (the low 32 bits of the field taken as an int), hence over no bytes,
    and if it accepts, manifest_metadata_size_ is less than the header
    size. *)
Theorem Write_manifest_length_wraps :
  forall dp y,
    let protobuf_length := read_protobuf_length (buffer_ dp) in
    let size := protobuf_length - two64 in
    header_size <= size_of (buffer_ dp) ->
    two64 - header_size <= protobuf_length ->
    - header_size <= size < 0
    /\ exists st y',
         Write_manifest E dp y = Done st y'
         /\ match st with
            | NeedMoreData => False
            | ParseError _ => fst (ParseFromArray E [] size) = false
            | Parsed dp1 =>
                fst (ParseFromArray E [] size) = true
                /\ manifest_metadata_size_ dp1 = header_size + size
            end.
Proof.
  intros dp y protobuf_length size Hbuf Hbig.
  pose proof (read_protobuf_length_range (buffer_ dp)) as Hrange.
  fold protobuf_length in Hrange.
  assert (Hh : header_size = 20) by reflexivity.
  split; [unfold size; lia|].
  unfold Write_manifest. fold protobuf_length.
  assert (Hwrap : wrap64 (header_size + protobuf_length) = header_size + size).
  { unfold wrap64, size. rewrite two64_eq in *.
    rewrite Hh in *. Z.div_mod_to_equations. lia. }
  assert (H32 : to_int32 protobuf_length = size).
  { unfold to_int32, size. rewrite two64_eq in *. rewrite Hh in *.
    change (2 ^ 32) with 4294967296. change (2 ^ 31) with 2147483648.
    Z.div_mod_to_equations. lia. }
  rewrite Hwrap, H32.
  destruct (Z.ltb_spec (size_of (buffer_ dp)) header_size) as [|_]; [lia|].
  destruct (Z.ltb_spec (size_of (buffer_ dp)) (header_size + size)) as [|_];
    [unfold size in *; lia|].
  replace (Z.to_nat size) with 0%nat by (unfold size; lia). cbn [firstn].
  destruct (ParseFromArray E [] size) as [ok m]. destruct ok; cbn [negb fst].
  - unfold bind. rewrite call_eq. eexists _, _. split; [reflexivity|].
    split; reflexivity.
  - eexists _, _. split; reflexivity.
Qed.

End ManifestStep.

Lemma Write_manifest_parsed_witness :
  exists dp1 y1,
    Write_manifest Sample.test_env
      (set_buffer new_DeltaPerformer (Sample.header Sample.good_magic x03 ++ [x0a]))
      (Sample.test_sys [] true) = Done (Parsed dp1) y1
    /\ manifest_metadata_size_ dp1 = 21
    /\ buffer_ dp1 = [x0a].
Proof.
  destruct (Write_manifest_parsed Sample.test_env
              (set_buffer new_DeltaPerformer
                 (Sample.header Sample.good_magic x03 ++ [x0a]))
              (Sample.test_sys [] true)
              ltac:(vm_compute; discriminate) ltac:(vm_compute; reflexivity)
              ltac:(vm_compute; reflexivity))
    as (dp1 & Hrun & _ & _ & Hsize & _ & Hbuf & _).
  exists dp1. eexists. split; [exact Hrun|]. split; [exact Hsize | exact Hbuf].
Defined.

Lemma Write_manifest_length_wraps_witness :
  exists st y',
    Write_manifest Sample.test_env
      (set_buffer new_DeltaPerformer
         (Sample.good_magic ++ [x00; x00; x00; x00; x00; x00; x00; x01]
            ++ [xff; xff; xff; xff; xff; xff; xff; xff]))
      (Sample.test_sys [] true) = Done st y'
    /\ st <> NeedMoreData.
Proof.
  destruct (Write_manifest_length_wraps Sample.test_env
              (set_buffer new_DeltaPerformer
                 (Sample.good_magic ++ [x00; x00; x00; x00; x00; x00; x00; x01]
                    ++ [xff; xff; xff; xff; xff; xff; xff; xff]))
              (Sample.test_sys [] true)
              ltac:(vm_compute; discriminate) ltac:(vm_compute; discriminate))
    as (_ & st & y' & Hrun & Hst).
  exists st, y'. split; [exact Hrun|]. intros ->. exact Hst.
Defined.

(** ** The patch tool *)

Section BsdiffProtocol.

Variable E : Env.

Lemma close_temp_file (tmp_fd : Z) (y : Sys E) :
  exists y' closes,
    (if 0 <=? tmp_fd
     then bind (call E (SysClose tmp_fd)) (fun _ => ret tt)
     else ret tt) y = Done tt y'
    /\ trace y' = trace y ++ closes
    /\ (closes = [] \/ exists rc, closes = [EvCall (SysClose tmp_fd) rc]).
Proof.
  destruct (0 <=? tmp_fd).
  - unfold bind. rewrite call_eq. eexists _, _. split; [reflexivity|].
    split; [apply trace_answered|]. right. eexists. reflexivity.
  - exists y, []. split; [reflexivity|]. rewrite app_nil_r. auto.
Qed.

Lemma zero_tail_events op fd bs (y : Sys E) ok y' :
  zero_tail E op fd bs y = Done ok y' ->
  exists tail,
    trace y' = trace y ++ tail /\ (List.length tail <= 1)%nat
    /\ (ok = true -> Forall response_ok tail).
Proof.
  intros H. apply zero_tail_inv in H.
  destruct H as (_ & [(_ & -> & ->) | (_ & front & last_extent & _ & -> & ->)]).
  - exists []. rewrite app_nil_r. repeat split; auto.
  - eexists [_]. split; [apply trace_answered|]. split; [cbn; lia|].
    intros Hok. repeat constructor. exact Hok.
Qed.

End BsdiffProtocol.

Section BsdiffRun.

Variable E : Env.

(** X22: a BSDIFF operation that returns had its data at the head of the
    buffer (the two CHECKs).  It leaves no temporary file behind: if
    MakeTempFile succeeded, the last call is the unlink of that file.  When
    it returns true it has, in this order, made the temporary file, opened
    it and written exactly the data_length bytes at the head of the buffer to
    it, closed it (if the open gave a descriptor), and run the patch tool as
    bspatch path path temp input_positions output_positions - the device
    path of the partition as both the old and the new file, the positions
    being ExtentsToBsdiffPositionsString of the source and destination
    extents - with exit code 0; at most one call, a successful one, lies
    between that and the unlink; and exactly those bytes have left the buffer
    for the hash, buffer_offset_ advancing by data_length.  When it returns
    false the applier is untouched. *)
Theorem PerformBsdiffOperation_protocol :
  forall op k dp y ok dp1 y1,
    PerformBsdiffOperation E op k dp y = Done (ok, dp1) y1 ->
    let bs := block_size_ dp in
    let path := if k then kernel_path_ dp else path_ dp in
    let blob := firstn (Z.to_nat (data_length op)) (buffer_ dp) in
    let template := "/tmp/au_patch.XXXXXX"%string in
    buffer_offset_ dp = data_offset op
    /\ data_length op <= size_of (buffer_ dp)
    /\ exists events,
         trace y1 = trace y ++ events
         /\ (events = []
             \/ (exists rt, events = [EvCall (MakeTempFile template) rt]
                            /\ r_ok rt = false)
             \/ (exists rt middle ru,
                   events = EvCall (MakeTempFile template) rt
                              :: middle ++ [EvCall (Unlink (r_str rt)) ru]
                   /\ r_ok rt = true))
         /\ (ok = true ->
             exists input output rt ro rw closes rx tail ru,
               ExtentsToBsdiffPositionsString (src_extents op) bs (src_length op)
               = Some input
               /\ ExtentsToBsdiffPositionsString (dst_extents op) bs (dst_length op)
                  = Some output
               /\ events
                  = [EvCall (MakeTempFile template) rt;
                     EvCall (OpenTemp (r_str rt)) ro;
                     EvCall (WriteAll (r_int ro) blob (data_length op)) rw]
                    ++ closes
                    ++ [EvCall (SynchronousExec
                                  [kBspatchPath E; path; path; r_str rt; input; output])
                          rx]
                    ++ tail ++ [EvCall (Unlink (r_str rt)) ru]
               /\ r_ok rw = true /\ r_ok rx = true /\ r_int rx = 0
               /\ (closes = [] \/ exists rc, closes = [EvCall (SysClose (r_int ro)) rc])
               /\ Forall response_ok tail /\ (List.length tail <= 1)%nat
               /\ buffer_ dp1 = skipn (Z.to_nat (data_length op)) (buffer_ dp)
               /\ hc_bytes (hash_calculator_ dp1)
                  = hc_bytes (hash_calculator_ dp) ++ blob
               /\ buffer_offset_ dp1 = wrap64 (buffer_offset_ dp + data_length op))
         /\ (ok = false -> dp1 = dp).
Proof.
  intros op k dp y ok dp1 y1 H bs path blob template.
  unfold PerformBsdiffOperation in H. fold bs path blob template in H.
  destruct (Z.eqb_spec (buffer_offset_ dp) (data_offset op)) as [Hbo|];
    [|discriminate H].
  destruct (Z.leb_spec (data_length op) (size_of (buffer_ dp))) as [Hlen|];
    [|discriminate H].
  cbn [negb] in H. split; [exact Hbo|]. split; [exact Hlen|].
  destruct (ExtentsToBsdiffPositionsString (src_extents op) bs (src_length op))
    as [input|] eqn:Hin.
  2:{ injection H as <- <- <-. exists []. rewrite app_nil_r.
      split; [reflexivity|]. split; [left; reflexivity|].
      split; [discriminate | reflexivity]. }
  destruct (ExtentsToBsdiffPositionsString (dst_extents op) bs (dst_length op))
    as [output|] eqn:Hout.
  2:{ injection H as <- <- <-. exists []. rewrite app_nil_r.
      split; [reflexivity|]. split; [left; reflexivity|].
      split; [discriminate | reflexivity]. }
  unfold bind at 1 in H. rewrite call_eq in H.
  set (c1 := MakeTempFile template) in *. set (rt := answer y c1) in *.
  destruct (r_ok rt) eqn:Hrt; cbn [negb] in H.
  2:{ injection H as <- <- <-. exists [EvCall c1 rt].
      split; [apply trace_answered|].
      split; [right; left; exists rt; split; [reflexivity | exact Hrt]|].
      split; [discriminate | reflexivity]. }
  unfold bind at 1 in H. rewrite call_eq in H.
  set (c2 := OpenTemp (r_str rt)) in *. set (ro := answer (answered y c1) c2) in *.
  unfold bind at 1 in H. rewrite call_eq in H.
  set (c3 := WriteAll (r_int ro) blob (data_length op)) in *.
  set (y3 := answered (answered (answered y c1) c2) c3) in *.
  set (rw := answer (answered (answered y c1) c2) c3) in *.
  assert (Ht3 : trace y3 = trace y ++ [EvCall c1 rt; EvCall c2 ro; EvCall c3 rw])
    by (unfold y3; rewrite !trace_answered, <- !app_assoc; reflexivity).
  destruct (close_temp_file E (r_int ro) y3) as (y4 & closes & Hclose & Ht4 & Hcl).
  unfold bind at 1 in H. rewrite Hclose in H.
  assert (Hfail : forall (yu : Sys E) (more : list Event),
             trace yu = trace y4 ++ more ->
             exists events,
               trace (answered yu (Unlink (r_str rt))) = trace y ++ events
               /\ (events = []
                   \/ (exists rt0, events = [EvCall c1 rt0] /\ r_ok rt0 = false)
                   \/ (exists rt0 middle ru,
                         events = EvCall c1 rt0
                                    :: middle ++ [EvCall (Unlink (r_str rt0)) ru]
                         /\ r_ok rt0 = true))
               /\ events
                  = [EvCall c1 rt; EvCall c2 ro; EvCall c3 rw] ++ closes ++ more
                    ++ [EvCall (Unlink (r_str rt))
                          (answer yu (Unlink (r_str rt)))]).
  { intros yu more Hyu. eexists. split; [|split; [|reflexivity]].
    - rewrite trace_answered, Hyu, Ht4, Ht3, <- !app_assoc. reflexivity.
    - right. right. exists rt, ([EvCall c2 ro; EvCall c3 rw] ++ closes ++ more).
      eexists. split; [|exact Hrt]. cbn [app]. rewrite <- !app_assoc. reflexivity. }
  destruct (r_ok rw) eqn:Hrw; cbn [negb] in H.
  2:{ unfold bind in H. rewrite call_eq in H. injection H as <- <- <-.
      destruct (Hfail y4 [] ltac:(now rewrite app_nil_r)) as (events & Ht & Hc & _).
      exists events. split; [exact Ht|]. split; [exact Hc|].
      split; [discriminate | reflexivity]. }
  unfold bind at 1 in H. rewrite call_eq in H.
  set (c4 := SynchronousExec [kBspatchPath E; path; path; r_str rt; input; output]) in *.
  set (rx := answer y4 c4) in *.
  assert (Ht5 : trace (answered y4 c4) = trace y4 ++ [EvCall c4 rx])
    by apply trace_answered.
  destruct (r_ok rx) eqn:Hrx; cbn [negb] in H.
  2:{ unfold bind in H. rewrite call_eq in H. injection H as <- <- <-.
      destruct (Hfail _ _ Ht5) as (events & Ht & Hc & _).
      exists events. split; [exact Ht|]. split; [exact Hc|].
      split; [discriminate | reflexivity]. }
  destruct (Z.eqb_spec (r_int rx) 0) as [Hexit|]; cbn [negb] in H.
  2:{ unfold bind in H. rewrite call_eq in H. injection H as <- <- <-.
      destruct (Hfail _ _ Ht5) as (events & Ht & Hc & _).
      exists events. split; [exact Ht|]. split; [exact Hc|].
      split; [discriminate | reflexivity]. }
  apply bind_inv in H. destruct H as (okz & yz & Hz & H).
  destruct (zero_tail_events E _ _ _ _ _ _ Hz) as (tail & Htz & Hlen1 & Hoks).
  assert (Ht6 : trace yz = trace y4 ++ [EvCall c4 rx] ++ tail)
    by (rewrite Htz, Ht5, <- app_assoc; reflexivity).
  destruct okz; cbn [negb] in H.
  2:{ unfold bind in H. rewrite call_eq in H. injection H as <- <- <-.
      destruct (Hfail _ _ Ht6) as (events & Ht & Hc & _).
      exists events. split; [exact Ht|]. split; [exact Hc|].
      split; [discriminate | reflexivity]. }
  unfold bind in H. rewrite call_eq in H. injection H as <- <- <-.
  destruct (Hfail _ _ Ht6) as (events & Ht & Hc & Hev).
  exists events. split; [exact Ht|]. split; [exact Hc|].
  split; [|discriminate]. intros _.
  exists input, output, rt, ro, rw, closes, rx, tail. eexists.
  split; [reflexivity|]. split; [reflexivity|].
  split; [rewrite Hev, <- !app_assoc; reflexivity|].
  split; [exact Hrw|]. split; [exact Hrx|]. split; [exact Hexit|].
  split; [exact Hcl|]. split; [apply Hoks; reflexivity|]. split; [exact Hlen1|].
  repeat split.
Qed.

End BsdiffRun.

Lemma PerformBsdiffOperation_protocol_witness :
  exists dp1 y1 events,
    PerformBsdiffOperation Sample.test_env Sample.small_bsdiff false
      Sample.small_applier (Sample.test_sys Sample.small_disk true)
    = Done (true, dp1) y1
    /\ trace y1 = events
    /\ exists rt middle ru,
         events = EvCall (MakeTempFile "/tmp/au_patch.XXXXXX") rt
                    :: middle ++ [EvCall (Unlink (r_str rt)) ru].
Proof.
  eexists _, _.
  assert (Hrun : PerformBsdiffOperation Sample.test_env Sample.small_bsdiff false
                   Sample.small_applier (Sample.test_sys Sample.small_disk true)
                 = Done (true, _) _)
    by (vm_compute; reflexivity).
  destruct (PerformBsdiffOperation_protocol Sample.test_env _ _ _ _ _ _ _ Hrun)
    as (_ & _ & events & Ht & Hclean & Htrue & _).
  exists events. split; [exact Hrun|]. split; [exact Ht|].
  destruct (Htrue eq_refl)
    as (input & output & rt & ro & rw & closes & rx & tail & ru & _ & _ & Hev & _).
  exists rt, ([EvCall (OpenTemp (r_str rt)) ro;
               EvCall (WriteAll (r_int ro)
                         (firstn (Z.to_nat (data_length Sample.small_bsdiff))
                            (buffer_ Sample.small_applier))
                         (data_length Sample.small_bsdiff)) rw]
                ++ closes
                ++ [EvCall (SynchronousExec
                              [kBspatchPath Sample.test_env; path_ Sample.small_applier;
                               path_ Sample.small_applier; r_str rt; input; output])
                      rx]
                ++ tail), ru.
  rewrite Hev. cbn [app]. rewrite <- !app_assoc. reflexivity.
Defined.

(** ** Counting operations and bytes *)

Section Progress.

Variable E : Env.

Lemma Write_loop_progress fuel count :
  forall dp y,
    in_range dp -> next_operation_num_ dp <= total_operations dp ->
    wp (Write_loop E fuel count dp)
       (fun r _ => exists n k,
                     0 <= k /\ consumed n k dp (snd r)
                     /\ next_operation_num_ (snd r) <= total_operations dp) y.
Proof.
  induction fuel as [|fuel IH]; intros dp y Hr Hle; cbn [Write_loop].
  - wp_walk; cbn [snd]; exists 0%nat, 0;
      (split; [lia|]); (split; [apply consumed_refl | exact Hle]).
  - destruct (Z.ltb_spec (next_operation_num_ dp) (total_operations dp)) as [Hlt|_].
    2:{ apply wp_ret. exists 0%nat, 0. split; [lia|].
        split; [apply consumed_refl | exact Hle]. }
    wp_step; [apply wp_ret; exists 0%nat, 0; split; [lia|];
              split; [apply consumed_refl | exact Hle]|].
    apply wp_bind.
    eapply wp_conseq;
      [apply Write_iteration_consumed;
       [apply next_operation_wf; apply Hr | exact Hr]|].
    intros [rv dp1] y1 [Hrv [n Hc]]. cbn [fst snd] in *.
    pose proof (consumed_next_operation _ _ _ _ Hc) as Htotal.
    assert (Hnext : next_operation_num_ dp1
                    = next_operation_num_ dp + match rv with None => 1 | Some _ => 0 end)
      by (destruct Hc as (_ & _ & _ & _ & Hn & _); exact Hn).
    destruct rv as [e|].
    + apply wp_ret. cbn [snd]. exists n, 0. split; [lia|].
      split; [exact Hc | lia].
    + eapply wp_conseq;
        [apply IH; [eapply consumed_in_range; eassumption | lia]|].
      intros [rv2 dp2] y2 (n2 & k2 & Hk2 & Hc2 & Hle2). cbn [snd] in *.
      exists (n + n2)%nat, (1 + k2). split; [lia|].
      split; [eapply consumed_trans; eassumption | lia].
Qed.


End Progress.

